(** * Solar Energy Potential Estimator: the Streamlit script [solar_app.py]

    The script is a straight-line Python program: it reads seven widgets,
    and, when the "Calculate" button is pressed, evaluates a block of
    arithmetic assignments and derives three chart series from them.

    The embedding is shallow.  Python expressions are Rocq functions from
    the module namespace (a finite map from variable names to values) to
    a result that is either a value or a raised exception; statements are
    functions from namespaces to namespaces.  Values are dynamically typed
    ([int], [float], [list]) and the arithmetic operators promote [int] to
    [float] the way Python does.  The [float] carrier is a parameter
    ([PyFloat]); it is instantiated with IEEE-754 binary64 (the
    operations of [SpecFloat]), which is what the program computes with,
    and with exact rationals, the arithmetic of the specification's
    formulas.  Properties that depend on rounding are proved of the
    binary64 run, from bounds on the rounding error of every operation.

    The namespace of the model holds the numeric variables of the
    script: the seven widget values and the thirteen results computed
    from them.  Calls that only draw ([st.markdown], [st.metric],
    [st.plotly_chart], [st.table]) are left out, and so are the names
    bound to modules, layout handles, figures and display data ([st],
    [tab1], [col1], [months], [fig_roi], [fig_monthly], [financial_data],
    [irradiance_data], ...): no later arithmetic reads them, and no
    property below speaks of them.  The figures that the display calls
    compute in place (lines 163 and 281) are given as expressions
    ([monthly_savings_delta], [total_25_year_savings]). *)

From Stdlib Require Import ZArith QArith Qabs Qround Qpower Lia Lqa.
From Stdlib Require Import SpecFloat.
From stdpp Require Import base option list gmap strings.

Set Warnings "-register-all".
Local Open Scope Z_scope.

(** ** Exceptions and the result monad *)

Inductive exn : Set :=
| NameError
| TypeError
| ZeroDivisionError
| OverflowError
| ValueError.

Inductive res (A : Type) : Type :=
| Ok (a : A)
| Raise (e : exn).
Arguments Ok {A} a.
Arguments Raise {A} e.

#[global] Instance res_ret : MRet res := @Ok.
#[global] Instance res_bind : MBind res := fun A B f m =>
  match m with
  | Ok a => f a
  | Raise e => Raise e
  end.

Fixpoint res_mapM {A B} (f : A -> res B) (l : list A) : res (list B) :=
  match l with
  | [] => Ok []
  | a :: l' => b ← f a; bs ← res_mapM f l'; Ok (b :: bs)
  end.

(** ** The [float] carrier *)

Class PyFloat (F : Type) : Type := {
  of_int : Z -> F;          (* float(n) for an int n *)
  fmul : F -> F -> F;
  fadd : F -> F -> F;
  fsub : F -> F -> F;
  fdiv : F -> F -> F;       (* only called with a non-zero divisor *)
  fis_zero : F -> bool;     (* x == 0.0 *)
  fltb : F -> F -> bool;    (* x < y *)
  ftrunc : F -> res Z       (* int(x): truncation toward zero *)
}.

Section Python.
Context {F : Type} `{PyFloat F}.

(** A decimal literal [m]e-[k], such as [0.82] or [5.5]: the float
    nearest to the quotient of two integers. *)
Definition decimal (m : Z) (k : nat) : F :=
  fdiv (of_int m) (of_int (10 ^ Z.of_nat k)).

(** ** Values

    [bool] is a subtype of [int] in Python ([True == 1]); comparisons
    return [VInt 1] or [VInt 0]. *)
Inductive pyval : Type :=
| VInt (n : Z)
| VFloat (x : F)
| VList (vs : list pyval).

Definition py_bool (b : bool) : pyval := VInt (if b then 1 else 0).

Definition truthy (v : pyval) : bool :=
  match v with
  | VInt n => negb (n =? 0)
  | VFloat x => negb (fis_zero x)
  | VList vs => match vs with [] => false | _ => true end
  end.

(** ** Operators *)

Definition py_mul (a b : pyval) : res pyval :=
  match a, b with
  | VInt m, VInt n => Ok (VInt (m * n))
  | VInt m, VFloat y => Ok (VFloat (fmul (of_int m) y))
  | VFloat x, VInt n => Ok (VFloat (fmul x (of_int n)))
  | VFloat x, VFloat y => Ok (VFloat (fmul x y))
  | VList vs, VInt n | VInt n, VList vs =>
      Ok (VList (concat (replicate (Z.to_nat n) vs)))
  | _, _ => Raise TypeError
  end.

Definition py_add (a b : pyval) : res pyval :=
  match a, b with
  | VInt m, VInt n => Ok (VInt (m + n))
  | VInt m, VFloat y => Ok (VFloat (fadd (of_int m) y))
  | VFloat x, VInt n => Ok (VFloat (fadd x (of_int n)))
  | VFloat x, VFloat y => Ok (VFloat (fadd x y))
  | VList vs, VList ws => Ok (VList (vs ++ ws))
  | _, _ => Raise TypeError
  end.

Definition py_sub (a b : pyval) : res pyval :=
  match a, b with
  | VInt m, VInt n => Ok (VInt (m - n))
  | VInt m, VFloat y => Ok (VFloat (fsub (of_int m) y))
  | VFloat x, VInt n => Ok (VFloat (fsub x (of_int n)))
  | VFloat x, VFloat y => Ok (VFloat (fsub x y))
  | _, _ => Raise TypeError
  end.

(** True division [/].  A zero divisor raises; [int / int] is a float,
    the quotient of the two operands converted to float (which is what
    Python returns for ints below 2^53, as all ints of the script are). *)
Definition py_truediv (a b : pyval) : res pyval :=
  match a, b with
  | VInt m, VInt n =>
      if n =? 0 then Raise ZeroDivisionError
      else Ok (VFloat (fdiv (of_int m) (of_int n)))
  | VInt m, VFloat y =>
      if fis_zero y then Raise ZeroDivisionError
      else Ok (VFloat (fdiv (of_int m) y))
  | VFloat x, VInt n =>
      if n =? 0 then Raise ZeroDivisionError
      else Ok (VFloat (fdiv x (of_int n)))
  | VFloat x, VFloat y =>
      if fis_zero y then Raise ZeroDivisionError
      else Ok (VFloat (fdiv x y))
  | _, _ => Raise TypeError
  end.

(** [a < b] on numbers (sequence comparison is not used by the script). *)
Definition py_lt (a b : pyval) : res pyval :=
  match a, b with
  | VInt m, VInt n => Ok (py_bool (m <? n))
  | VInt m, VFloat y => Ok (py_bool (fltb (of_int m) y))
  | VFloat x, VInt n => Ok (py_bool (fltb x (of_int n)))
  | VFloat x, VFloat y => Ok (py_bool (fltb x y))
  | _, _ => Raise TypeError
  end.

Definition py_gt (a b : pyval) : res pyval := py_lt b a.

(** [min(a, b)]: the first argument unless the second is smaller. *)
Definition py_min (a b : pyval) : res pyval :=
  c ← py_lt b a; Ok (if truthy c then b else a).

(** [int(x)] *)
Definition py_int (a : pyval) : res pyval :=
  match a with
  | VInt n => Ok (VInt n)
  | VFloat x => n ← ftrunc x; Ok (VInt n)
  | VList _ => Raise TypeError
  end.

(** [range(a, b)], already as the list of its elements (the script
    passes it to [list] at once).  The limits of the interpreter on the
    length of a list are not modelled; on a valid session the range has
    at most 51 elements. *)
Definition py_range (a b : pyval) : res pyval :=
  match a, b with
  | VInt m, VInt n => Ok (VList (VInt <$> seqZ m (n - m)))
  | _, _ => Raise TypeError
  end.

(** [list(x)] of a range or a list *)
Definition py_list (a : pyval) : res pyval :=
  match a with
  | VList vs => Ok (VList vs)
  | _ => Raise TypeError
  end.

(** ** Expressions and statements over the namespace *)

Definition expr : Type := gmap string pyval -> res pyval.
Definition stmt : Type := gmap string pyval -> res (gmap string pyval).

Definition var (x : string) : expr := fun ns =>
  match ns !! x with
  | Some v => Ok v
  | None => Raise NameError
  end.

Definition int (n : Z) : expr := fun _ => Ok (VInt n).
Definition float (m : Z) (k : nat) : expr := fun _ => Ok (VFloat (decimal m k)).
Definition widget (v : pyval) : expr := fun _ => Ok v.

Definition binop (op : pyval -> pyval -> res pyval) (e1 e2 : expr) : expr :=
  fun ns => a ← e1 ns; b ← e2 ns; op a b.

Definition call1 (f : pyval -> res pyval) (e : expr) : expr :=
  fun ns => a ← e ns; f a.

Definition call2 (f : pyval -> pyval -> res pyval) (e1 e2 : expr) : expr :=
  binop f e1 e2.

(** [a if c else b]: the condition first, then one branch only. *)
Definition if_exp (a c b : expr) : expr := fun ns =>
  t ← c ns; if truthy t then a ns else b ns.

(** A list display [[e1, ..., en]]. *)
Definition list_of (es : list expr) : expr := fun ns =>
  vs ← res_mapM (fun e => e ns) es; Ok (VList vs).

(** A comprehension [[body for x in it]]: [x] is bound for the body only. *)
Definition list_comp (body : expr) (x : string) (it : expr) : expr := fun ns =>
  l ← it ns;
  match l with
  | VList vs => ws ← res_mapM (fun v => body (<[x := v]> ns)) vs; Ok (VList ws)
  | _ => Raise TypeError
  end.

(** ['x' in locals()] *)
Definition in_locals (x : string) : expr := fun ns =>
  Ok (py_bool (bool_decide (is_Some (ns !! x)))).

Definition assign (x : string) (e : expr) : stmt := fun ns =>
  v ← e ns; Ok (<[x := v]> ns).

Definition sequence (s1 s2 : stmt) : stmt := fun ns => ns' ← s1 ns; s2 ns'.

Definition if_then (c : expr) (s : stmt) : stmt := fun ns =>
  t ← c ns; if truthy t then s ns else Ok ns.

End Python.

Arguments pyval F : clear implicits.
Arguments expr F : clear implicits.
Arguments stmt F : clear implicits.

Declare Scope py_scope.
Delimit Scope py_scope with py.
Notation "x ::= e" := (assign x e) (at level 75, no associativity) : py_scope.
Notation "s1 ;; s2" := (sequence s1 s2)
  (at level 100, s2 at level 200, right associativity) : py_scope.
Notation "a *' b" := (binop py_mul a b) (at level 40, left associativity) : py_scope.
Notation "a /' b" := (binop py_truediv a b) (at level 40, left associativity) : py_scope.
Notation "a +' b" := (binop py_add a b) (at level 50, left associativity) : py_scope.
Notation "a -' b" := (binop py_sub a b) (at level 50, left associativity) : py_scope.
Notation "a >' b" := (binop py_gt a b) (at level 70, no associativity) : py_scope.

(** ** The script

    The widget calls of lines 94-130 return what the user has set in the
    browser; that state is the [Session].  [st.number_input] and
    [st.slider] return an [int] when their bounds are ints and a [float]
    when they are floats; [st.button] returns whether it was pressed. *)

Record Session (F : Type) : Type := {
  area : Z;
  irradiance : F;
  tariff : F;
  panel_efficiency : Z;
  system_losses : Z;
  installation_cost : Z;
  maintenance_cost : Z;
  button : bool
}.
Arguments area {F} _.
Arguments irradiance {F} _.
Arguments tariff {F} _.
Arguments panel_efficiency {F} _.
Arguments system_losses {F} _.
Arguments installation_cost {F} _.
Arguments maintenance_cost {F} _.
Arguments button {F} _.

Section Script.
Context {F : Type} `{PyFloat F}.
Variable s : Session F.
Local Open Scope py_scope.

(** Lines 94-130 *)
Definition widgets : stmt F :=
  "area" ::= widget (VInt (area s)) ;;
  "irradiance" ::= widget (VFloat (irradiance s)) ;;
  "tariff" ::= widget (VFloat (tariff s)) ;;
  "panel_efficiency" ::= widget (VInt (panel_efficiency s)) ;;
  "system_losses" ::= widget (VInt (system_losses s)) ;;
  "installation_cost" ::= widget (VInt (installation_cost s)) ;;
  "maintenance_cost" ::= widget (VInt (maintenance_cost s)).

(** Lines 137-143 *)
Definition calculation : stmt F :=
  "performance_ratio" ::= (int 100 -' var "system_losses") /' int 100 ;;
  "annual_output" ::=
    var "area" *' var "irradiance" *' int 365 *' var "performance_ratio"
      *' (var "panel_efficiency" /' int 20) ;;
  "annual_savings" ::= var "annual_output" *' var "tariff" ;;
  "total_system_cost" ::=
    (var "annual_output" /' int 1000) *' var "installation_cost" ;;
  "net_annual_savings" ::= var "annual_savings" -' var "maintenance_cost" ;;
  "payback" ::=
    if_exp (var "total_system_cost" /' var "net_annual_savings")
           (var "net_annual_savings" >' int 0)
           (int 0) ;;
  "co2_reduction" ::= var "annual_output" *' float 82 2.

(** Line 189: the [value] of the gauge indicator; the figure object is
    represented by that number. *)
Definition gauge : stmt F :=
  "fig_gauge" ::=
    call2 py_min (int 100) ((var "annual_output" /' var "area") *' int 10).

(** Lines 213-214 *)
Definition roi_timeline : stmt F :=
  "years" ::=
    call1 py_list
      (call2 py_range (int 1) (call1 py_int (var "payback") +' int 5)) ;;
  "cumulative_savings" ::=
    list_comp (var "year" *' var "net_annual_savings" -' var "total_system_cost")
              "year" (var "years").

(** Lines 237-243 *)
Definition monthly_breakdown : stmt F :=
  "seasonal_variation" ::=
    list_of [float 8 1; float 9 1; float 11 1; float 12 1; float 13 1;
             float 12 1; float 11 1; float 11 1; float 10 1; float 9 1;
             float 8 1; float 7 1] ;;
  "monthly_output" ::=
    list_comp (var "annual_output" /' int 12 *' var "var")
              "var" (var "seasonal_variation") ;;
  "monthly_savings" ::=
    list_comp (var "output" *' var "tariff") "output" (var "monthly_output").

(** Lines 86-232, [with tab1:] *)
Definition tab1 : stmt F :=
  widgets ;;
  if_then (widget (py_bool (button s))) (calculation ;; gauge ;; roi_timeline).

(** Lines 234-284, [with tab2:].  The financial table of lines 262-283
    is a display: it reads results that are bound whenever
    [annual_output] is bound in a run of the script, and binds
    [financial_data], which nothing reads. *)
Definition tab2 : stmt F :=
  if_then (in_locals "annual_output") monthly_breakdown.

Definition script : stmt F := tab1 ;; tab2.

End Script.

(** ** Exact arithmetic: the rationals as [float] *)

Definition Qlt_bool (a b : Q) : bool :=
  Qnum a * QDen b <? Qnum b * QDen a.

Definition Qtrunc (a : Q) : Z := Z.quot (Qnum a) (QDen a).

#[global] Instance Q_float : PyFloat Q := {
  of_int := inject_Z;
  fmul := Qmult;
  fadd := Qplus;
  fsub := Qminus;
  fdiv := Qdiv;
  fis_zero a := Qnum a =? 0;
  fltb := Qlt_bool;
  ftrunc a := Ok (Qtrunc a)
}.

(** ** IEEE-754 binary64 as [float] *)

Module B64.

Definition prec : Z := 53.
Definition emax : Z := 1024.

(** [float(n)]: the binary64 number nearest to the int [n].  The
    conversion is exact below [2^53], which covers every int of a session
    within the declared ranges; for an int beyond the binary64 range
    Python raises [OverflowError], which is not modelled. *)
Definition of_Z (n : Z) : spec_float := binary_normalize prec emax n 0 false.

Definition is_zero (x : spec_float) : bool :=
  match x with
  | S754_zero _ => true
  | _ => false
  end.

(** [int(x)]: [OverflowError] on an infinity, [ValueError] on a NaN. *)
Definition trunc (x : spec_float) : res Z :=
  match x with
  | S754_zero _ => Ok 0
  | S754_infinity _ => Raise OverflowError
  | S754_nan => Raise ValueError
  | S754_finite sg m e =>
      Ok (cond_Zopp sg
            (match e with
             | Z0 => Zpos m
             | Zpos p => Zpos m * 2 ^ Zpos p
             | Zneg p => Zpos m / 2 ^ Zpos p
             end))
  end.

(** The exact value of a finite float. *)
Definition to_Q (x : spec_float) : Q :=
  match x with
  | S754_finite sg m e =>
      (inject_Z (cond_Zopp sg (Zpos m)) *
       match e with
       | Z0 => 1
       | Zpos p => inject_Z (2 ^ Zpos p)
       | Zneg p => / inject_Z (2 ^ Zpos p)
       end)%Q
  | _ => 0%Q
  end.

#[global] Instance float64 : PyFloat spec_float := {
  of_int := of_Z;
  fmul := SFmul prec emax;
  fadd := SFadd prec emax;
  fsub := SFsub prec emax;
  fdiv := SFdiv prec emax;
  fis_zero := is_zero;
  fltb := SFltb;
  ftrunc := trunc
}.

End B64.

Definition scenario1 {F} `{PyFloat F} : Session F :=
  {| area := 100; irradiance := decimal 55 1; tariff := decimal 65 1;
     panel_efficiency := 20; system_losses := 15;
     installation_cost := 65000; maintenance_cost := 4000; button := true |}.

(** ** Reading results back

    A run of the script starts from the empty namespace: Streamlit
    executes the file top to bottom on every interaction. *)

Section Results.
Context {F : Type} `{PyFloat F}.

Definition run (s : Session F) : res (gmap string (pyval F)) := script s ∅.

(** Lines 94-143 alone: the widgets and the calculation block. *)
Definition estimate (s : Session F) : res (gmap string (pyval F)) :=
  sequence (widgets s) calculation ∅.

Definition as_float (v : pyval F) : option F :=
  match v with
  | VFloat x => Some x
  | _ => None
  end.

Definition as_int (v : pyval F) : option Z :=
  match v with
  | VInt n => Some n
  | _ => None
  end.

(** The value of variable [x] after the run [r]. *)
Definition value_var (x : string) (r : res (gmap string (pyval F)))
  : option (pyval F) :=
  match r with
  | Ok ns => ns !! x
  | Raise _ => None
  end.

Definition float_var (x : string) (r : res (gmap string (pyval F))) : option F :=
  match value_var x r with
  | Some v => as_float v
  | None => None
  end.

Definition floats_var (x : string) (r : res (gmap string (pyval F)))
  : option (list F) :=
  match value_var x r with
  | Some (VList vs) => mapM as_float vs
  | _ => None
  end.

Definition ints_var (x : string) (r : res (gmap string (pyval F)))
  : option (list Z) :=
  match value_var x r with
  | Some (VList vs) => mapM as_int vs
  | _ => None
  end.

End Results.

(** ** Which variables a statement reads

    Two namespaces are [same_on X] when every variable of [X] is bound in
    both, to the same value.  An expression [reads X] when it evaluates
    alike in namespaces that are the same on [X]; a statement [transfers X
    Y] when it takes namespaces that are the same on [X] to the same
    exception or to namespaces that are the same on [Y]. *)

Section Footprint.
Context {F : Type} `{PyFloat F}.
Implicit Types (ns : gmap string (pyval F)) (e : expr F) (st : stmt F).
Implicit Types X Y Z : gset string.

Definition same_on X ns1 ns2 : Prop :=
  forall x, x ∈ X -> is_Some (ns1 !! x) /\ ns1 !! x = ns2 !! x.

Definition same_outcome Y (r1 r2 : res (gmap string (pyval F))) : Prop :=
  match r1, r2 with
  | Ok a, Ok b => same_on Y a b
  | Raise e1, Raise e2 => e1 = e2
  | _, _ => False
  end.

Definition reads X e : Prop :=
  forall ns1 ns2, same_on X ns1 ns2 -> e ns1 = e ns2.

Definition transfers X Y st : Prop :=
  forall ns1 ns2, same_on X ns1 ns2 -> same_outcome Y (st ns1) (st ns2).

End Footprint.

(** The variables the script assigns when the button is pressed. *)
Definition input_vars : gset string :=
  {[ "area"; "irradiance"; "tariff"; "panel_efficiency"; "system_losses";
     "installation_cost"; "maintenance_cost" ]}.

Definition result_vars : gset string :=
  {[ "performance_ratio"; "annual_output"; "annual_savings";
     "total_system_cost"; "net_annual_savings"; "payback"; "co2_reduction";
     "fig_gauge"; "years"; "cumulative_savings"; "seasonal_variation";
     "monthly_output"; "monthly_savings" ]}.

(** ** What the script computes, in exact arithmetic *)

Module Exact.
Section Exact.
Variable s : Session Q.
Local Open Scope Q_scope.

Definition performance_ratio : Q :=
  inject_Z (100 - system_losses s) / inject_Z 100.

Definition annual_output : Q :=
  inject_Z (area s) * irradiance s * inject_Z 365 * performance_ratio
  * (inject_Z (panel_efficiency s) / inject_Z 20).

Definition annual_savings : Q := annual_output * tariff s.

Definition total_system_cost : Q :=
  annual_output / inject_Z 1000 * inject_Z (installation_cost s).

Definition net_annual_savings : Q :=
  annual_savings - inject_Z (maintenance_cost s).

Definition payback : pyval Q :=
  if Qlt_bool (inject_Z 0) net_annual_savings
  then VFloat (total_system_cost / net_annual_savings)
  else VInt 0.

Definition co2_reduction : Q := annual_output * decimal 82 2.

Definition fig_gauge : pyval Q :=
  let score := annual_output / inject_Z (area s) * inject_Z 10 in
  if Qlt_bool score (inject_Z 100) then VFloat score else VInt 100.

Definition int_payback : Z :=
  match payback with
  | VFloat p => Qtrunc p
  | VInt n => n
  | VList _ => 0%Z
  end.

Definition years : list Z := seqZ 1 (int_payback + 5 - 1).

Definition cumulative_savings : list Q :=
  (fun year => inject_Z year * net_annual_savings - total_system_cost) <$> years.

Definition seasonal_variation : list Q :=
  [decimal 8 1; decimal 9 1; decimal 11 1; decimal 12 1; decimal 13 1;
   decimal 12 1; decimal 11 1; decimal 11 1; decimal 10 1; decimal 9 1;
   decimal 8 1; decimal 7 1].

Definition monthly_output : list Q :=
  (fun var => annual_output / inject_Z 12 * var) <$> seasonal_variation.

Definition monthly_savings : list Q :=
  (fun output => output * tariff s) <$> monthly_output.

(** The namespace after a run in which the button was pressed. *)
Definition final (ns0 : gmap string (pyval Q)) : gmap string (pyval Q) :=
  <["monthly_savings" := VList (VFloat <$> monthly_savings)]>
  (<["monthly_output" := VList (VFloat <$> monthly_output)]>
  (<["seasonal_variation" := VList (VFloat <$> seasonal_variation)]>
  (<["cumulative_savings" := VList (VFloat <$> cumulative_savings)]>
  (<["years" := VList (VInt <$> years)]>
  (<["fig_gauge" := fig_gauge]>
  (<["co2_reduction" := VFloat co2_reduction]>
  (<["payback" := payback]>
  (<["net_annual_savings" := VFloat net_annual_savings]>
  (<["total_system_cost" := VFloat total_system_cost]>
  (<["annual_savings" := VFloat annual_savings]>
  (<["annual_output" := VFloat annual_output]>
  (<["performance_ratio" := VFloat performance_ratio]>
  (<["maintenance_cost" := VInt (maintenance_cost s)]>
  (<["installation_cost" := VInt (installation_cost s)]>
  (<["system_losses" := VInt (system_losses s)]>
  (<["panel_efficiency" := VInt (panel_efficiency s)]>
  (<["tariff" := VFloat (tariff s)]>
  (<["irradiance" := VFloat (irradiance s)]>
  (<["area" := VInt (area s)]> ns0))))))))))))))))))).

End Exact.
End Exact.

(** ** The declared input ranges

    The bounds are the [min_value] and [max_value] arguments of the
    widgets (lines 94-130). *)

Record valid (s : Session Q) : Prop := {
  area_range : 10 <= area s <= 1000;
  irradiance_range : (3 <= irradiance s <= 7)%Q;
  tariff_range : (3 <= tariff s <= 15)%Q;
  panel_efficiency_range : 15 <= panel_efficiency s <= 25;
  system_losses_range : 10 <= system_losses s <= 25;
  installation_cost_range : 40000 <= installation_cost s <= 80000;
  maintenance_cost_range : 2000 <= maintenance_cost s <= 8000
}.

(** ** Vocabulary of the properties *)

Section Statements.
Local Open Scope Q_scope.

(** The output of one square metre, as the script's formula has it. *)
Definition yield (i l e : Q) : Q := i * 365 * ((100 - l) / 100) * (e / 20).

(** The second session yields strictly more energy than the first. *)
Definition output_increases (s s' : Session Q) : Prop :=
  exists o o',
    float_var "annual_output" (estimate s) = Some o /\
    float_var "annual_output" (estimate s') = Some o' /\
    o < o'.

(** The multiplier table as the specification lists it, January to
    December. *)
Definition seasonal_factor : list Q :=
  [0.8; 0.9; 1.1; 1.2; 1.3; 1.2; 1.1; 1.1; 1.0; 0.9; 0.8; 0.7].

Definition Qsum (l : list Q) : Q := foldr Qplus 0 l.

(** Scenario 2 of the specification: an extremely low tariff and high
    maintenance.  The tariff is below the widget's minimum of 3.0. *)
Definition no_payback : Session Q :=
  {| area := 100; irradiance := 5.5; tariff := 0.01;
     panel_efficiency := 20; system_losses := 15;
     installation_cost := 65000; maintenance_cost := 8000; button := true |}.

(** [x] is [v] to within [tol]. *)
Definition near (tol x v : Q) : Prop := Qabs (x - v) <= tol.

(** Scenario 1 with the figures the specification quotes: amounts to the
    nearest unit, the payback period to the two decimals given. *)
Definition scenario1_as_quoted : Prop :=
  exists pr ao sv cost net p co2 : Q,
    float_var "performance_ratio" (estimate scenario1) = Some pr /\
    float_var "annual_output" (estimate scenario1) = Some ao /\
    float_var "annual_savings" (estimate scenario1) = Some sv /\
    float_var "total_system_cost" (estimate scenario1) = Some cost /\
    float_var "net_annual_savings" (estimate scenario1) = Some net /\
    float_var "payback" (estimate scenario1) = Some p /\
    float_var "co2_reduction" (estimate scenario1) = Some co2 /\
    pr == 0.85 /\ ao == 170637.5 /\
    near 1 sv 1108643.75 /\ near 1 cost 11091437.5 /\
    near 1 net 1104643.75 /\ near 0.005 p 10.04 /\ near 1 co2 139922.75.

End Statements.

(** The valid sessions with the lowest yield and longest payback, and with
    the highest yield and shortest payback, as binary64 sessions. *)
Definition lowest_yield : Session spec_float :=
  {| area := 10; irradiance := decimal 30 1; tariff := decimal 30 1;
     panel_efficiency := 15; system_losses := 25;
     installation_cost := 80000; maintenance_cost := 8000; button := true |}.

Definition highest_yield : Session spec_float :=
  {| area := 1000; irradiance := decimal 70 1; tariff := decimal 150 1;
     panel_efficiency := 25; system_losses := 10;
     installation_cost := 40000; maintenance_cost := 2000; button := true |}.

Definition last_is_positive (r : res (gmap string (pyval spec_float))) : bool :=
  match floats_var "cumulative_savings" r with
  | Some cs =>
      match last cs with
      | Some c => SFltb (B64.of_Z 0) c
      | None => false
      end
  | None => false
  end.

(** ** What the script computes, for any [float] carrier

    The values of [Exact], written with the operations of the carrier, and
    the points at which a run can stop: the division by [area] in the
    gauge and the conversion [int(payback)]. *)

Module Generic.
Section Generic.
Context {F : Type} `{PyFloat F}.
Variable s : Session F.

Definition performance_ratio : F :=
  fdiv (of_int (100 - system_losses s)) (of_int 100).

Definition annual_output : F :=
  fmul (fmul (fmul (fmul (of_int (area s)) (irradiance s)) (of_int 365))
             performance_ratio)
       (fdiv (of_int (panel_efficiency s)) (of_int 20)).

Definition annual_savings : F := fmul annual_output (tariff s).

Definition total_system_cost : F :=
  fmul (fdiv annual_output (of_int 1000)) (of_int (installation_cost s)).

Definition net_annual_savings : F :=
  fsub annual_savings (of_int (maintenance_cost s)).

Definition payback : pyval F :=
  if fltb (of_int 0) net_annual_savings
  then VFloat (fdiv total_system_cost net_annual_savings)
  else VInt 0.

Definition co2_reduction : F := fmul annual_output (decimal 82 2).

(** The namespace after lines 94-143. *)
Definition calculated (ns0 : gmap string (pyval F)) : gmap string (pyval F) :=
  <["co2_reduction" := VFloat co2_reduction]>
  (<["payback" := payback]>
  (<["net_annual_savings" := VFloat net_annual_savings]>
  (<["total_system_cost" := VFloat total_system_cost]>
  (<["annual_savings" := VFloat annual_savings]>
  (<["annual_output" := VFloat annual_output]>
  (<["performance_ratio" := VFloat performance_ratio]>
  (<["maintenance_cost" := VInt (maintenance_cost s)]>
  (<["installation_cost" := VInt (installation_cost s)]>
  (<["system_losses" := VInt (system_losses s)]>
  (<["panel_efficiency" := VInt (panel_efficiency s)]>
  (<["tariff" := VFloat (tariff s)]>
  (<["irradiance" := VFloat (irradiance s)]>
  (<["area" := VInt (area s)]> ns0))))))))))))).

Definition fig_gauge : pyval F :=
  let score := fmul (fdiv annual_output (of_int (area s))) (of_int 10) in
  if fltb score (of_int 100) then VFloat score else VInt 100.

Definition int_payback : res Z :=
  match payback with
  | VFloat p => ftrunc p
  | VInt n => Ok n
  | VList _ => Raise TypeError
  end.

Definition years (n : Z) : list Z := seqZ 1 (n + 5 - 1).

Definition cumulative_savings (n : Z) : list F :=
  (fun year => fsub (fmul (of_int year) net_annual_savings) total_system_cost)
    <$> years n.

Definition seasonal_variation : list F :=
  [decimal 8 1; decimal 9 1; decimal 11 1; decimal 12 1; decimal 13 1;
   decimal 12 1; decimal 11 1; decimal 11 1; decimal 10 1; decimal 9 1;
   decimal 8 1; decimal 7 1].

Definition monthly_output : list F :=
  (fun var => fmul (fdiv annual_output (of_int 12)) var) <$> seasonal_variation.

Definition monthly_savings : list F :=
  (fun output => fmul output (tariff s)) <$> monthly_output.

(** The namespace after a whole run in which [int(payback)] is [n]. *)
Definition final (n : Z) (ns0 : gmap string (pyval F)) : gmap string (pyval F) :=
  <["monthly_savings" := VList (VFloat <$> monthly_savings)]>
  (<["monthly_output" := VList (VFloat <$> monthly_output)]>
  (<["seasonal_variation" := VList (VFloat <$> seasonal_variation)]>
  (<["cumulative_savings" := VList (VFloat <$> cumulative_savings n)]>
  (<["years" := VList (VInt <$> years n)]>
  (<["fig_gauge" := fig_gauge]> (calculated ns0)))))).

(** How a run with the button pressed ends. *)
Definition outcome (ns0 : gmap string (pyval F)) : res (gmap string (pyval F)) :=
  if area s =? 0 then Raise ZeroDivisionError
  else match int_payback with
       | Ok n => Ok (final n ns0)
       | Raise e => Raise e
       end.

(** The namespace after a run in which the button was not pressed. *)
Definition idle : gmap string (pyval F) :=
  <["maintenance_cost" := VInt (maintenance_cost s)]>
  (<["installation_cost" := VInt (installation_cost s)]>
  (<["system_losses" := VInt (system_losses s)]>
  (<["panel_efficiency" := VInt (panel_efficiency s)]>
  (<["tariff" := VFloat (tariff s)]>
  (<["irradiance" := VFloat (irradiance s)]>
  (<["area" := VInt (area s)]> ∅)))))).

End Generic.
End Generic.

(** The one fact about the carrier that line 142 relies on: a number
    greater than zero is not zero. *)
Class PyFloatLaws (F : Type) `{PyFloat F} : Prop := {
  positive_nonzero : forall x : F, fltb (of_int 0) x = true -> fis_zero x = false
}.

(** ** Figures computed inside the display calls

    Expressions that the script formats and shows without binding them to
    a variable. *)

Section Displayed.
Context {F : Type} `{PyFloat F}.
Local Open Scope py_scope.

(** Line 163: the "per month" delta of the annual-savings metric. *)
Definition monthly_savings_delta : expr F := var "annual_savings" /' int 12.

(** Line 281: the "25-Year Total Savings" row of the financial table. *)
Definition total_25_year_savings : expr F :=
  var "net_annual_savings" *' int 25 -' var "total_system_cost".

(** The value of [e] in the namespace a run ends with. *)
Definition displayed (e : expr F) (r : res (gmap string (pyval F)))
  : option (pyval F) :=
  match r with
  | Ok ns => match e ns with
             | Ok v => Some v
             | Raise _ => None
             end
  | Raise _ => None
  end.

End Displayed.

Section MoreStatements.
Local Open Scope Q_scope.

(** The session that differs from [s] in the system losses. *)
Definition with_system_losses (l : Z) (s : Session Q) : Session Q :=
  {| area := area s; irradiance := irradiance s; tariff := tariff s;
     panel_efficiency := panel_efficiency s; system_losses := l;
     installation_cost := installation_cost s;
     maintenance_cost := maintenance_cost s; button := button s |}.

End MoreStatements.

(** Sessions outside the declared ranges, for the edge behaviour. *)

(** An irradiance near the largest binary64 number: the output is
    infinite and the payback quotient is a NaN. *)
Definition huge_irradiance : Session spec_float :=
  {| area := 1000; irradiance := B64.of_Z (10 ^ 308); tariff := decimal 65 1;
     panel_efficiency := 20; system_losses := 15;
     installation_cost := 65000; maintenance_cost := 4000; button := true |}.

(** A large irradiance and a minute tariff: the cost is infinite while the
    savings stay finite, so the payback is infinite. *)
Definition infinite_payback : Session spec_float :=
  {| area := 10; irradiance := B64.of_Z (10 ^ 304); tariff := decimal 1 300;
     panel_efficiency := 20; system_losses := 15;
     installation_cost := 80000; maintenance_cost := 4000; button := true |}.

Definition idle_scenario1 {F} `{PyFloat F} : Session F :=
  {| area := 100; irradiance := decimal 55 1; tariff := decimal 65 1;
     panel_efficiency := 20; system_losses := 15;
     installation_cost := 65000; maintenance_cost := 4000; button := false |}.

(** ** Binary64 sessions

    The program computes with binary64 numbers.  The general properties
    are stated of a binary64 session whose floats are the numbers the
    widgets return, and proved by bounding the rounding error of every
    operation of the script. *)

(** The exact value of every input of a binary64 session. *)
Definition exact_of (s : Session spec_float) : Session Q :=
  {| area := area s; irradiance := B64.to_Q (irradiance s);
     tariff := B64.to_Q (tariff s);
     panel_efficiency := panel_efficiency s; system_losses := system_losses s;
     installation_cost := installation_cost s;
     maintenance_cost := maintenance_cost s; button := button s |}.

(** The declared ranges, for the binary64 numbers the widgets return:
    [irradiance] and [tariff] are binary64 numbers in canonical form, as
    every Python float is, and all seven values are within the bounds of
    their widgets. *)
Record valid64 (s : Session spec_float) : Prop := {
  irradiance_binary64 : valid_binary 53 1024 (irradiance s) = true;
  tariff_binary64 : valid_binary 53 1024 (tariff s) = true;
  ranges64 : valid (exact_of s)
}.

(** The float line 142 binds to [payback] when [net_annual_savings > 0]. *)
Definition payback64 (s : Session spec_float) : spec_float :=
  SFdiv 53 1024 (Generic.total_system_cost s) (Generic.net_annual_savings s).

(** The entry of [year] in [cumulative_savings], as line 214 computes it. *)
Definition entry (s : Session spec_float) (year : Z) : spec_float :=
  SFsub 53 1024 (SFmul 53 1024 (B64.of_Z year) (Generic.net_annual_savings s))
        (Generic.total_system_cost s).


(** Scenario 2 of the specification as a binary64 session: the tariff
    0.01 is below the widget's minimum of 3.0. *)
Definition no_payback64 : Session spec_float :=
  {| area := 100; irradiance := decimal 55 1; tariff := decimal 1 2;
     panel_efficiency := 20; system_losses := 15;
     installation_cost := 65000; maintenance_cost := 8000; button := true |}.

(** Sessions that differ from [s] in one widget, for any carrier. *)
Definition set_area {F} (a : Z) (s : Session F) : Session F :=
  {| area := a; irradiance := irradiance s; tariff := tariff s;
     panel_efficiency := panel_efficiency s; system_losses := system_losses s;
     installation_cost := installation_cost s;
     maintenance_cost := maintenance_cost s; button := button s |}.

Definition set_irradiance {F} (i : F) (s : Session F) : Session F :=
  {| area := area s; irradiance := i; tariff := tariff s;
     panel_efficiency := panel_efficiency s; system_losses := system_losses s;
     installation_cost := installation_cost s;
     maintenance_cost := maintenance_cost s; button := button s |}.

Definition set_panel_efficiency {F} (e : Z) (s : Session F) : Session F :=
  {| area := area s; irradiance := irradiance s; tariff := tariff s;
     panel_efficiency := e; system_losses := system_losses s;
     installation_cost := installation_cost s;
     maintenance_cost := maintenance_cost s; button := button s |}.

(** The second session yields strictly more energy than the first, as
    Python's [<] on the two floats decides. *)
Definition output_increases64 (s s' : Session spec_float) : Prop :=
  exists o o',
    float_var "annual_output" (estimate s) = Some o /\
    float_var "annual_output" (estimate s') = Some o' /\
    SFltb o o' = true.

(** "Increasing irradiance strictly increases annualOutputKwh", for the
    binary64 numbers of the program. *)
Definition irradiance_strictly_increases_output : Prop :=
  forall (s : Session spec_float) (i' : spec_float),
    valid64 s -> valid64 (set_irradiance i' s) ->
    SFltb (irradiance s) i' = true ->
    output_increases64 s (set_irradiance i' s).

(** A valid session whose irradiance is the float that follows 3.0,
    [3 + 2^-51], and the float that follows it, [3 + 2^-50]. *)
Definition irradiance_above_3 : Session spec_float :=
  {| area := 10; irradiance := S754_finite false 6755399441055745 (-51);
     tariff := decimal 30 1;
     panel_efficiency := 20; system_losses := 15;
     installation_cost := 65000; maintenance_cost := 4000; button := true |}.

Definition next_irradiance : spec_float :=
  S754_finite false 6755399441055746 (-51).

(** "sum(monthlyOutputKwh) equals annualOutputKwh * (sum(seasonalFactor)/12)"
    for the floats of a binary64 run, both sides taken exactly. *)
Definition monthly_sum_exactly_proportional (s : Session spec_float) : Prop :=
  exists ao ms,
    float_var "annual_output" (run s) = Some ao /\
    floats_var "monthly_output" (run s) = Some ms /\
    (Qsum (B64.to_Q <$> ms) == B64.to_Q ao * (Qsum seasonal_factor / 12))%Q.

(** ** Rounding errors

    [ulp52] is the relative error of one rounding to nearest of a normal
    number, [eps] twice that. *)
Definition ulp52 : Q := 1 # 4503599627370496.
Definition eps : Q := 1 # 2251799813685248.

(** A positive normal binary64 number of moderate size: a full 53-bit
    mantissa, and an exponent far from the overflow and underflow
    thresholds. *)
Definition positive_normal (x : spec_float) : Prop :=
  match x with
  | S754_finite false m e => digits2_pos m = 53%positive /\ -200 <= e <= 200
  | _ => False
  end.

(** [r] is within one rounding of the exact value [X]. *)
Definition rounds (X : Q) (r : spec_float) : Prop :=
  positive_normal r /\
  (X * (1 - ulp52) <= B64.to_Q r <= X * (1 + ulp52))%Q.

(** Values between [2^-64] and [2^64]. *)
Definition moderate (X : Q) : Prop :=
  ((1 # 18446744073709551616) <= X <= 18446744073709551616)%Q.

(** [tracks k lo hi X r]: the float [r] is a positive normal number within
    a relative [k * eps] of the exact value [X], which lies between [lo]
    and [hi]. *)
Definition tracks (k lo hi X : Q) (r : spec_float) : Prop :=
  positive_normal r /\ (lo <= X <= hi)%Q /\
  (X * (1 - k * eps) <= B64.to_Q r <= X * (1 + k * eps))%Q.

(** The float [f] is the table entry [q] to within one rounding. *)
Definition rounded_to (q : Q) (f : spec_float) : Prop :=
  (q * (1 - eps) <= B64.to_Q f <= q * (1 + eps))%Q.

(** The float [r] is within a relative [k * eps] of the exact [X]. *)
Definition accurate_to (k X : Q) (r : spec_float) : Prop :=
  (X * (1 - k * eps) <= B64.to_Q r <= X * (1 + k * eps))%Q.

Definition set_tariff {F} (t : F) (s : Session F) : Session F :=
  {| area := area s; irradiance := irradiance s; tariff := t;
     panel_efficiency := panel_efficiency s; system_losses := system_losses s;
     installation_cost := installation_cost s;
     maintenance_cost := maintenance_cost s; button := button s |}.

Definition set_installation_cost {F} (c : Z) (s : Session F) : Session F :=
  {| area := area s; irradiance := irradiance s; tariff := tariff s;
     panel_efficiency := panel_efficiency s; system_losses := system_losses s;
     installation_cost := c;
     maintenance_cost := maintenance_cost s; button := button s |}.

Definition set_maintenance_cost {F} (m : Z) (s : Session F) : Session F :=
  {| area := area s; irradiance := irradiance s; tariff := tariff s;
     panel_efficiency := panel_efficiency s; system_losses := system_losses s;
     installation_cost := installation_cost s;
     maintenance_cost := m; button := button s |}.

(** The second session pays back strictly sooner than the first, as
    Python's [<] on the two floats decides. *)
Definition payback_shortens64 (s s' : Session spec_float) : Prop :=
  exists p p' : spec_float,
    float_var "payback" (estimate s) = Some p /\
    float_var "payback" (estimate s') = Some p' /\
    SFltb p' p = true.

(** The payback period of a session in exact arithmetic. *)
Definition exact_payback (s : Session Q) : Q :=
  (Exact.total_system_cost s / Exact.net_annual_savings s)%Q.

(** The score of line 189 before the clamp. *)
Definition score64 (s : Session spec_float) : spec_float :=
  SFmul 53 1024 (SFdiv 53 1024 (Generic.annual_output s) (B64.of_Z (area s)))
        (B64.of_Z 10).

(** * Properties *)

Section ResultsLemmas.
Context {F : Type} `{PyFloat F}.

Lemma mapM_as_float (l : list F) : mapM as_float (VFloat <$> l) = Some l.
Proof. induction l as [|a l IH]; [reflexivity|]. cbn. rewrite IH. reflexivity. Qed.

Lemma mapM_as_int (l : list Z) :
  mapM (as_int (F:=F)) (VInt <$> l) = Some l.
Proof. induction l as [|a l IH]; [reflexivity|]. cbn. rewrite IH. reflexivity. Qed.

End ResultsLemmas.

(** ** Running statements: one lemma per construct *)

Section Run.
Context {F : Type} `{PyFloat F}.
Implicit Types (ns : gmap string (pyval F)) (e : expr F) (st : stmt F).

Lemma res_mapM_fmap {A B C} (f : B -> res C) (h : A -> B) (g : A -> C) l :
  (forall a, f (h a) = Ok (g a)) -> res_mapM f (h <$> l) = Ok (g <$> l).
Proof.
  intros Hf. induction l as [|a l IH]; [reflexivity|].
  cbn. rewrite Hf. cbn. rewrite IH. reflexivity.
Qed.

Lemma eval_var x v ns : ns !! x = Some v -> var x ns = Ok v.
Proof. unfold var. intros ->. reflexivity. Qed.

Lemma eval_binop op e1 e2 a b r ns :
  e1 ns = Ok a -> e2 ns = Ok b -> op a b = r -> binop op e1 e2 ns = r.
Proof. unfold binop. intros -> -> <-. reflexivity. Qed.

Lemma eval_call1 f e a r ns : e ns = Ok a -> f a = r -> call1 f e ns = r.
Proof. unfold call1. intros -> <-. reflexivity. Qed.

Lemma eval_if_exp a c b t r ns :
  c ns = Ok t -> (if truthy t then a ns else b ns) = r -> if_exp a c b ns = r.
Proof. unfold if_exp. intros -> <-. reflexivity. Qed.

Lemma eval_list_comp body x it (l : list (pyval F)) ws ns :
  it ns = Ok (VList l) ->
  res_mapM (fun v => body (<[x := v]> ns)) l = Ok ws ->
  list_comp body x it ns = Ok (VList ws).
Proof. unfold list_comp. intros -> Hws. cbn. rewrite Hws. reflexivity. Qed.

Lemma run_assign x e v ns : e ns = Ok v -> assign x e ns = Ok (<[x := v]> ns).
Proof. unfold assign. intros ->. reflexivity. Qed.

Lemma run_seq st1 st2 ns ns1 r :
  st1 ns = Ok ns1 -> st2 ns1 = r -> sequence st1 st2 ns = r.
Proof. unfold sequence. intros -> <-. reflexivity. Qed.

Lemma run_if_then c st t r ns :
  c ns = Ok t -> (if truthy t then st ns else Ok ns) = r -> if_then c st ns = r.
Proof. unfold if_then. intros -> <-. reflexivity. Qed.

End Run.

(** ** Footprint rules, one per construct *)

Section FootprintRules.
Context {F : Type} `{PyFloat F}.
Implicit Types (ns : gmap string (pyval F)) (e : expr F) (st : stmt F).
Implicit Types X Y Z : gset string.
Local Abbreviation same_on := (same_on (F:=F)).
Local Abbreviation reads := (reads (F:=F)).
Local Abbreviation transfers := (transfers (F:=F)).

Lemma same_on_subseteq X Y ns1 ns2 : Y ⊆ X -> same_on X ns1 ns2 -> same_on Y ns1 ns2.
Proof. intros Hsub Hs x Hx. apply Hs, Hsub, Hx. Qed.

Lemma same_on_insert X x v ns1 ns2 :
  same_on X ns1 ns2 -> same_on (X ∪ {[x]}) (<[x := v]> ns1) (<[x := v]> ns2).
Proof.
  intros Hs y Hy. destruct (decide (x = y)) as [->|Hne].
  - rewrite !lookup_insert_eq. eauto.
  - rewrite !lookup_insert_ne by done. apply Hs.
    apply elem_of_union in Hy as [Hy|Hy%elem_of_singleton]; [exact Hy|congruence].
Qed.

Lemma reads_var X x : x ∈ X -> reads X (var x).
Proof. intros Hx ns1 ns2 Hs. unfold var. destruct (Hs x Hx) as [_ ->]. reflexivity. Qed.

Lemma reads_widget X v : reads X (widget v).
Proof. intros ns1 ns2 _. reflexivity. Qed.

Lemma reads_int X n : reads X (int n).
Proof. intros ns1 ns2 _. reflexivity. Qed.

Lemma reads_float X m k : reads X (float m k).
Proof. intros ns1 ns2 _. reflexivity. Qed.

Lemma reads_binop X op e1 e2 : reads X e1 -> reads X e2 -> reads X (binop op e1 e2).
Proof. intros H1 H2 ns1 ns2 Hs. unfold binop. rewrite (H1 _ _ Hs), (H2 _ _ Hs). reflexivity. Qed.

Lemma reads_call2 X op e1 e2 : reads X e1 -> reads X e2 -> reads X (call2 op e1 e2).
Proof. apply reads_binop. Qed.

Lemma reads_call1 X f e : reads X e -> reads X (call1 f e).
Proof. intros H1 ns1 ns2 Hs. unfold call1. rewrite (H1 _ _ Hs). reflexivity. Qed.

Lemma reads_if_exp X a c b : reads X a -> reads X c -> reads X b -> reads X (if_exp a c b).
Proof.
  intros Ha Hc Hb ns1 ns2 Hs. unfold if_exp.
  rewrite (Ha _ _ Hs), (Hc _ _ Hs), (Hb _ _ Hs). reflexivity.
Qed.

Lemma reads_list_of X es : Forall (reads X) es -> reads X (list_of es).
Proof.
  intros Hes ns1 ns2 Hs. unfold list_of. f_equal.
  induction Hes as [|e es He _ IH]; [reflexivity|].
  cbn. rewrite (He _ _ Hs), IH. reflexivity.
Qed.

Lemma reads_list_comp X body x it :
  reads X it -> reads (X ∪ {[x]}) body -> reads X (list_comp body x it).
Proof.
  intros Hit Hbody ns1 ns2 Hs. unfold list_comp. rewrite (Hit _ _ Hs).
  destruct (it ns2) as [[n|y|vs]|err]; try reflexivity. cbn. f_equal.
  induction vs as [|v vs IH]; [reflexivity|].
  cbn. rewrite IH, (Hbody _ _ (same_on_insert X x v _ _ Hs)). reflexivity.
Qed.

Lemma in_locals_bound X x ns1 ns2 :
  x ∈ X -> same_on X ns1 ns2 -> in_locals x ns1 = Ok (py_bool true).
Proof.
  intros Hx Hs. unfold in_locals. destruct (Hs x Hx) as [Hb _].
  rewrite bool_decide_eq_true_2 by exact Hb. reflexivity.
Qed.

Lemma same_on_sym Y ns1 ns2 : same_on Y ns1 ns2 -> same_on Y ns2 ns1.
Proof. intros Hs x Hx. destruct (Hs x Hx) as [Hb Heq]. rewrite <- Heq. auto. Qed.

Lemma transfers_assign X x e : reads X e -> transfers X (X ∪ {[x]}) (assign x e).
Proof.
  intros He ns1 ns2 Hs. unfold assign. rewrite (He _ _ Hs).
  destruct (e ns2) as [v|err]; cbn; [|reflexivity].
  apply same_on_insert, Hs.
Qed.

Lemma transfers_seq X Y Z st1 st2 :
  transfers X Y st1 -> transfers Y Z st2 -> transfers X Z (sequence st1 st2).
Proof.
  intros H1 H2 ns1 ns2 Hs. unfold sequence. specialize (H1 _ _ Hs).
  destruct (st1 ns1) as [a|e1], (st1 ns2) as [b|e2]; cbn in *; try done.
  apply H2, H1.
Qed.

Lemma transfers_weaken X Y Y' st : Y' ⊆ Y -> transfers X Y st -> transfers X Y' st.
Proof.
  intros Hsub Ht ns1 ns2 Hs. specialize (Ht _ _ Hs).
  destruct (st ns1) as [a|e1], (st ns2) as [b|e2]; cbn in *; try done.
  eapply same_on_subseteq; eassumption.
Qed.

(** [if True: st] *)
Lemma transfers_if_true X Y st :
  transfers X Y st -> transfers X Y (if_then (widget (py_bool true)) st).
Proof. intros Ht ns1 ns2 Hs. apply Ht, Hs. Qed.

(** [if 'x' in locals(): st], where [x] is known to be bound *)
Lemma transfers_if_bound X Y x st :
  x ∈ X -> transfers X Y st -> transfers X Y (if_then (in_locals x) st).
Proof.
  intros Hx Ht ns1 ns2 Hs. unfold if_then.
  rewrite (in_locals_bound X x ns1 ns2 Hx Hs).
  rewrite (in_locals_bound X x ns2 ns1 Hx (same_on_sym _ _ _ Hs)).
  cbn. apply Ht, Hs.
Qed.

End FootprintRules.

Ltac reads_only :=
  lazymatch goal with
  | |- reads _ (var _) => apply reads_var; set_solver
  | |- reads _ (int _) => apply reads_int
  | |- reads _ (float _ _) => apply reads_float
  | |- reads _ (widget _) => apply reads_widget
  | |- reads _ (binop _ _ _) => apply reads_binop; reads_only
  | |- reads _ (call2 _ _ _) => apply reads_call2; reads_only
  | |- reads _ (call1 _ _) => apply reads_call1; reads_only
  | |- reads _ (if_exp _ _ _) => apply reads_if_exp; reads_only
  | |- reads _ (list_comp _ _ _) => apply reads_list_comp; reads_only
  | |- reads _ (list_of _) =>
      apply reads_list_of;
      repeat (apply Forall_cons_2; [reads_only|]); apply Forall_nil_2
  end.

Ltac footprint :=
  lazymatch goal with
  | |- transfers _ _ (sequence _ _) => eapply transfers_seq; [footprint|footprint]
  | |- transfers _ _ (assign _ _) => eapply transfers_assign; reads_only
  | |- transfers _ _ (if_then (widget (py_bool true)) _) =>
      apply transfers_if_true; footprint
  | |- transfers _ _ (if_then (in_locals _) _) =>
      apply transfers_if_bound; [set_solver|footprint]
  end.

Section Determinism.
Context {F : Type} `{PyFloat F}.
Variable s : Session F.

Lemma script_transfers :
  button s = true -> transfers ∅ (input_vars ∪ result_vars) (script s).
Proof.
  intros Hb.
  unfold script, tab1, tab2, widgets, calculation, gauge, roi_timeline,
    monthly_breakdown. rewrite Hb.
  eapply transfers_weaken; [|footprint].
  unfold input_vars, result_vars. set_solver.
Qed.

End Determinism.

(** Looks a variable up in a namespace given as a stack of bindings. *)
Ltac lookup_var :=
  repeat (rewrite lookup_insert_ne by discriminate);
  first [ apply lookup_insert_eq | eassumption ].

(** Evaluates an expression built from variables, constants and operators. *)
Ltac eval_expr :=
  lazymatch goal with
  | |- var _ _ = _ => apply eval_var; lookup_var
  | |- binop _ _ _ _ = _ =>
      eapply eval_binop; [eval_expr | eval_expr | reflexivity]
  | |- call2 _ _ _ _ = _ =>
      eapply eval_binop; [eval_expr | eval_expr | reflexivity]
  | |- call1 _ _ _ = _ => eapply eval_call1; [eval_expr | reflexivity]
  | |- _ => reflexivity
  end.

(** Runs [x ::= e ;; rest] where [e] evaluates to [v]. *)
Ltac run_assign_with v :=
  eapply run_seq; [apply (run_assign _ _ v); eval_expr|].

Section ExactRun.
Import Exact.
Variable s : Session Q.
Implicit Types ns : gmap string (pyval Q).

Lemma Qlt_bool_iff (a b : Q) : Qlt_bool a b = true <-> (a < b)%Q.
Proof. unfold Qlt_bool, Qlt. apply Z.ltb_lt. Qed.

Lemma Qlt_bool_pos_nonzero (a : Q) :
  Qlt_bool (inject_Z 0) a = true -> (Qnum a =? 0) = false.
Proof.
  unfold Qlt_bool. cbn. intros Hlt%Z.ltb_lt. apply Z.eqb_neq. lia.
Qed.

Lemma calculation_run ns :
  ns !! "area" = Some (VInt (area s)) ->
  ns !! "irradiance" = Some (VFloat (irradiance s)) ->
  ns !! "tariff" = Some (VFloat (tariff s)) ->
  ns !! "panel_efficiency" = Some (VInt (panel_efficiency s)) ->
  ns !! "system_losses" = Some (VInt (system_losses s)) ->
  ns !! "installation_cost" = Some (VInt (installation_cost s)) ->
  ns !! "maintenance_cost" = Some (VInt (maintenance_cost s)) ->
  calculation ns =
    Ok (<["co2_reduction" := VFloat (co2_reduction s)]>
       (<["payback" := payback s]>
       (<["net_annual_savings" := VFloat (net_annual_savings s)]>
       (<["total_system_cost" := VFloat (total_system_cost s)]>
       (<["annual_savings" := VFloat (annual_savings s)]>
       (<["annual_output" := VFloat (annual_output s)]>
       (<["performance_ratio" := VFloat (performance_ratio s)]> ns))))))).
Proof.
  intros Har Hir Hta Hpe Hsl Hic Hmc. unfold calculation.
  run_assign_with (VFloat (performance_ratio s)).
  run_assign_with (VFloat (annual_output s)).
  run_assign_with (VFloat (annual_savings s)).
  run_assign_with (VFloat (total_system_cost s)).
  run_assign_with (VFloat (net_annual_savings s)).
  eapply run_seq; [apply (run_assign _ _ (payback s))|apply run_assign; eval_expr].
  eapply eval_if_exp; [eval_expr|]. unfold payback.
  change (fltb (of_int 0) (net_annual_savings s))
    with (Qlt_bool (inject_Z 0) (net_annual_savings s)).
  destruct (Qlt_bool (inject_Z 0) (net_annual_savings s)) eqn:Hnet; cbn [truthy py_bool Z.eqb negb].
  - eapply eval_binop; [eval_expr | eval_expr |]. cbn [py_truediv fis_zero Q_float].
    rewrite (Qlt_bool_pos_nonzero _ Hnet). reflexivity.
  - reflexivity.
Qed.

Lemma truthy_py_bool (b : bool) : truthy (F:=Q) (py_bool b) = b.
Proof. destruct b; reflexivity. Qed.

Lemma gauge_run ns :
  area s <> 0 ->
  ns !! "area" = Some (VInt (area s)) ->
  ns !! "annual_output" = Some (VFloat (annual_output s)) ->
  gauge ns = Ok (<["fig_gauge" := fig_gauge s]> ns).
Proof.
  intros Hne%Z.eqb_neq Har Hao. unfold gauge. apply run_assign.
  eapply eval_binop; [eval_expr| |].
  - eapply (eval_binop _ _ _ (VFloat (annual_output s / inject_Z (area s))%Q));
      [|eval_expr|reflexivity].
    eapply eval_binop; [eval_expr|eval_expr|].
    cbn [py_truediv]. rewrite Hne. reflexivity.
  - unfold py_min, fig_gauge. cbn [py_lt mbind res_bind]. rewrite truthy_py_bool. reflexivity.
Qed.

Lemma roi_timeline_run ns :
  ns !! "payback" = Some (payback s) ->
  ns !! "net_annual_savings" = Some (VFloat (net_annual_savings s)) ->
  ns !! "total_system_cost" = Some (VFloat (total_system_cost s)) ->
  roi_timeline ns =
    Ok (<["cumulative_savings" := VList (VFloat <$> cumulative_savings s)]>
       (<["years" := VList (VInt <$> years s)]> ns)).
Proof.
  intros Hpb Hnet Hcost. unfold roi_timeline.
  eapply run_seq; [apply (run_assign _ _ (VList (VInt <$> years s)))|].
  - eapply (eval_call1 _ _ (VList (VInt <$> years s))); [|reflexivity].
    eapply (eval_binop _ _ _ (VInt 1) (VInt (int_payback s + 5)));
      [eval_expr| |].
    + eapply (eval_binop _ _ _ (VInt (int_payback s))); [|eval_expr|reflexivity].
      eapply eval_call1; [eval_expr|].
      unfold int_payback, payback.
      destruct (Qlt_bool _ _); reflexivity.
    + reflexivity.
  - apply run_assign. unfold cumulative_savings.
    rewrite <- list_fmap_compose.
    eapply eval_list_comp; [eval_expr|].
    apply res_mapM_fmap. intros year. eval_expr.
Qed.

Lemma monthly_breakdown_run ns :
  ns !! "annual_output" = Some (VFloat (annual_output s)) ->
  ns !! "tariff" = Some (VFloat (tariff s)) ->
  monthly_breakdown ns =
    Ok (<["monthly_savings" := VList (VFloat <$> monthly_savings s)]>
       (<["monthly_output" := VList (VFloat <$> monthly_output s)]>
       (<["seasonal_variation" := VList (VFloat <$> seasonal_variation)]> ns))).
Proof.
  intros Hao Hta. unfold monthly_breakdown.
  run_assign_with (VList (VFloat <$> seasonal_variation)).
  eapply run_seq; [apply run_assign|apply run_assign].
  - unfold monthly_output. rewrite <- list_fmap_compose.
    eapply eval_list_comp; [eval_expr|].
    apply res_mapM_fmap. intros var. eval_expr.
  - unfold monthly_savings. rewrite <- list_fmap_compose.
    eapply eval_list_comp; [eval_expr|].
    apply res_mapM_fmap. intros output. eval_expr.
Qed.

Lemma widgets_run ns :
  widgets s ns =
    Ok (<["maintenance_cost" := VInt (maintenance_cost s)]>
       (<["installation_cost" := VInt (installation_cost s)]>
       (<["system_losses" := VInt (system_losses s)]>
       (<["panel_efficiency" := VInt (panel_efficiency s)]>
       (<["tariff" := VFloat (tariff s)]>
       (<["irradiance" := VFloat (irradiance s)]>
       (<["area" := VInt (area s)]> ns))))))).
Proof. reflexivity. Qed.

(** A run with the button pressed succeeds whenever [area] is not zero,
    from any starting namespace, and ends in [final]. *)
Lemma script_run ns0 :
  button s = true -> area s <> 0 -> script s ns0 = Ok (final s ns0).
Proof.
  intros Hb Har. unfold script, tab1, tab2, final.
  eapply run_seq.
  - eapply run_seq; [apply widgets_run|].
    eapply run_if_then; [reflexivity|]. rewrite Hb. cbn [py_bool truthy Z.eqb negb].
    eapply run_seq; [apply calculation_run; lookup_var|].
    eapply run_seq; [apply gauge_run; [exact Har|lookup_var..]|].
    apply roi_timeline_run; lookup_var.
  - eapply run_if_then.
    + unfold in_locals. rewrite bool_decide_eq_true_2; [reflexivity|].
      eexists. lookup_var.
    + cbn [py_bool truthy Z.eqb negb]. apply monthly_breakdown_run; lookup_var.
Qed.

End ExactRun.

(** Puts rational constants in the form the linear-arithmetic tactics read. *)
Ltac qconst :=
  repeat match goal with
  | |- context [inject_Z (Zpos ?p)] =>
      change (inject_Z (Zpos p)) with (Zpos p # 1)
  | |- context [inject_Z Z0] => change (inject_Z Z0) with (0 # 1)
  | H : context [inject_Z (Zpos ?p)] |- _ =>
      change (inject_Z (Zpos p)) with (Zpos p # 1) in H
  | H : context [inject_Z Z0] |- _ => change (inject_Z Z0) with (0 # 1) in H
  end;
  unfold Qdiv in *; cbn [Qinv Qnum Qden] in *.

Section Bounds.
Import Exact.
Local Open Scope Q_scope.

Lemma inject_Z_sub (a b : Z) : inject_Z (a - b) == inject_Z a - inject_Z b.
Proof. unfold Z.sub. rewrite inject_Z_plus, inject_Z_opp. reflexivity. Qed.

Lemma inject_Z_range (a n b : Z) :
  (a <= n <= b)%Z -> inject_Z a <= inject_Z n <= inject_Z b.
Proof. intros [? ?]. split; rewrite <- Zle_Qle; assumption. Qed.

Lemma yield_lower (i l e : Q) :
  3 <= i -> l <= 25 -> 15 <= e -> 9855 / 16 <= yield i l e.
Proof.
  intros Hi Hl He. unfold yield.
  assert (225 <= i * (100 - l)) by nra.
  assert (3375 <= i * (100 - l) * e) by nra.
  assert (i * 365 * ((100 - l) / 100) * (e / 20)
          == i * (100 - l) * e * (73 / 400)) as -> by field.
  set (p := i * (100 - l) * e) in *. clearbody p. qconst. lra.
Qed.

Variable s : Session Q.

Lemma performance_ratio_eq :
  performance_ratio s == (100 - inject_Z (system_losses s)) / 100.
Proof. unfold performance_ratio. rewrite inject_Z_sub. reflexivity. Qed.

Lemma annual_output_eq :
  annual_output s ==
  inject_Z (area s)
  * yield (irradiance s) (inject_Z (system_losses s))
          (inject_Z (panel_efficiency s)).
Proof.
  unfold annual_output, yield. rewrite performance_ratio_eq.
  change (inject_Z 365) with 365. change (inject_Z 20) with 20. ring.
Qed.

Hypothesis Hvalid : valid s.

Lemma yield_valid :
  9855 / 16 <= yield (irradiance s) (inject_Z (system_losses s))
                     (inject_Z (panel_efficiency s)).
Proof.
  destruct Hvalid as [_ [Hi _] _ [He _]%inject_Z_range [_ Hl]%inject_Z_range _ _].
  apply yield_lower; assumption.
Qed.

Lemma annual_output_lower : 49275 / 8 <= annual_output s.
Proof.
  rewrite annual_output_eq. pose proof yield_valid as Hy.
  destruct Hvalid as [[Ha _]%inject_Z_range _ _ _ _ _ _].
  set (a := inject_Z (area s)) in *. set (y := yield _ _ _) in *.
  clearbody a y. qconst. nra.
Qed.

Lemma net_annual_savings_lower : 83825 / 8 <= net_annual_savings s.
Proof.
  unfold net_annual_savings, annual_savings.
  pose proof annual_output_lower as Ho.
  destruct Hvalid as [_ _ [Ht _] _ _ _ [_ Hm]%inject_Z_range].
  set (o := annual_output s) in *. set (m := inject_Z (maintenance_cost s)) in *.
  set (t := tariff s) in *. clearbody o m t. qconst. nra.
Qed.

Lemma net_annual_savings_pos : 0 < net_annual_savings s.
Proof. pose proof net_annual_savings_lower. qconst. lra. Qed.

Lemma payback_valid :
  payback s = VFloat (total_system_cost s / net_annual_savings s).
Proof.
  unfold payback.
  destruct (Qlt_bool _ _) eqn:Hlt; [reflexivity|].
  apply not_true_iff_false in Hlt. rewrite Qlt_bool_iff in Hlt.
  destruct Hlt. apply net_annual_savings_pos.
Qed.

(** The payback period is at least 40000 / (1000 * 15) years. *)
Lemma payback_lower : 8 / 3 <= total_system_cost s / net_annual_savings s.
Proof.
  apply Qle_shift_div_l; [apply net_annual_savings_pos|].
  unfold net_annual_savings, annual_savings, total_system_cost.
  pose proof annual_output_lower as Ho.
  destruct Hvalid as [_ _ [_ Ht] _ _ [Hc _]%inject_Z_range [Hm _]%inject_Z_range].
  set (o := annual_output s) in *. set (m := inject_Z (maintenance_cost s)) in *.
  set (t := tariff s) in *. set (c := inject_Z (installation_cost s)) in *.
  clearbody o m t c. qconst.
  assert (o * t <= o * 15) by nra.
  assert (o * 40000 <= o * c) by nra.
  lra.
Qed.

Lemma fig_gauge_valid : fig_gauge s = VInt 100.
Proof.
  unfold fig_gauge. cbv zeta.
  destruct (Qlt_bool _ _) eqn:Hlt; [|reflexivity].
  apply Qlt_bool_iff in Hlt. exfalso. revert Hlt. apply Qle_not_lt.
  pose proof yield_valid as Hy.
  assert (Ha : ~ inject_Z (area s) == 0).
  { destruct Hvalid as [[Ha _]%inject_Z_range _ _ _ _ _ _]. qconst. lra. }
  rewrite annual_output_eq.
  set (a := inject_Z (area s)) in *. set (y := yield _ _ _) in *. clearbody a y.
  assert (a * y / a * inject_Z 10 == y * 10) as -> by (qconst; field; exact Ha).
  qconst. lra.
Qed.

End Bounds.

(** ** The results of a run, in exact arithmetic *)

Section ExactResults.
Import Exact.
Variable s : Session Q.
Local Open Scope Q_scope.

Lemma estimate_run :
  estimate s =
    Ok (<["co2_reduction" := VFloat (co2_reduction s)]>
       (<["payback" := payback s]>
       (<["net_annual_savings" := VFloat (net_annual_savings s)]>
       (<["total_system_cost" := VFloat (total_system_cost s)]>
       (<["annual_savings" := VFloat (annual_savings s)]>
       (<["annual_output" := VFloat (annual_output s)]>
       (<["performance_ratio" := VFloat (performance_ratio s)]>
       (<["maintenance_cost" := VInt (maintenance_cost s)]>
       (<["installation_cost" := VInt (installation_cost s)]>
       (<["system_losses" := VInt (system_losses s)]>
       (<["panel_efficiency" := VInt (panel_efficiency s)]>
       (<["tariff" := VFloat (tariff s)]>
       (<["irradiance" := VFloat (irradiance s)]>
       (<["area" := VInt (area s)]> ∅)))))))))))))).
Proof.
  unfold estimate. eapply run_seq; [apply widgets_run|].
  apply calculation_run; lookup_var.
Qed.

Lemma run_pressed :
  button s = true -> area s <> 0%Z -> run s = Ok (final s ∅).
Proof. apply script_run. Qed.

Lemma run_valid : valid s -> button s = true -> run s = Ok (final s ∅).
Proof.
  intros Hv Hb. apply run_pressed; [exact Hb|].
  destruct Hv as [Ha _ _ _ _ _ _]. lia.
Qed.

End ExactResults.

(** ** The estimator's properties *)

(** Checks that a concrete session is within the declared ranges. *)
Ltac session_in_range :=
  constructor; cbn; first [lia | split; vm_compute; congruence].

Section Claims.
Import Exact.
Local Open Scope Q_scope.

(** C1.  For every input, valid or not, the calculation block binds
    [performance_ratio] to [(100 - system_losses) / 100] and
    [annual_output] to [area * irradiance * 365 * performance_ratio *
    (panel_efficiency / 20)]. *)
Theorem calculation_formulas (s : Session Q) :
  exists pr ao,
    float_var "performance_ratio" (estimate s) = Some pr /\
    float_var "annual_output" (estimate s) = Some ao /\
    pr == (100 - inject_Z (system_losses s)) / 100 /\
    ao == inject_Z (area s) * irradiance s * 365 * pr
          * (inject_Z (panel_efficiency s) / 20).
Proof.
  exists (performance_ratio s), (annual_output s).
  rewrite estimate_run. split; [reflexivity|]. split; [reflexivity|].
  split; [apply performance_ratio_eq|reflexivity].
Qed.

(** C2.  For every input, valid or not, the calculation block ends
    without an exception, and [payback] is [total_system_cost /
    net_annual_savings] when [net_annual_savings] is positive and the
    integer [0] otherwise. *)
Theorem payback_sentinel (s : Session Q) :
  exists cost net,
    float_var "total_system_cost" (estimate s) = Some cost /\
    float_var "net_annual_savings" (estimate s) = Some net /\
    (0 < net ->
     exists p, value_var "payback" (estimate s) = Some (VFloat p) /\
               p == cost / net) /\
    (net <= 0 -> value_var "payback" (estimate s) = Some (VInt 0)).
Proof.
  exists (total_system_cost s), (net_annual_savings s).
  rewrite estimate_run. split; [reflexivity|]. split; [reflexivity|].
  change (value_var "payback" (Ok _)) with (Some (payback s)).
  unfold payback. split.
  - intros Hnet.
    assert (Qlt_bool (inject_Z 0) (net_annual_savings s) = true) as ->
      by (apply Qlt_bool_iff; exact Hnet).
    eexists. split; reflexivity.
  - intros Hnet. destruct (Qlt_bool _ _) eqn:Hlt; [|reflexivity].
    apply Qlt_bool_iff in Hlt. qconst. lra.
Qed.

(** Both branches of the conditional are taken by some session. *)
Example payback_of_scenario1 :
  exists p : Q,
    value_var "payback" (estimate scenario1) = Some (VFloat p) /\
    p == 22182875 / 2210287.5.
Proof. eexists. split; vm_compute; reflexivity. Qed.

Example payback_of_no_payback :
  value_var "payback" (estimate no_payback) = Some (VInt 0).
Proof. vm_compute. reflexivity. Qed.

(** C9.  For every valid input, a square metre yields at least 10 kWh a
    year, and the gauge shows exactly the integer [100]. *)
Theorem potential_score_saturates (s : Session Q) :
  valid s -> button s = true ->
  exists ao,
    float_var "annual_output" (run s) = Some ao /\
    10 <= ao / inject_Z (area s) /\
    value_var "fig_gauge" (run s) = Some (VInt 100).
Proof.
  intros Hv Hb. exists (annual_output s). rewrite (run_valid s Hv Hb).
  split; [reflexivity|]. split.
  - rewrite annual_output_eq. pose proof (yield_valid s Hv) as Hy.
    assert (Ha : ~ inject_Z (area s) == 0).
    { destruct Hv as [[Ha _]%inject_Z_range _ _ _ _ _ _]. qconst. lra. }
    set (a := inject_Z (area s)) in *. set (y := yield _ _ _) in *. clearbody a y.
    assert (a * y / a == y) as -> by (field; exact Ha).
    qconst. lra.
  - change (value_var "fig_gauge" (Ok _)) with (Some (fig_gauge s)).
    rewrite (fig_gauge_valid s Hv). reflexivity.
Qed.

Lemma potential_score_saturates_witness :
  valid scenario1 /\ button scenario1 = true /\
  value_var (F:=Q) "fig_gauge" (run scenario1) = Some (VInt 100).
Proof.
  assert (Hv : valid scenario1) by session_in_range.
  split; [exact Hv|]. split; [reflexivity|].
  destruct (potential_score_saturates scenario1 Hv eq_refl) as (ao & _ & _ & Hg).
  exact Hg.
Defined.

Lemma yield_pos (i l e : Q) : 3 <= i -> l <= 25 -> 15 <= e -> 0 < yield i l e.
Proof. intros Hi Hl He. pose proof (yield_lower i l e Hi Hl He). qconst. lra. Qed.

Lemma output_increases_intro (s s' : Session Q) :
  annual_output s < annual_output s' -> output_increases s s'.
Proof.
  intros Hlt. exists (annual_output s), (annual_output s').
  rewrite !estimate_run. split; [reflexivity|]. split; [reflexivity|exact Hlt].
Qed.

(** C4, the figures as quoted fail: [annual_savings] is 1,109,143.75,
    which is 500 more than the 1,108,643.75 quoted. *)
Lemma scenario1_annual_savings_differs : ~ scenario1_as_quoted.
Proof.
  intros (pr & ao & sv & cost & net & p & co2 & _ & _ & Hsv & _ & _ & _ & _
          & _ & _ & Hnear & _).
  vm_compute in Hsv. injection Hsv as <-.
  apply Hnear. reflexivity.
Qed.

(** C4, amended.  Scenario 1 yields performance ratio 0.85, annual
    output 170,637.5, annual savings 1,109,143.75, total system cost
    11,091,437.5, net annual savings 1,105,143.75, a payback of 10.04
    years to two decimals, and a CO2 reduction of 139,922.75: exactly so
    in rational arithmetic, and in binary64 too apart from the rounding
    of 0.85 and of the payback quotient. *)
Theorem scenario1_values :
  (exists pr ao sv cost net p co2 : Q,
     float_var "performance_ratio" (estimate scenario1) = Some pr /\
     float_var "annual_output" (estimate scenario1) = Some ao /\
     float_var "annual_savings" (estimate scenario1) = Some sv /\
     float_var "total_system_cost" (estimate scenario1) = Some cost /\
     float_var "net_annual_savings" (estimate scenario1) = Some net /\
     float_var "payback" (estimate scenario1) = Some p /\
     float_var "co2_reduction" (estimate scenario1) = Some co2 /\
     pr == 0.85 /\ ao == 170637.5 /\ sv == 1109143.75 /\
     cost == 11091437.5 /\ net == 1105143.75 /\
     p == cost / net /\ near 0.005 p 10.04 /\ co2 == 139922.75) /\
  (exists pr ao sv cost net p co2 : spec_float,
     float_var "performance_ratio" (estimate scenario1) = Some pr /\
     float_var "annual_output" (estimate scenario1) = Some ao /\
     float_var "annual_savings" (estimate scenario1) = Some sv /\
     float_var "total_system_cost" (estimate scenario1) = Some cost /\
     float_var "net_annual_savings" (estimate scenario1) = Some net /\
     float_var "payback" (estimate scenario1) = Some p /\
     float_var "co2_reduction" (estimate scenario1) = Some co2 /\
     near (1 # 10 ^ 16) (B64.to_Q pr) 0.85 /\
     B64.to_Q ao == 170637.5 /\ B64.to_Q sv == 1109143.75 /\
     B64.to_Q cost == 11091437.5 /\ B64.to_Q net == 1105143.75 /\
     near 0.005 (B64.to_Q p) 10.04 /\ B64.to_Q co2 == 139922.75).
Proof.
  split.
  - do 7 eexists. repeat (split; [vm_compute; reflexivity|]).
    repeat split; vm_compute; congruence.
  - do 7 eexists. repeat (split; [vm_compute; reflexivity|]).
    repeat split; vm_compute; congruence.
Qed.

End Claims.

(** ** Determinism *)

Section DeterminismClaim.
Context {F : Type} `{PyFloat F}.

(** C8.  Two runs on the same session with the button pressed, started
    from any two namespaces, raise the same exception or bind every result
    variable to the same value; this holds for any [float] carrier. *)
Theorem script_deterministic (s : Session F) (ns1 ns2 : gmap string (pyval F)) :
  button s = true ->
  same_outcome result_vars (script s ns1) (script s ns2) /\
  forall x, x ∈ result_vars ->
            value_var x (script s ns1) = value_var x (script s ns2).
Proof.
  intros Hb.
  assert (Hsame : same_outcome result_vars (script s ns1) (script s ns2)).
  { eapply (transfers_weaken ∅ (input_vars ∪ result_vars));
      [|apply script_transfers, Hb|].
    - apply union_subseteq_r.
    - intros x Hx. exfalso. revert Hx. apply not_elem_of_empty. }
  split; [exact Hsame|]. intros x Hx. unfold same_outcome in Hsame.
  destruct (script s ns1) as [a|e1], (script s ns2) as [b|e2];
    cbn [value_var]; [apply Hsame, Hx|destruct Hsame..|reflexivity].
Qed.

End DeterminismClaim.

Lemma script_deterministic_witness :
  button (F:=spec_float) scenario1 = true /\
  value_var "payback" (script scenario1 ∅)
  = value_var "payback"
      (script scenario1 (<["annual_output" := VInt 7]> (∅ : gmap string (pyval spec_float)))).
Proof.
  split; [reflexivity|].
  apply (script_deterministic scenario1); [reflexivity|].
  unfold result_vars. set_solver.
Defined.

(** ** Corner sessions in binary64

    The sessions with the lowest yield and longest payback, and with the
    highest yield and shortest payback, evaluated with IEEE-754
    arithmetic: the gauge, the years and the sign of the last cumulative
    saving come out as in exact arithmetic. *)

Example lowest_yield_binary64 :
  value_var "fig_gauge" (run lowest_yield) = Some (VInt 100) /\
  ints_var "years" (run lowest_yield) = Some (seqZ 1 51) /\
  last_is_positive (run lowest_yield) = true.
Proof. repeat split; vm_compute; reflexivity. Qed.

Example highest_yield_binary64 :
  value_var "fig_gauge" (run highest_yield) = Some (VInt 100) /\
  ints_var "years" (run highest_yield) = Some (seqZ 1 6) /\
  last_is_positive (run highest_yield) = true.
Proof. repeat split; vm_compute; reflexivity. Qed.

(** ** Runs for any [float] carrier *)

Section Raising.
Context {F : Type} `{PyFloat F}.
Implicit Types (ns : gmap string (pyval F)) (e : expr F) (st : stmt F).

Lemma eval_binop_raise_l op e1 e2 err ns :
  e1 ns = Raise err -> binop op e1 e2 ns = Raise err.
Proof. unfold binop. intros ->. reflexivity. Qed.

Lemma eval_binop_raise_r op e1 e2 a err ns :
  e1 ns = Ok a -> e2 ns = Raise err -> binop op e1 e2 ns = Raise err.
Proof. unfold binop. intros -> ->. reflexivity. Qed.

Lemma eval_call1_raise f e err ns : e ns = Raise err -> call1 f e ns = Raise err.
Proof. unfold call1. intros ->. reflexivity. Qed.

Lemma run_assign_raise x e err ns : e ns = Raise err -> assign x e ns = Raise err.
Proof. unfold assign. intros ->. reflexivity. Qed.

Lemma run_seq_raise st1 st2 err ns :
  st1 ns = Raise err -> sequence st1 st2 ns = Raise err.
Proof. unfold sequence. intros ->. reflexivity. Qed.

End Raising.

Section GenericRun.
Import Generic.
Context {F : Type} `{PyFloat F} `{!PyFloatLaws F}.
Variable s : Session F.
Implicit Types ns : gmap string (pyval F).

Lemma truthy_py_bool_any (b : bool) : truthy (F:=F) (py_bool b) = b.
Proof. destruct b; reflexivity. Qed.

Lemma generic_calculation_run ns :
  ns !! "area" = Some (VInt (area s)) ->
  ns !! "irradiance" = Some (VFloat (irradiance s)) ->
  ns !! "tariff" = Some (VFloat (tariff s)) ->
  ns !! "panel_efficiency" = Some (VInt (panel_efficiency s)) ->
  ns !! "system_losses" = Some (VInt (system_losses s)) ->
  ns !! "installation_cost" = Some (VInt (installation_cost s)) ->
  ns !! "maintenance_cost" = Some (VInt (maintenance_cost s)) ->
  calculation ns =
    Ok (<["co2_reduction" := VFloat (co2_reduction s)]>
       (<["payback" := payback s]>
       (<["net_annual_savings" := VFloat (net_annual_savings s)]>
       (<["total_system_cost" := VFloat (total_system_cost s)]>
       (<["annual_savings" := VFloat (annual_savings s)]>
       (<["annual_output" := VFloat (annual_output s)]>
       (<["performance_ratio" := VFloat (performance_ratio s)]> ns))))))).
Proof.
  intros Har Hir Hta Hpe Hsl Hic Hmc. unfold calculation.
  run_assign_with (VFloat (performance_ratio s)).
  run_assign_with (VFloat (annual_output s)).
  run_assign_with (VFloat (annual_savings s)).
  run_assign_with (VFloat (total_system_cost s)).
  run_assign_with (VFloat (net_annual_savings s)).
  eapply run_seq; [apply (run_assign _ _ (payback s))|apply run_assign; eval_expr].
  eapply eval_if_exp; [eval_expr|]. unfold payback.
  rewrite truthy_py_bool_any.
  destruct (fltb (of_int 0) (net_annual_savings s)) eqn:Hnet; [|reflexivity].
  eapply eval_binop; [eval_expr | eval_expr |]. cbn [py_truediv].
  rewrite (positive_nonzero _ Hnet). reflexivity.
Qed.

Lemma generic_estimate_run : estimate s = Ok (calculated s ∅).
Proof.
  unfold estimate. eapply run_seq; [reflexivity|].
  apply generic_calculation_run; lookup_var.
Qed.

Lemma generic_gauge_run ns :
  ns !! "area" = Some (VInt (area s)) ->
  ns !! "annual_output" = Some (VFloat (annual_output s)) ->
  gauge ns =
    if area s =? 0 then Raise ZeroDivisionError
    else Ok (<["fig_gauge" := fig_gauge s]> ns).
Proof.
  intros Har Hao. unfold gauge.
  assert (Hdiv : (var "annual_output" /' var "area")%py ns
                 = if area s =? 0 then Raise ZeroDivisionError
                   else Ok (VFloat (fdiv (annual_output s) (of_int (area s))))).
  { eapply eval_binop; [eval_expr|eval_expr|reflexivity]. }
  destruct (area s =? 0).
  - apply run_assign_raise. eapply eval_binop_raise_r; [reflexivity|].
    apply eval_binop_raise_l. exact Hdiv.
  - apply run_assign. eapply eval_binop; [eval_expr| |].
    + eapply eval_binop; [exact Hdiv|eval_expr|reflexivity].
    + unfold py_min, fig_gauge. cbn [py_lt mbind res_bind].
      rewrite truthy_py_bool_any. reflexivity.
Qed.

Lemma generic_roi_timeline_run ns :
  ns !! "payback" = Some (payback s) ->
  ns !! "net_annual_savings" = Some (VFloat (net_annual_savings s)) ->
  ns !! "total_system_cost" = Some (VFloat (total_system_cost s)) ->
  roi_timeline ns =
    match int_payback s with
    | Ok n =>
        Ok (<["cumulative_savings" := VList (VFloat <$> cumulative_savings s n)]>
           (<["years" := VList (VInt <$> years n)]> ns))
    | Raise e => Raise e
    end.
Proof.
  intros Hpb Hnet Hcost. unfold roi_timeline.
  assert (Hint : call1 py_int (var "payback") ns
                 = match int_payback s with
                   | Ok n => Ok (VInt n)
                   | Raise e => Raise e
                   end).
  { eapply eval_call1; [eval_expr|]. unfold int_payback.
    destruct (payback s) as [n|p|vs]; cbn [py_int]; [reflexivity| |reflexivity].
    destruct (ftrunc p); reflexivity. }
  destruct (int_payback s) as [n|e] eqn:Hn.
  - eapply run_seq; [apply (run_assign _ _ (VList (VInt <$> years n)))|].
    + eapply (eval_call1 _ _ (VList (VInt <$> years n))); [|reflexivity].
      eapply (eval_binop _ _ _ (VInt 1) (VInt (n + 5))); [eval_expr| |reflexivity].
      eapply (eval_binop _ _ _ (VInt n)); [exact Hint|eval_expr|reflexivity].
    + apply run_assign. unfold cumulative_savings.
      rewrite <- list_fmap_compose.
      eapply eval_list_comp; [eval_expr|].
      apply res_mapM_fmap. intros year. eval_expr.
  - apply run_seq_raise, run_assign_raise, eval_call1_raise.
    eapply eval_binop_raise_r; [reflexivity|].
    apply eval_binop_raise_l. exact Hint.
Qed.

Lemma generic_monthly_breakdown_run ns :
  ns !! "annual_output" = Some (VFloat (annual_output s)) ->
  ns !! "tariff" = Some (VFloat (tariff s)) ->
  monthly_breakdown ns =
    Ok (<["monthly_savings" := VList (VFloat <$> monthly_savings s)]>
       (<["monthly_output" := VList (VFloat <$> monthly_output s)]>
       (<["seasonal_variation" := VList (VFloat <$> seasonal_variation)]> ns))).
Proof.
  intros Hao Hta. unfold monthly_breakdown.
  run_assign_with (VList (VFloat <$> @seasonal_variation F _)).
  eapply run_seq; [apply run_assign|apply run_assign].
  - unfold monthly_output. rewrite <- list_fmap_compose.
    eapply eval_list_comp; [eval_expr|].
    apply res_mapM_fmap. intros var. eval_expr.
  - unfold monthly_savings. rewrite <- list_fmap_compose.
    eapply eval_list_comp; [eval_expr|].
    apply res_mapM_fmap. intros output. eval_expr.
Qed.

(** A run with the button pressed, from any namespace. *)
Lemma generic_script_run ns0 : button s = true -> script s ns0 = outcome s ns0.
Proof.
  intros Hb. unfold script, tab1, tab2, outcome.
  set (nsw := <["maintenance_cost" := VInt (maintenance_cost s)]>
              (<["installation_cost" := VInt (installation_cost s)]>
              (<["system_losses" := VInt (system_losses s)]>
              (<["panel_efficiency" := VInt (panel_efficiency s)]>
              (<["tariff" := VFloat (tariff s)]>
              (<["irradiance" := VFloat (irradiance s)]>
              (<["area" := VInt (area s)]> ns0))))))).
  assert (Hw : widgets s ns0 = Ok nsw) by reflexivity.
  assert (Hcalc : calculation nsw = Ok (calculated s ns0)).
  { apply generic_calculation_run; unfold nsw; lookup_var. }
  pose proof (generic_gauge_run (calculated s ns0)) as Hgauge.
  pose proof (generic_roi_timeline_run
                (<["fig_gauge" := fig_gauge s]> (calculated s ns0))) as Hroi.
  destruct (area s =? 0).
  - apply run_seq_raise. eapply run_seq; [exact Hw|].
    eapply run_if_then; [reflexivity|]. rewrite Hb.
    cbn [py_bool truthy Z.eqb negb].
    eapply run_seq; [exact Hcalc|]. apply run_seq_raise.
    apply Hgauge; unfold calculated; lookup_var.
  - destruct (int_payback s) as [n|e].
    + eapply run_seq.
      * eapply run_seq; [exact Hw|].
        eapply run_if_then; [reflexivity|]. rewrite Hb.
        cbn [py_bool truthy Z.eqb negb].
        eapply run_seq; [exact Hcalc|].
        eapply run_seq; [apply Hgauge; unfold calculated; lookup_var|].
        apply Hroi; unfold calculated; lookup_var.
      * eapply run_if_then.
        -- unfold in_locals. rewrite bool_decide_eq_true_2; [reflexivity|].
           eexists. unfold calculated. lookup_var.
        -- cbn [py_bool truthy Z.eqb negb].
           apply generic_monthly_breakdown_run; unfold calculated; lookup_var.
    + apply run_seq_raise. eapply run_seq; [exact Hw|].
      eapply run_if_then; [reflexivity|]. rewrite Hb.
      cbn [py_bool truthy Z.eqb negb].
      eapply run_seq; [exact Hcalc|].
      eapply run_seq; [apply Hgauge; unfold calculated; lookup_var|].
      apply Hroi; unfold calculated; lookup_var.
Qed.

(** A run without the button pressed, from the empty namespace. *)
Lemma generic_idle_run : button s = false -> run s = Ok (idle s).
Proof.
  intros Hb. unfold run, script, tab1, tab2.
  eapply run_seq.
  - eapply run_seq; [reflexivity|].
    eapply run_if_then; [reflexivity|]. rewrite Hb. reflexivity.
  - eapply run_if_then; [reflexivity|].
    rewrite bool_decide_eq_false_2; [reflexivity|].
    intros [v Hv]. revert Hv.
    repeat (rewrite lookup_insert_ne by discriminate).
    rewrite lookup_empty. discriminate.
Qed.

End GenericRun.

#[global] Instance Q_laws : PyFloatLaws Q.
Proof. constructor. exact Qlt_bool_pos_nonzero. Qed.

#[global] Instance binary64_laws : PyFloatLaws spec_float.
Proof.
  constructor. intros x Hx.
  destruct x as [sg|sg| |sg m e]; try reflexivity.
  vm_compute in Hx. discriminate Hx.
Qed.

(** * The binary64 run

    Every operation of the script on a valid session stays among the
    positive normal numbers, where rounding to nearest changes a value by
    at most one part in [2^52]. *)

(** ** Facts about the binary64 operations *)

Lemma digits2_pos_bounds (m : positive) :
  2 ^ (Zpos (digits2_pos m) - 1) <= Zpos m < 2 ^ Zpos (digits2_pos m).
Proof.
  induction m as [m IH|m IH|]; cbn [digits2_pos].
  - rewrite Pos2Z.inj_succ.
    replace (Z.succ (Zpos (digits2_pos m)) - 1) with (Zpos (digits2_pos m) - 1 + 1) by lia.
    rewrite Z.pow_succ_r by lia.
    destruct (Z.eq_dec (Zpos (digits2_pos m)) 1) as [E|E].
    + rewrite E in *. cbn in IH |- *. lia.
    + rewrite Z.pow_add_r by lia. change (2 ^ 1) with 2. lia.
  - rewrite Pos2Z.inj_succ.
    replace (Z.succ (Zpos (digits2_pos m)) - 1) with (Zpos (digits2_pos m) - 1 + 1) by lia.
    rewrite Z.pow_succ_r by lia.
    rewrite Z.pow_add_r by lia. change (2 ^ 1) with 2. lia.
  - cbn. lia.
Qed.

Lemma digits2_pos_unique (m : positive) (k : Z) :
  2 ^ (k - 1) <= Zpos m < 2 ^ k -> Zpos (digits2_pos m) = k.
Proof.
  intros [Hlo Hhi]. pose proof (digits2_pos_bounds m) as [Hl Hh].
  assert (0 < k).
  { destruct (Z_lt_le_dec 0 k); [assumption|].
    assert (2 ^ k <= 1) by (destruct k; [cbn; lia|lia|rewrite Z.pow_neg_r; lia]). lia. }
  destruct (Z.lt_trichotomy (Zpos (digits2_pos m)) k) as [Hc|[Hc|Hc]]; [|exact Hc|].
  - assert (2 ^ Zpos (digits2_pos m) <= 2 ^ (k - 1)) by (apply Z.pow_le_mono_r; lia). lia.
  - assert (2 ^ k <= 2 ^ (Zpos (digits2_pos m) - 1)) by (apply Z.pow_le_mono_r; lia). lia.
Qed.

Lemma shr_1_m (r : shr_record) : 0 <= shr_m r -> shr_m (shr_1 r) = shr_m r / 2.
Proof.
  destruct r as [m r s]. cbn [shr_m]. intros Hm.
  destruct m as [|p|p]; [reflexivity| |lia].
  destruct p as [p|p|]; cbn [shr_1 shr_m].
  - rewrite Pos2Z.inj_xI. apply Z.div_unique with 1; lia.
  - rewrite Pos2Z.inj_xO. apply Z.div_unique with 0; lia.
  - reflexivity.
Qed.

Lemma iter_shr_1_m (p : positive) (r : shr_record) :
  0 <= shr_m r -> shr_m (SpecFloat.iter_pos shr_1 p r) = shr_m r / 2 ^ Zpos p.
Proof.
  revert r. induction p as [p IH|p IH|]; intros r Hr; cbn [SpecFloat.iter_pos].
  - assert (H1 : 0 <= shr_m (shr_1 r)) by (rewrite shr_1_m by lia; apply Z.div_pos; lia).
    assert (H2 : 0 <= shr_m (SpecFloat.iter_pos shr_1 p (shr_1 r)))
      by (rewrite IH by lia; apply Z.div_pos; [lia|apply Z.pow_pos_nonneg; lia]).
    assert (E : 2 ^ Zpos p~1 = 2 * (2 ^ Zpos p * 2 ^ Zpos p)).
    { rewrite <- Z.pow_add_r, <- Z.pow_succ_r by lia. f_equal. lia. }
    rewrite IH, IH, shr_1_m, E by lia.
    rewrite !Z.div_div by (try apply Z.pow_pos_nonneg; lia). reflexivity.
  - assert (H2 : 0 <= shr_m (SpecFloat.iter_pos shr_1 p r))
      by (rewrite IH by lia; apply Z.div_pos; [lia|apply Z.pow_pos_nonneg; lia]).
    assert (E : 2 ^ Zpos p~0 = 2 ^ Zpos p * 2 ^ Zpos p).
    { rewrite <- Z.pow_add_r by lia. f_equal. lia. }
    rewrite IH, IH, E by lia.
    rewrite !Z.div_div by (try apply Z.pow_pos_nonneg; lia). reflexivity.
  - rewrite shr_1_m by lia. reflexivity.
Qed.

Lemma round_nearest_even_cases (m : Z) (l : location) :
  round_nearest_even m l = m \/ round_nearest_even m l = m + 1.
Proof.
  destruct l as [|[| |]]; cbn; auto. destruct (Z.even m); auto.
Qed.

Lemma loc_of_shr_record_of_loc m l :
  loc_of_shr_record (shr_record_of_loc m l) = l.
Proof. destruct l as [|[| |]]; reflexivity. Qed.

Lemma fexp_normal (k : Z) : -1021 <= k -> fexp 53 1024 k = k - 53.
Proof. intros Hk. unfold fexp, emin. lia. Qed.

(** The first shift of [binary_round_aux]: the mantissa is divided by
    [2 ^ (d - 53)]. *)
Lemma shr_fexp_m (m : positive) (e : Z) (l : location) :
  let d := Zpos (digits2_pos m) in
  53 <= d -> -1074 <= d + e - 53 ->
  shr_m (fst (shr_fexp 53 1024 (Zpos m) e l)) = Zpos m / 2 ^ (d - 53) /\
  snd (shr_fexp 53 1024 (Zpos m) e l) = e + (d - 53) /\
  (d = 53 -> loc_of_shr_record (fst (shr_fexp 53 1024 (Zpos m) e l)) = l).
Proof.
  intros d Hd He. unfold shr_fexp. cbn [Zdigits2]. fold d.
  rewrite fexp_normal by lia.
  replace (d + e - 53 - e) with (d - 53) by lia.
  unfold shr. destruct (d - 53) as [|p|p] eqn:Hn; [| |lia].
  - cbn [fst snd]. split; [|split].
    + destruct l as [|[| |]]; cbn; rewrite Z.div_1_r; reflexivity.
    + lia.
    + intros _. apply loc_of_shr_record_of_loc.
  - cbn [fst snd]. split; [|split; [reflexivity|lia]].
    rewrite iter_shr_1_m; destruct l as [|[| |]]; cbn [shr_record_of_loc shr_m]; lia || reflexivity.
Qed.

Lemma div_pow_bounds (m : positive) :
  let d := Zpos (digits2_pos m) in
  53 <= d -> 2 ^ 52 <= Zpos m / 2 ^ (d - 53) < 2 ^ 53.
Proof.
  intros d Hd. pose proof (digits2_pos_bounds m) as [Hlo Hhi]. fold d in Hlo, Hhi.
  assert (Hp : 0 < 2 ^ (d - 53)) by (apply Z.pow_pos_nonneg; lia).
  assert (E1 : 2 ^ (d - 1) = 2 ^ 52 * 2 ^ (d - 53))
    by (rewrite <- Z.pow_add_r by lia; f_equal; lia).
  assert (E2 : 2 ^ d = 2 ^ 53 * 2 ^ (d - 53))
    by (rewrite <- Z.pow_add_r by lia; f_equal; lia).
  split.
  - apply Z.div_le_lower_bound; lia.
  - apply Z.div_lt_upper_bound; lia.
Qed.

(** What [binary_round_aux] returns on a mantissa of at least 53 bits
    within the normal range: a normal float whose mantissa is the
    truncated one or its successor. *)
Lemma round_aux_spec (sx : bool) (m : positive) (e : Z) (l : location) :
  let d := Zpos (digits2_pos m) in
  let q := Zpos m / 2 ^ (d - 53) in
  53 <= d -> -1074 <= d + e - 53 -> d + e <= 1023 ->
  exists m' e',
    binary_round_aux 53 1024 sx (Zpos m) e l = S754_finite sx m' e' /\
    digits2_pos m' = 53%positive /\
    ((e' = e + (d - 53) /\ (Zpos m' = q \/ Zpos m' = q + 1)) \/
     (e' = e + (d - 53) + 1 /\ 2 * Zpos m' = q + 1)) /\
    (l = loc_Exact -> d = 53 -> m' = m /\ e' = e).
Proof.
  intros d q Hd Hlo Hhi. unfold binary_round_aux.
  destruct (shr_fexp_m m e l Hd Hlo) as (Hm1 & He1 & Hl1). fold d in Hm1, He1, Hl1.
  destruct (shr_fexp 53 1024 (Zpos m) e l) as [mrs' e'] eqn:H1.
  cbn [fst snd] in Hm1, He1, Hl1. fold q in Hm1.
  pose proof (div_pow_bounds m Hd) as Hq. fold d q in Hq.
  set (m1 := round_nearest_even (shr_m mrs') (loc_of_shr_record mrs')).
  assert (Hm1' : m1 = q \/ m1 = q + 1)
    by (unfold m1; rewrite <- Hm1; apply round_nearest_even_cases).
  assert (Hexact : l = loc_Exact -> d = 53 -> m1 = Zpos m).
  { intros -> Hd53. unfold m1. rewrite (Hl1 Hd53). cbn.
    rewrite Hm1. unfold q. rewrite Hd53. cbn. apply Z.div_1_r. }
  assert (Hpos : 2 ^ 52 <= m1 <= 2 ^ 53) by lia.
  destruct m1 as [|p1|p1] eqn:Hp1; [cbn in Hpos; lia| |lia].
  destruct (Z.eq_dec (Zpos p1) (2 ^ 53)) as [Hcarry|Hnc].
  - assert (Hd1 : Zpos (digits2_pos p1) = 54)
      by (apply digits2_pos_unique; rewrite Hcarry; cbn; lia).
    destruct (shr_fexp_m p1 e' loc_Exact) as (Hm2 & He2 & _);
      [lia|lia|].
    destruct (shr_fexp 53 1024 (Zpos p1) e' loc_Exact) as [mrs'' e''] eqn:H2.
    cbn [fst snd] in Hm2, He2. rewrite Hd1 in Hm2, He2.
    rewrite Hcarry in Hm2. change (2 ^ 53 / 2 ^ (54 - 53)) with (2 ^ 52) in Hm2.
    rewrite Hm2. cbn [Z.pow Z.pow_pos Pos.iter Z.mul Pos.mul].
    assert (Hle : (e'' <=? 1024 - 53) = true) by (apply Z.leb_le; lia).
    rewrite Hle. eexists _, e''. split; [reflexivity|]. split; [reflexivity|].
    split.
    + right. split; [lia|]. cbn in Hcarry |- *. lia.
    + intros Hl Hd53. specialize (Hexact Hl Hd53).
      pose proof (digits2_pos_bounds m) as Hb. fold d in Hb. rewrite Hd53 in Hb. lia.
  - assert (Hd1 : Zpos (digits2_pos p1) = 53)
      by (apply digits2_pos_unique; change (53 - 1) with 52; lia).
    destruct (shr_fexp_m p1 e' loc_Exact) as (Hm2 & He2 & _);
      [lia|lia|].
    destruct (shr_fexp 53 1024 (Zpos p1) e' loc_Exact) as [mrs'' e''] eqn:H2.
    cbn [fst snd] in Hm2, He2. rewrite Hd1 in Hm2, He2.
    change (2 ^ (53 - 53)) with 1 in Hm2. rewrite Z.div_1_r in Hm2.
    rewrite Hm2.
    assert (Hle : (e'' <=? 1024 - 53) = true) by (apply Z.leb_le; lia).
    rewrite Hle. exists p1, e''. split; [reflexivity|].
    split; [lia|]. split.
    + left. split; [lia|]. lia.
    + intros Hl Hd53. specialize (Hexact Hl Hd53). split; [congruence|lia].
Qed.

Local Open Scope Q_scope.


Lemma pow2_pos (e : Z) : 0 < 2 ^ e.
Proof. apply Qpower_0_lt. reflexivity. Qed.

Lemma pow2_add (a b : Z) : 2 ^ (a + b) == 2 ^ a * 2 ^ b.
Proof. apply Qpower_plus. discriminate. Qed.

Lemma pow2_inject (n : Z) : (0 <= n)%Z -> inject_Z (2 ^ n) == 2 ^ n.
Proof. intros Hn. rewrite Zpower_Qpower by exact Hn. reflexivity. Qed.

Lemma to_Q_finite (sg : bool) (m : positive) (e : Z) :
  B64.to_Q (S754_finite sg m e) == inject_Z (cond_Zopp sg (Zpos m)) * 2 ^ e.
Proof.
  unfold B64.to_Q. apply Qmult_comp; [reflexivity|].
  destruct e as [|p|p].
  - reflexivity.
  - apply pow2_inject. lia.
  - change (2 ^ Zneg p) with (/ 2 ^ Zpos p). rewrite pow2_inject by lia. reflexivity.
Qed.

(** A value one unit of the last place away from [X] is within a
    relative [ulp52] of it. *)
Lemma one_ulp_relative (q w X V : Q) :
  4503599627370496 <= q -> 0 < w ->
  q * w <= X <= (q + 1) * w ->
  (V == q * w \/ V == (q + 1) * w) ->
  X * (1 - ulp52) <= V <= X * (1 + ulp52).
Proof.
  intros Hq Hw [Hlo Hhi] HV. unfold ulp52.
  assert (Hbig : 4503599627370496 * w <= q * w) by nra.
  assert (E : (q + 1) * w == q * w + w) by ring.
  rewrite E in Hhi, HV. clear E.
  set (a := q * w) in *. clearbody a.
  destruct HV as [-> | ->]; split; lra.
Qed.

Lemma round_aux_value (sx : bool) (m : positive) (e : Z) (l : location) (X : Q) :
  let d := Zpos (digits2_pos m) in
  let q := (Zpos m / 2 ^ (d - 53))%Z in
  (53 <= d)%Z -> (-1074 <= d + e - 53)%Z -> (d + e <= 1023)%Z ->
  inject_Z q * 2 ^ (e + (d - 53)) <= X <= (inject_Z q + 1) * 2 ^ (e + (d - 53)) ->
  exists m' e',
    binary_round_aux 53 1024 sx (Zpos m) e l = S754_finite sx m' e' /\
    digits2_pos m' = 53%positive /\
    X * (1 - ulp52) <= inject_Z (Zpos m') * 2 ^ e' <= X * (1 + ulp52).
Proof.
  intros d q Hd Hlo Hhi HX.
  destruct (round_aux_spec sx m e l Hd Hlo Hhi) as (m' & e' & Heq & Hdig & Hcases & _).
  fold d in Hcases. fold q in Hcases.
  exists m', e'. split; [exact Heq|]. split; [exact Hdig|].
  pose proof (div_pow_bounds m Hd) as Hq. fold d in Hq. fold q in Hq. cbv zeta in Hq.
  apply (one_ulp_relative (inject_Z q) (2 ^ (e + (d - 53)))).
  - change 4503599627370496 with (inject_Z (2 ^ 52)). rewrite <- Zle_Qle. lia.
  - apply pow2_pos.
  - exact HX.
  - destruct Hcases as [[-> [-> | ->]] | [-> H2]].
    + left. reflexivity.
    + right. rewrite inject_Z_plus. reflexivity.
    + right.
      assert (Hq1 : inject_Z q + 1 == inject_Z (Zpos m') * 2).
      { change 2 with (inject_Z 2). change 1 with (inject_Z 1).
        rewrite <- inject_Z_plus, <- inject_Z_mult. apply inject_Z_injective. lia. }
      rewrite Hq1, pow2_add. change (2 ^ 1) with 2. ring.
Qed.

Lemma digits53_bounds (m : positive) :
  digits2_pos m = 53%positive -> (2 ^ 52 <= Zpos m < 2 ^ 53)%Z.
Proof.
  intros Hd. pose proof (digits2_pos_bounds m) as Hb. rewrite Hd in Hb.
  exact Hb.
Qed.

Lemma digits_between (m : positive) (a b : Z) :
  (0 <= a)%Z -> (2 ^ a <= Zpos m < 2 ^ b)%Z ->
  (a < Zpos (digits2_pos m) <= b)%Z.
Proof.
  intros Ha [Hlo Hhi]. pose proof (digits2_pos_bounds m) as [Hl Hh].
  split.
  - apply (Z.pow_lt_mono_r_iff 2); lia.
  - assert (Zpos (digits2_pos m) - 1 < b)%Z; [|lia].
    apply (Z.pow_lt_mono_r_iff 2); try lia.
    destruct (Z.le_gt_cases 0 b) as [Hb|Hb]; [exact Hb|].
    rewrite (Z.pow_neg_r 2 b) in Hhi by lia. lia.
Qed.

(** The truncated mantissa brackets the exact value. *)
Lemma truncation_brackets (m : positive) (e : Z) :
  let d := Zpos (digits2_pos m) in
  let q := (Zpos m / 2 ^ (d - 53))%Z in
  (53 <= d)%Z ->
  inject_Z q * 2 ^ (e + (d - 53)) <= inject_Z (Zpos m) * 2 ^ e
    <= (inject_Z q + 1) * 2 ^ (e + (d - 53)).
Proof.
  intros d q Hd.
  assert (Hp : (0 < 2 ^ (d - 53))%Z) by (apply Z.pow_pos_nonneg; lia).
  pose proof (Z.div_mod (Zpos m) (2 ^ (d - 53)) ltac:(lia)) as Hdm.
  pose proof (Z.mod_pos_bound (Zpos m) (2 ^ (d - 53)) Hp) as Hmod.
  fold q in Hdm.
  rewrite pow2_add, <- (pow2_inject (d - 53)) by lia.
  pose proof (pow2_pos e) as He.
  set (w := 2 ^ e) in *. clearbody w.
  assert (H1 : inject_Z q * inject_Z (2 ^ (d - 53)) <= inject_Z (Zpos m)).
  { rewrite <- inject_Z_mult, <- Zle_Qle. lia. }
  assert (H2 : inject_Z (Zpos m) <= (inject_Z q + 1) * inject_Z (2 ^ (d - 53))).
  { change 1 with (inject_Z 1).
    rewrite <- inject_Z_plus, <- inject_Z_mult, <- Zle_Qle. lia. }
  set (a := inject_Z q) in *. set (b := inject_Z (2 ^ (d - 53))) in *.
  set (c := inject_Z (Zpos m)) in *. clearbody a b c.
  split; nra.
Qed.

Lemma mul_spec (mx my : positive) (ex ey : Z) :
  digits2_pos mx = 53%positive -> digits2_pos my = 53%positive ->
  (-1000 <= ex + ey <= 900)%Z ->
  exists m' e',
    SFmul 53 1024 (S754_finite false mx ex) (S754_finite false my ey)
      = S754_finite false m' e' /\
    digits2_pos m' = 53%positive /\
    let X := (inject_Z (Zpos mx) * 2 ^ ex) * (inject_Z (Zpos my) * 2 ^ ey) in
    X * (1 - ulp52) <= inject_Z (Zpos m') * 2 ^ e' <= X * (1 + ulp52).
Proof.
  intros Hx Hy He.
  apply digits53_bounds in Hx, Hy.
  assert (Hm : (2 ^ 104 <= Zpos (mx * my) < 2 ^ 106)%Z).
  { change (2 ^ 104)%Z with (2 ^ 52 * 2 ^ 52)%Z.
    change (2 ^ 106)%Z with (2 ^ 53 * 2 ^ 53)%Z.
    rewrite Pos2Z.inj_mul. split; nia. }
  apply digits_between in Hm; [|lia].
  unfold SFmul. cbn [xorb].
  destruct (round_aux_value false (mx * my) (ex + ey) loc_Exact
              (inject_Z (Zpos (mx * my)) * 2 ^ (ex + ey)))
    as (m' & e' & Heq & Hdig & HV); try lia.
  - apply truncation_brackets. lia.
  - exists m', e'. split; [exact Heq|]. split; [exact Hdig|].
    cbv zeta.
    assert (E : inject_Z (Zpos mx) * 2 ^ ex * (inject_Z (Zpos my) * 2 ^ ey)
                == inject_Z (Zpos (mx * my)) * 2 ^ (ex + ey)).
    { rewrite Pos2Z.inj_mul, inject_Z_mult, pow2_add. ring. }
    rewrite E. exact HV.
Qed.

(** The same brackets for any exact value between [m] and [m + 1]. *)
Lemma truncation_brackets_between (m : positive) (e : Z) (Y : Q) :
  let d := Zpos (digits2_pos m) in
  let q := (Zpos m / 2 ^ (d - 53))%Z in
  (53 <= d)%Z ->
  inject_Z (Zpos m) <= Y <= inject_Z (Zpos m) + 1 ->
  inject_Z q * 2 ^ (e + (d - 53)) <= Y * 2 ^ e
    <= (inject_Z q + 1) * 2 ^ (e + (d - 53)).
Proof.
  intros d q Hd HY.
  assert (Hp : (0 < 2 ^ (d - 53))%Z) by (apply Z.pow_pos_nonneg; lia).
  pose proof (Z.div_mod (Zpos m) (2 ^ (d - 53)) ltac:(lia)) as Hdm.
  pose proof (Z.mod_pos_bound (Zpos m) (2 ^ (d - 53)) Hp) as Hmod.
  fold q in Hdm.
  rewrite pow2_add, <- (pow2_inject (d - 53)) by lia.
  pose proof (pow2_pos e) as He.
  set (w := 2 ^ e) in *. clearbody w.
  assert (H1 : inject_Z q * inject_Z (2 ^ (d - 53)) <= inject_Z (Zpos m)).
  { rewrite <- inject_Z_mult, <- Zle_Qle. lia. }
  assert (H2 : inject_Z (Zpos m) + 1 <= (inject_Z q + 1) * inject_Z (2 ^ (d - 53))).
  { change 1 with (inject_Z 1).
    rewrite <- !inject_Z_plus, <- inject_Z_mult, <- Zle_Qle. lia. }
  set (a := inject_Z q) in *. set (b := inject_Z (2 ^ (d - 53))) in *.
  set (c := inject_Z (Zpos m)) in *. clearbody a b c.
  split; nra.
Qed.

Lemma div_spec (mx my : positive) (ex ey : Z) :
  digits2_pos mx = 53%positive -> digits2_pos my = 53%positive ->
  (-900 <= ex - ey <= 900)%Z ->
  exists m' e',
    SFdiv 53 1024 (S754_finite false mx ex) (S754_finite false my ey)
      = S754_finite false m' e' /\
    digits2_pos m' = 53%positive /\
    let X := (inject_Z (Zpos mx) * 2 ^ ex) / (inject_Z (Zpos my) * 2 ^ ey) in
    X * (1 - ulp52) <= inject_Z (Zpos m') * 2 ^ e' <= X * (1 + ulp52).
Proof.
  intros Hx Hy He.
  unfold SFdiv, SFdiv_core_binary. cbn [Zdigits2 xorb]. rewrite Hx, Hy.
  replace (53 + ex - (53 + ey))%Z with (ex - ey)%Z by lia.
  rewrite fexp_normal by lia.
  rewrite Z.min_l by lia.
  replace (ex - ey - (ex - ey - 53))%Z with 53%Z by lia.
  rewrite Z.shiftl_mul_pow2 by lia.
  apply digits53_bounds in Hx, Hy.
  pose proof (Z_div_mod (Zpos mx * 2 ^ 53) (Zpos my) ltac:(lia)) as Hdiv.
  destruct (Z.div_eucl (Zpos mx * 2 ^ 53) (Zpos my)) as [q r].
  destruct Hdiv as [Hqr Hr].
  assert (Hq : (2 ^ 52 <= q < 2 ^ 54)%Z).
  { change (2 ^ 54)%Z with (2 * 2 ^ 53)%Z in *.
    change (2 ^ 53)%Z with (2 * 2 ^ 52)%Z in *.
    set (P := (2 ^ 52)%Z) in *. assert (0 < P)%Z by (unfold P; lia).
    clearbody P. split; nia. }
  destruct q as [|qp|qp]; try lia.
  assert (Hdq : (52 < Zpos (digits2_pos qp) <= 54)%Z)
    by (apply digits_between; lia).
  destruct (round_aux_value false qp (ex - ey - 53) (new_location (Zpos my) r)
              ((inject_Z (Zpos mx) * 2 ^ ex) / (inject_Z (Zpos my) * 2 ^ ey)))
    as (m' & e' & Heq & Hdig & HV); try lia.
  - assert (E : inject_Z (Zpos mx) * 2 ^ ex / (inject_Z (Zpos my) * 2 ^ ey)
                == (inject_Z (Zpos mx * 2 ^ 53) / inject_Z (Zpos my)) * 2 ^ (ex - ey - 53)).
    { replace ex with ((ex - ey - 53) + 53 + ey)%Z at 1 by lia.
      rewrite !pow2_add, inject_Z_mult. rewrite (pow2_inject 53) by lia.
      pose proof (pow2_pos ey). 
      field. split; [|lra].
      intros Hc. unfold Qeq in Hc. cbn in Hc. lia. }
    rewrite E. apply truncation_brackets_between; [lia|].
    assert (Hmy : 0 < inject_Z (Zpos my))
      by (change 0 with (inject_Z 0); rewrite <- Zlt_Qlt; lia).
    rewrite Hqr. rewrite inject_Z_plus, inject_Z_mult.
    assert (Hr1 : 0 <= inject_Z r) by (change 0 with (inject_Z 0); rewrite <- Zle_Qle; lia).
    assert (Hr2 : inject_Z r <= inject_Z (Zpos my)) by (rewrite <- Zle_Qle; lia).
    set (a := inject_Z (Zpos my)) in *. set (b := inject_Z (Zpos qp)) in *.
    set (c := inject_Z r) in *. clearbody a b c.
    split.
    + apply Qle_shift_div_l; [exact Hmy|]. nra.
    + apply Qle_shift_div_r; [exact Hmy|]. nra.
  - exists m', e'. split; [exact Heq|]. split; [exact Hdig|]. exact HV.
Qed.

Local Open Scope Z_scope.

Lemma iter_xO_value (m k : positive) :
  Zpos (Pos.iter xO m k) = Zpos m * 2 ^ Zpos k.
Proof.
  change (Pos.iter xO m k) with (shift_pos k m).
  rewrite shift_pos_correct.
  change (Zpower_pos 2 k) with (2 ^ Zpos k). lia.
Qed.

(** [binary_round] on at most 53 bits is exact: the mantissa is shifted
    left to 53 bits. *)
Lemma binary_round_exact (sx : bool) (m : positive) (e : Z) :
  let d := Zpos (digits2_pos m) in
  d <= 53 -> -1074 <= d + e - 53 -> d + e <= 1023 ->
  exists m',
    binary_round 53 1024 sx m e = S754_finite sx m' (e - (53 - d)) /\
    digits2_pos m' = 53%positive /\
    Zpos m' = Zpos m * 2 ^ (53 - d).
Proof.
  intros d Hd Hlo Hhi. unfold binary_round.
  fold d. rewrite fexp_normal by lia. unfold shl_align.
  pose proof (digits2_pos_bounds m) as Hb. fold d in Hb.
  destruct (d + e - 53 - e) as [|k|k] eqn:Hk.
  - assert (Hd53 : d = 53) by lia.
    destruct (round_aux_spec sx m e loc_Exact) as (m' & e' & Heq & Hdig & _ & Hex);
      fold d; try lia.
    destruct (Hex eq_refl Hd53) as [-> ->].
    exists m. rewrite Heq, Hd53. split; [f_equal; lia|]. split; [exact Hdig|].
    change (2 ^ (53 - 53)) with 1. lia.
  - lia.
  - assert (Hkd : Zpos k = 53 - d) by lia.
    set (mz := Pos.iter xO m k).
    assert (Hmz : Zpos mz = Zpos m * 2 ^ (53 - d))
      by (unfold mz; rewrite iter_xO_value, Hkd; reflexivity).
    assert (Hdz : Zpos (digits2_pos mz) = 53).
    { apply digits2_pos_unique. rewrite Hmz.
      assert (E1 : 2 ^ (53 - 1) = 2 ^ (d - 1) * 2 ^ (53 - d))
        by (rewrite <- Z.pow_add_r by lia; f_equal; lia).
      assert (E2 : 2 ^ 53 = 2 ^ d * 2 ^ (53 - d))
        by (rewrite <- Z.pow_add_r by lia; f_equal; lia).
      rewrite E1, E2.
      assert (0 < 2 ^ (53 - d)) by (apply Z.pow_pos_nonneg; lia).
      split; nia. }
    destruct (round_aux_spec sx mz (d + e - 53) loc_Exact) as (m' & e' & Heq & Hdig & _ & Hex);
      rewrite ?Hdz; try lia.
    destruct (Hex eq_refl Hdz) as [-> ->].
    exists mz. rewrite Heq. split; [f_equal; lia|]. split; [exact Hdig|]. exact Hmz.
Qed.


Lemma of_Z_exact (n : Z) :
  1 <= n < 2 ^ 53 ->
  positive_normal (B64.of_Z n) /\ (B64.to_Q (B64.of_Z n) == inject_Z n)%Q.
Proof.
  intros Hn. unfold B64.of_Z, B64.prec, B64.emax, binary_normalize.
  destruct n as [|p|p]; try lia.
  assert (Hd : 0 < Zpos (digits2_pos p) <= 53).
  { split; [lia|]. apply digits_between with (a := 0); lia. }
  destruct (binary_round_exact false p 0) as (m' & Heq & Hdig & Hm); try lia.
  rewrite Heq. split.
  - cbn. split; [exact Hdig|lia].
  - rewrite to_Q_finite. cbn [cond_Zopp]. rewrite Hm, inject_Z_mult.
    rewrite pow2_inject by lia. rewrite <- Qmult_assoc, <- pow2_add.
    replace (53 - Zpos (digits2_pos p) + (0 - (53 - Zpos (digits2_pos p)))) with 0 by lia.
    change (2 ^ 0)%Q with 1%Q. ring.
Qed.

Local Open Scope Q_scope.


Lemma inject_Z_pos_lt (p : positive) : 0 < inject_Z (Zpos p).
Proof. change 0 with (inject_Z 0). rewrite <- Zlt_Qlt. lia. Qed.

Lemma exponent_moderate (m : positive) (e : Z) (X : Q) :
  digits2_pos m = 53%positive -> moderate X ->
  X * (1 - ulp52) <= inject_Z (Zpos m) * 2 ^ e <= X * (1 + ulp52) ->
  (-200 <= e <= 200)%Z.
Proof.
  intros Hd [Hlo Hhi] [HVlo HVhi]. apply digits53_bounds in Hd.
  assert (Hm1 : 4503599627370496 <= inject_Z (Zpos m)).
  { change 4503599627370496 with (inject_Z (2 ^ 52)). rewrite <- Zle_Qle. lia. }
  assert (Hm2 : inject_Z (Zpos m) <= 9007199254740992).
  { change 9007199254740992 with (inject_Z (2 ^ 53)). rewrite <- Zle_Qle. lia. }
  pose proof (pow2_pos e) as Hw.
  unfold ulp52 in *.
  set (M := inject_Z (Zpos m)) in *. clearbody M.
  split.
  - destruct (Z.le_gt_cases (-200) e) as [H|H]; [exact H|exfalso].
    assert (Hp : 2 ^ e <= 2 ^ (-200)) by (apply Qpower_le_compat_l; [lia|lra]).
    assert (E : 2 ^ (-200) == 1 # (2 ^ 200)) by reflexivity.
    rewrite E in Hp. clear E.
    set (w := 2 ^ e) in *. clearbody w.
    assert (M * w <= 9007199254740992 * w) by nra.
    assert ((1 # 36893488147419103232) <= M * w) by nra.
    assert (9007199254740992 * w <= 9007199254740992 * (1 # 2 ^ 200)) by lra.
    assert (9007199254740992 * (1 # 2 ^ 200) < (1 # 36893488147419103232)) by reflexivity.
    lra.
  - destruct (Z.le_gt_cases e 200) as [H|H]; [exact H|exfalso].
    assert (Hp : 2 ^ 200 <= 2 ^ e) by (apply Qpower_le_compat_l; [lia|lra]).
    assert (E : 2 ^ 200 == inject_Z (2 ^ 200)) by reflexivity.
    rewrite E in Hp. clear E.
    set (w := 2 ^ e) in *. clearbody w.
    assert (4503599627370496 * w <= M * w) by nra.
    assert (M * w <= 36893488147419103232) by nra.
    assert (4503599627370496 * inject_Z (2 ^ 200) <= 4503599627370496 * w) by lra.
    assert (36893488147419103232 < 4503599627370496 * inject_Z (2 ^ 200)) by reflexivity.
    lra.
Qed.

Lemma positive_normal_inv (x : spec_float) :
  positive_normal x ->
  exists m e, x = S754_finite false m e /\ digits2_pos m = 53%positive /\
              (-200 <= e <= 200)%Z.
Proof.
  destruct x as [ | | |[|] m e]; cbn; try contradiction.
  intros [Hd He]. exists m, e. auto.
Qed.

Lemma positive_normal_pos (x : spec_float) : positive_normal x -> 0 < B64.to_Q x.
Proof.
  intros (m & e & -> & _ & _)%positive_normal_inv.
  rewrite to_Q_finite. cbn [cond_Zopp].
  pose proof (inject_Z_pos_lt m). pose proof (pow2_pos e). nra.
Qed.

Lemma fmul_rounds (x y : spec_float) :
  positive_normal x -> positive_normal y ->
  moderate (B64.to_Q x * B64.to_Q y) ->
  rounds (B64.to_Q x * B64.to_Q y) (SFmul 53 1024 x y).
Proof.
  intros (mx & ex & -> & Hdx & Hex)%positive_normal_inv
         (my & ey & -> & Hdy & Hey)%positive_normal_inv Hmod.
  destruct (mul_spec mx my ex ey Hdx Hdy) as (m' & e' & Heq & Hdig & HV); [lia|].
  cbv zeta in HV. rewrite Heq.
  unfold rounds, moderate in *.
  rewrite !to_Q_finite in Hmod. rewrite !to_Q_finite. cbn [cond_Zopp] in *.
  split; [|exact HV].
  cbn. split; [exact Hdig|]. exact (exponent_moderate _ _ _ Hdig Hmod HV).
Qed.

Lemma fdiv_rounds (x y : spec_float) :
  positive_normal x -> positive_normal y ->
  moderate (B64.to_Q x / B64.to_Q y) ->
  rounds (B64.to_Q x / B64.to_Q y) (SFdiv 53 1024 x y).
Proof.
  intros (mx & ex & -> & Hdx & Hex)%positive_normal_inv
         (my & ey & -> & Hdy & Hey)%positive_normal_inv Hmod.
  destruct (div_spec mx my ex ey Hdx Hdy) as (m' & e' & Heq & Hdig & HV); [lia|].
  cbv zeta in HV. rewrite Heq.
  unfold rounds, moderate in *.
  rewrite !to_Q_finite in Hmod. rewrite !to_Q_finite. cbn [cond_Zopp] in *.
  split; [|exact HV].
  cbn. split; [exact Hdig|]. exact (exponent_moderate _ _ _ Hdig Hmod HV).
Qed.

Lemma binary_round_value (sx : bool) (m : positive) (e : Z) :
  let d := Zpos (digits2_pos m) in
  (-1074 <= d + e - 53)%Z -> (d + e <= 1023)%Z ->
  exists m' e',
    binary_round 53 1024 sx m e = S754_finite sx m' e' /\
    digits2_pos m' = 53%positive /\
    let X := inject_Z (Zpos m) * 2 ^ e in
    X * (1 - ulp52) <= inject_Z (Zpos m') * 2 ^ e' <= X * (1 + ulp52).
Proof.
  intros d Hlo Hhi. cbv zeta.
  destruct (Z.le_gt_cases d 53) as [Hd|Hd].
  - destruct (binary_round_exact sx m e Hd Hlo Hhi) as (m' & Heq & Hdig & Hm).
    fold d in Heq, Hm.
    exists m', (e - (53 - d))%Z. split; [exact Heq|]. split; [exact Hdig|].
    assert (E : inject_Z (Zpos m') * 2 ^ (e - (53 - d)) == inject_Z (Zpos m) * 2 ^ e).
    { rewrite Hm, inject_Z_mult, pow2_inject by lia.
      rewrite <- Qmult_assoc, <- pow2_add.
      replace (53 - d + (e - (53 - d)))%Z with e by lia. reflexivity. }
    rewrite E.
    pose proof (inject_Z_pos_lt m). pose proof (pow2_pos e).
    assert (0 < inject_Z (Zpos m) * 2 ^ e) by nra.
    unfold ulp52. set (X := inject_Z (Zpos m) * 2 ^ e) in *. clearbody X.
    split; lra.
  - unfold binary_round. fold d. rewrite fexp_normal by lia. unfold shl_align.
    destruct (d + e - 53 - e)%Z as [|k|k] eqn:Hk; try lia.
    destruct (round_aux_value sx m e loc_Exact (inject_Z (Zpos m) * 2 ^ e))
      as (m' & e' & Heq & Hdig & HV); fold d; try lia.
    + apply truncation_brackets. fold d. lia.
    + exists m', e'. auto.
Qed.

Lemma shl_align_value (m : positive) (e e' : Z) :
  (e' <= e)%Z -> Zpos (fst (shl_align m e e')) = (Zpos m * 2 ^ (e - e'))%Z.
Proof.
  intros He. unfold shl_align.
  destruct (e' - e)%Z as [|k|k] eqn:Hk; try lia; cbn [fst].
  - replace (e - e')%Z with 0%Z by lia. change (2 ^ 0)%Z with 1%Z. lia.
  - rewrite iter_xO_value. f_equal. f_equal. lia.
Qed.

(** Subtraction of two positive normal numbers: the integer difference of
    the aligned mantissas is rounded once; its sign is the sign of the
    exact difference. *)
Lemma fsub_spec (x y : spec_float) :
  positive_normal x -> positive_normal y ->
  let X := B64.to_Q x - B64.to_Q y in
  let r := SFsub 53 1024 x y in
  (X == 0 /\ r = S754_zero false) \/
  (0 < X /\ exists m e, r = S754_finite false m e /\
                        digits2_pos m = 53%positive /\
                        X * (1 - ulp52) <= B64.to_Q r <= X * (1 + ulp52)) \/
  (X < 0 /\ exists m e, r = S754_finite true m e /\
                        digits2_pos m = 53%positive /\
                        X * (1 + ulp52) <= B64.to_Q r <= X * (1 - ulp52)).
Proof.
  intros (mx & ex & -> & Hdx & Hex)%positive_normal_inv
         (my & ey & -> & Hdy & Hey)%positive_normal_inv.
  cbv zeta.
  set (X := B64.to_Q (S754_finite false mx ex) - B64.to_Q (S754_finite false my ey)).
  unfold SFsub. cbn [cond_Zopp].
  set (ez := Z.min ex ey).
  rewrite !shl_align_value by (unfold ez; lia).
  set (D := (Zpos mx * 2 ^ (ex - ez) - Zpos my * 2 ^ (ey - ez))%Z).
  assert (HX : X == inject_Z D * 2 ^ ez).
  { unfold X. rewrite !to_Q_finite. cbn [cond_Zopp]. unfold D.
    unfold Z.sub at 1. rewrite inject_Z_plus, inject_Z_opp, !inject_Z_mult.
    rewrite !pow2_inject by (unfold ez; lia).
    replace ex with ((ex - ez) + ez)%Z at 1 by lia.
    replace ey with ((ey - ez) + ez)%Z at 1 by lia.
    rewrite !pow2_add. ring. }
  apply digits53_bounds in Hdx, Hdy.
  assert (Hp1 : (0 < 2 ^ (ex - ez) <= 2 ^ 400)%Z).
  { split; [apply Z.pow_pos_nonneg; unfold ez; lia|].
    apply Z.pow_le_mono_r; unfold ez; lia. }
  assert (Hp2 : (0 < 2 ^ (ey - ez) <= 2 ^ 400)%Z).
  { split; [apply Z.pow_pos_nonneg; unfold ez; lia|].
    apply Z.pow_le_mono_r; unfold ez; lia. }
  assert (HD : (- 2 ^ 453 < D < 2 ^ 453)%Z).
  { unfold D. change (2 ^ 453)%Z with (2 ^ 53 * 2 ^ 400)%Z. split; nia. }
  pose proof (pow2_pos ez) as Hw.
  assert (Hez : (-200 <= ez <= 200)%Z) by (unfold ez; lia).
  clearbody X D ez.
  destruct D as [|p|p].
  - left. split; [rewrite HX; ring|reflexivity].
  - right. left.
    pose proof (inject_Z_pos_lt p). split; [rewrite HX; nra|].
    assert (Hd : (0 < Zpos (digits2_pos p) <= 453)%Z).
    { split; [lia|]. apply digits_between with (a := 0%Z); lia. }
    unfold binary_normalize.
    destruct (binary_round_value false p ez) as (m' & e' & Heq & Hdig & HV); try lia.
    exists m', e'. rewrite Heq, to_Q_finite. cbn [cond_Zopp].
    split; [reflexivity|]. split; [exact Hdig|].
    rewrite HX. exact HV.
  - right. right.
    pose proof (inject_Z_pos_lt p).
    assert (En : inject_Z (Zneg p) == - inject_Z (Zpos p))
      by (rewrite <- inject_Z_opp; reflexivity).
    split; [rewrite HX, En; nra|].
    assert (Hd : (0 < Zpos (digits2_pos p) <= 453)%Z).
    { split; [lia|]. apply digits_between with (a := 0%Z); lia. }
    unfold binary_normalize.
    destruct (binary_round_value true p ez) as (m' & e' & Heq & Hdig & HV); try lia.
    exists m', e'. rewrite Heq, to_Q_finite. cbn [cond_Zopp].
    split; [reflexivity|]. split; [exact Hdig|].
    cbv zeta in HV.
    assert (Em : inject_Z (Zneg m') == - inject_Z (Zpos m'))
      by (rewrite <- inject_Z_opp; reflexivity).
    change (- Z.pos m')%Z with (Zneg m').
    rewrite HX, En, Em.
    set (a := inject_Z (Zpos p) * 2 ^ ez) in *.
    set (b := inject_Z (Zpos m') * 2 ^ e') in *.
    assert (E1 : - inject_Z (Zpos p) * 2 ^ ez == - a) by (unfold a; ring).
    assert (E2 : - inject_Z (Zpos m') * 2 ^ e' == - b) by (unfold b; ring).
    rewrite E1, E2. clearbody a b. unfold ulp52 in *. split; lra.
Qed.

Lemma trunc_floor (x : spec_float) :
  positive_normal x -> B64.trunc x = Ok (Qfloor (B64.to_Q x)).
Proof.
  intros (m & e & -> & _ & _)%positive_normal_inv.
  unfold B64.trunc, B64.to_Q. cbn [cond_Zopp]. f_equal.
  destruct e as [|p|p].
  - rewrite Qmult_1_r, Qfloor_Z. reflexivity.
  - rewrite <- inject_Z_mult, Qfloor_Z. reflexivity.
  - rewrite Zdiv_Qdiv. reflexivity.
Qed.

Lemma ltb_zero_positive (x : spec_float) :
  positive_normal x -> SFltb (B64.of_Z 0) x = true.
Proof. intros (m & e & -> & _ & _)%positive_normal_inv. reflexivity. Qed.

(** A binary64 number (in canonical form, as every Python float is)
    between 1 and [2^64] is a positive normal number. *)
Lemma valid_positive_normal (x : spec_float) :
  valid_binary 53 1024 x = true ->
  1 <= B64.to_Q x <= 18446744073709551616 ->
  positive_normal x.
Proof.
  intros Hv [Hlo Hhi].
  destruct x as [sg|sg| |sg m e]; try (cbn in Hlo; lra).
  rewrite to_Q_finite in Hlo, Hhi.
  pose proof (inject_Z_pos_lt m) as Hm. pose proof (pow2_pos e) as Hw.
  destruct sg.
  { exfalso. cbn [cond_Zopp] in Hlo.
    rewrite inject_Z_opp in Hlo. nra. }
  cbn [cond_Zopp] in Hlo, Hhi.
  cbn [valid_binary] in Hv. unfold bounded, canonical_mantissa in Hv.
  apply andb_true_iff in Hv as [Hc _]. apply Z.eqb_eq in Hc.
  pose proof (digits2_pos_bounds m) as [_ Hd].
  assert (Hdig : Zpos (digits2_pos m) = 53%Z).
  { destruct (Z.le_gt_cases (-1021) (Zpos (digits2_pos m) + e)) as [H|H].
    - rewrite fexp_normal in Hc by exact H. lia.
    - exfalso.
      assert (Hlt : inject_Z (Zpos m) < 2 ^ Zpos (digits2_pos m)).
      { rewrite <- pow2_inject by lia. rewrite <- Zlt_Qlt. exact Hd. }
      assert (Hle : 2 ^ (Zpos (digits2_pos m) + e) <= 2 ^ 0)
        by (apply Qpower_le_compat_l; [lia|lra]).
      rewrite pow2_add in Hle. change (2 ^ 0) with 1 in Hle.
      set (a := 2 ^ Zpos (digits2_pos m)) in *. clearbody a. nra. }
  assert (Hdp : digits2_pos m = 53%positive) by lia.
  cbn. split; [exact Hdp|].
  apply (exponent_moderate m e (inject_Z (Zpos m) * 2 ^ e) Hdp).
  - unfold moderate. split; lra.
  - unfold ulp52. assert (0 < inject_Z (Zpos m) * 2 ^ e) by nra.
    set (X := inject_Z (Zpos m) * 2 ^ e) in *. clearbody X. split; lra.
Qed.


Lemma tracks_weaken (k k' lo lo' hi hi' X : Q) (r : spec_float) :
  tracks k lo hi X r -> 0 < lo -> k <= k' -> lo' <= lo -> hi <= hi' ->
  tracks k' lo' hi' X r.
Proof.
  intros (Hn & [Hl Hh] & [Hlo Hhi]) Hpos Hk Hlo' Hhi'. split; [exact Hn|].
  split; [split; lra|]. unfold eps in *.
  assert (0 < X) by lra.
  assert (X * k <= X * k') by nra.
  split; lra.
Qed.

Lemma tracks_comp (k lo hi X X' : Q) (r : spec_float) :
  X == X' -> tracks k lo hi X r -> tracks k lo hi X' r.
Proof. intros E (Hn & HX & Hr). rewrite E in HX, Hr. split; [exact Hn|auto]. Qed.

Lemma tracks_of_Z (n lo hi : Z) :
  (1 <= lo)%Z -> (hi < 2 ^ 53)%Z -> (lo <= n <= hi)%Z ->
  tracks 0 (inject_Z lo) (inject_Z hi) (inject_Z n) (B64.of_Z n).
Proof.
  intros Hlo Hhi Hn. destruct (of_Z_exact n) as [Hnorm Hval]; [lia|].
  split; [exact Hnorm|]. split.
  - rewrite <- !Zle_Qle. lia.
  - rewrite Hval. split; ring_simplify; apply Qle_refl.
Qed.

Lemma tracks_input (x : spec_float) (lo hi : Q) :
  valid_binary 53 1024 x = true -> 1 <= lo -> hi <= 18446744073709551616 ->
  lo <= B64.to_Q x <= hi ->
  tracks 0 lo hi (B64.to_Q x) x.
Proof.
  intros Hv Hlo Hhi Hx. split; [apply valid_positive_normal; [exact Hv|split; lra]|].
  split; [exact Hx|]. split; ring_simplify; apply Qle_refl.
Qed.

Lemma Qmult_le_both (a b c d : Q) :
  0 <= a -> a <= b -> 0 <= c -> c <= d -> a * c <= b * d.
Proof. intros. nra. Qed.

(** Two relative errors and one rounding, to first order. *)
Lemma error_budget_upper (al be : Q) :
  0 <= al <= 1 # 1000000000000 -> 0 <= be <= 1 # 1000000000000 ->
  (1 + al) * (1 + be) * (1 + ulp52) <= 1 + (al + be + eps).
Proof. unfold ulp52, eps. intros [? ?] [? ?]. nra. Qed.

Lemma error_budget_lower (al be : Q) :
  0 <= al <= 1 # 1000000000000 -> 0 <= be <= 1 # 1000000000000 ->
  1 - (al + be + eps) <= (1 - al) * (1 - be) * (1 - ulp52).
Proof. unfold ulp52, eps. intros [? ?] [? ?]. nra. Qed.

Lemma eps_budget (k : Q) :
  0 <= k <= 1000 -> 0 <= k * eps <= 1 # 1000000000000.
Proof. unfold eps. intros [? ?]. split; lra. Qed.

Lemma tracks_mul (a b l1 h1 l2 h2 X Y : Q) (x y : spec_float) :
  tracks a l1 h1 X x -> tracks b l2 h2 Y y ->
  0 < l1 -> 0 < l2 -> 0 <= a -> 0 <= b -> a + b <= 1000 ->
  (1 # 1152921504606846976) <= l1 * l2 -> h1 * h2 <= 1152921504606846976 ->
  tracks (a + b + 1) (l1 * l2) (h1 * h2) (X * Y) (SFmul 53 1024 x y).
Proof.
  intros (Hnx & [HXl HXh] & [Hxl Hxh]) (Hny & [HYl HYh] & [Hyl Hyh])
         Hl1 Hl2 Ha Hb Hab Hlo Hhi.
  pose proof (positive_normal_pos x Hnx) as Hx0.
  pose proof (positive_normal_pos y Hny) as Hy0.
  set (x' := B64.to_Q x) in *. set (y' := B64.to_Q y) in *.
  destruct (eps_budget a) as [Hal0 Hal1]; [lra|].
  destruct (eps_budget b) as [Hbe0 Hbe1]; [lra|].
  set (al := a * eps) in *. set (be := b * eps) in *.
  assert (HX0 : 0 < X) by lra. assert (HY0 : 0 < Y) by lra.
  assert (HP : l1 * l2 <= X * Y <= h1 * h2)
    by (split; apply Qmult_le_both; lra).
  assert (HP0 : 0 < X * Y) by nra.
  assert (Hup : x' * y' <= (X * Y) * ((1 + al) * (1 + be))).
  { assert (E : X * Y * ((1 + al) * (1 + be)) == (X * (1 + al)) * (Y * (1 + be))) by ring.
    rewrite E. apply Qmult_le_both; lra. }
  assert (Hdn : (X * Y) * ((1 - al) * (1 - be)) <= x' * y').
  { assert (E : X * Y * ((1 - al) * (1 - be)) == (X * (1 - al)) * (Y * (1 - be))) by ring.
    rewrite E. apply Qmult_le_both; try lra.
    - assert (0 <= X * (1 - al)); [apply Qmult_le_0_compat; lra|lra].
    - assert (0 <= Y * (1 - be)); [apply Qmult_le_0_compat; lra|lra]. }
  assert (Hc1 : (1 + al) * (1 + be) <= 2) by nra.
  assert (Hc2 : 1 # 2 <= (1 - al) * (1 - be)) by nra.
  assert (Hmod : moderate (x' * y')).
  { unfold moderate.
    set (P := X * Y) in *. set (c1 := (1 + al) * (1 + be)) in *.
    set (c2 := (1 - al) * (1 - be)) in *. clearbody P c1 c2.
    assert (P * c1 <= P * 2) by nra. assert (P * (1 # 2) <= P * c2) by nra.
    split; lra. }
  destruct (fmul_rounds x y Hnx Hny Hmod) as (Hnr & Hrl & Hrh). fold x' y' in Hrl, Hrh.
  split; [exact Hnr|]. split; [exact HP|].
  pose proof (error_budget_upper al be (conj Hal0 Hal1) (conj Hbe0 Hbe1)) as Hbu.
  pose proof (error_budget_lower al be (conj Hal0 Hal1) (conj Hbe0 Hbe1)) as Hbl.
  assert (Ek : (a + b + 1) * eps == al + be + eps) by (unfold al, be; ring).
  rewrite Ek.
  set (r := B64.to_Q (SFmul 53 1024 x y)) in *.
  set (P := X * Y) in *. set (XY := x' * y') in *.
  assert (Hu : 0 < ulp52 < 1) by (unfold ulp52; split; reflexivity).
  set (c1 := (1 + al) * (1 + be)) in *. set (c2 := (1 - al) * (1 - be)) in *.
  clearbody r P XY c1 c2.
  split.
  - assert (P * (1 - (al + be + eps)) <= P * (c2 * (1 - ulp52))) by nra.
    assert ((P * c2) * (1 - ulp52) <= XY * (1 - ulp52)) by nra.
    lra.
  - assert (P * (c1 * (1 + ulp52)) <= P * (1 + (al + be + eps))) by nra.
    assert (XY * (1 + ulp52) <= (P * c1) * (1 + ulp52)) by nra.
    lra.
Qed.

Lemma Qinv_pos (a : Q) : 0 < a -> 0 < / a.
Proof. apply Qinv_lt_0_compat. Qed.

Lemma Qinv_le (a b : Q) : 0 < a -> a <= b -> / b <= / a.
Proof.
  intros Ha Hab. assert (Hb : 0 < b) by lra.
  apply Qle_shift_inv_l; [exact Ha|].
  assert (E : / b * a == a / b) by (field; lra). rewrite E.
  apply Qle_shift_div_r; [exact Hb|]. lra.
Qed.

Lemma tracks_div (a b l1 h1 l2 h2 X Y : Q) (x y : spec_float) :
  tracks a l1 h1 X x -> tracks b l2 h2 Y y ->
  0 < l1 -> 0 < l2 -> 0 <= a -> 0 <= b -> a + 2 * b <= 1000 ->
  (1 # 1152921504606846976) <= l1 / h2 -> h1 / l2 <= 1152921504606846976 ->
  tracks (a + 2 * b + 1) (l1 / h2) (h1 / l2) (X / Y) (SFdiv 53 1024 x y).
Proof.
  intros (Hnx & [HXl HXh] & [Hxl Hxh]) (Hny & [HYl HYh] & [Hyl Hyh])
         Hl1 Hl2 Ha Hb Hab Hlo Hhi.
  pose proof (positive_normal_pos x Hnx) as Hx0.
  pose proof (positive_normal_pos y Hny) as Hy0.
  set (x' := B64.to_Q x) in *. set (y' := B64.to_Q y) in *.
  destruct (eps_budget a) as [Hal0 Hal1]; [lra|].
  destruct (eps_budget (2 * b)) as [Hbe0 Hbe1]; [lra|].
  set (al := a * eps) in *.
  assert (Eb : 2 * b * eps == 2 * (b * eps)) by ring.
  set (be := 2 * b * eps) in *. set (hb := b * eps) in *.
  assert (HX0 : 0 < X) by lra. assert (HY0 : 0 < Y) by lra.
  assert (Hh2 : 0 < h2) by lra.
  unfold Qdiv in *.
  pose proof (Qinv_pos Y HY0) as HIY0. pose proof (Qinv_pos y' Hy0) as Hiy0.
  pose proof (Qinv_pos l2 Hl2) as Hil2. pose proof (Qinv_pos h2 Hh2) as Hih2.
  pose proof (Qinv_le l2 Y Hl2 HYl) as HIYh.
  pose proof (Qinv_le Y h2 HY0 HYh) as HIYl.
  assert (EY : Y * / Y == 1) by (field; lra).
  assert (Ey : y' * / y' == 1) by (field; lra).
  set (IY := / Y) in *. set (iy := / y') in *.
  set (il2 := / l2) in *. set (ih2 := / h2) in *.
  assert (Hiyh : iy <= IY * (1 + be)).
  { assert (H1 : iy * (Y * (1 - hb)) <= iy * y') by nra.
    assert (H2 : IY * (iy * (Y * (1 - hb))) <= IY * (iy * y')) by nra.
    assert (H3 : iy * (1 - hb) <= IY) by nra.
    assert (H4 : 1 <= (1 + be) * (1 - hb)) by nra.
    assert (H5 : iy * 1 <= iy * ((1 + be) * (1 - hb))) by nra.
    assert (H6 : (iy * (1 - hb)) * (1 + be) <= IY * (1 + be)) by nra.
    lra. }
  assert (Hiyl : IY * (1 - be) <= iy).
  { assert (H1 : iy * y' <= iy * (Y * (1 + hb))) by nra.
    assert (H2 : IY * (iy * y') <= IY * (iy * (Y * (1 + hb)))) by nra.
    assert (H3 : IY <= iy * (1 + hb)) by nra.
    assert (H4 : (1 + hb) * (1 - be) <= 1) by nra.
    assert (H5 : iy * ((1 + hb) * (1 - be)) <= iy * 1) by nra.
    assert (H6 : IY * (1 - be) <= (iy * (1 + hb)) * (1 - be)) by nra.
    lra. }
  assert (HP : l1 * ih2 <= X * IY <= h1 * il2)
    by (split; apply Qmult_le_both; lra).
  assert (HP0 : 0 < X * IY) by nra.
  assert (Hup : x' * iy <= (X * IY) * ((1 + al) * (1 + be))).
  { assert (E : X * IY * ((1 + al) * (1 + be)) == (X * (1 + al)) * (IY * (1 + be))) by ring.
    rewrite E. apply Qmult_le_both; lra. }
  assert (Hdn : (X * IY) * ((1 - al) * (1 - be)) <= x' * iy).
  { assert (E : X * IY * ((1 - al) * (1 - be)) == (X * (1 - al)) * (IY * (1 - be))) by ring.
    rewrite E. apply Qmult_le_both; try lra.
    - assert (0 <= X * (1 - al)); [apply Qmult_le_0_compat; lra|lra].
    - assert (0 <= IY * (1 - be)); [apply Qmult_le_0_compat; lra|lra]. }
  assert (Hc1 : (1 + al) * (1 + be) <= 2) by nra.
  assert (Hc2 : 1 # 2 <= (1 - al) * (1 - be)) by nra.
  assert (Hmod : moderate (x' / y')).
  { unfold moderate, Qdiv. fold iy.
    set (P := X * IY) in *. set (c1 := (1 + al) * (1 + be)) in *.
    set (c2 := (1 - al) * (1 - be)) in *. clearbody P c1 c2.
    assert (P * c1 <= P * 2) by nra. assert (P * (1 # 2) <= P * c2) by nra.
    split; lra. }
  destruct (fdiv_rounds x y Hnx Hny Hmod) as (Hnr & Hrl & Hrh).
  fold x' y' in Hrl, Hrh. unfold Qdiv in Hrl, Hrh. fold iy in Hrl, Hrh.
  split; [exact Hnr|]. split; [exact HP|].
  pose proof (error_budget_upper al be (conj Hal0 Hal1) (conj Hbe0 Hbe1)) as Hbu.
  pose proof (error_budget_lower al be (conj Hal0 Hal1) (conj Hbe0 Hbe1)) as Hbl.
  assert (Ek : (a + 2 * b + 1) * eps == al + be + eps) by (unfold al, be; ring).
  rewrite Ek.
  set (r := B64.to_Q (SFdiv 53 1024 x y)) in *.
  set (P := X * IY) in *. set (XY := x' * iy) in *.
  assert (Hu : 0 < ulp52 < 1) by (unfold ulp52; split; reflexivity).
  set (c1 := (1 + al) * (1 + be)) in *. set (c2 := (1 - al) * (1 - be)) in *.
  clearbody r P XY c1 c2.
  split.
  - assert (P * (1 - (al + be + eps)) <= P * (c2 * (1 - ulp52))) by nra.
    assert ((P * c2) * (1 - ulp52) <= XY * (1 - ulp52)) by nra.
    lra.
  - assert (P * (c1 * (1 + ulp52)) <= P * (1 + (al + be + eps))) by nra.
    assert (XY * (1 + ulp52) <= (P * c1) * (1 + ulp52)) by nra.
    lra.
Qed.

(** A difference [x - y] in which [y] is exact and at most half of [x]. *)
Lemma tracks_sub (a l1 h1 l2 h2 X Y : Q) (x y : spec_float) :
  tracks a l1 h1 X x -> tracks 0 l2 h2 Y y ->
  0 < l2 -> 2 * h2 <= l1 -> 0 <= a -> 2 * a <= 1000 ->
  (1 # 1152921504606846976) <= l1 - h2 -> h1 - l2 <= 1152921504606846976 ->
  tracks (2 * a + 1) (l1 - h2) (h1 - l2) (X - Y) (SFsub 53 1024 x y).
Proof.
  intros (Hnx & [HXl HXh] & [Hxl Hxh]) (Hny & [HYl HYh] & [Hyl Hyh])
         Hl2 Hl1 Ha Hab Hlo Hhi.
  pose proof (fsub_spec x y Hnx Hny) as Hsub. cbv zeta in Hsub.
  set (x' := B64.to_Q x) in *. set (y' := B64.to_Q y) in *.
  destruct (eps_budget (2 * a)) as [Hal0 Hal1]; [lra|].
  assert (Ea : 2 * a * eps == 2 * (a * eps)) by ring.
  set (al := 2 * a * eps) in *. set (ha := a * eps) in *.
  assert (Hy : y' == Y) by lra.
  assert (HD0 : 0 < X - Y) by lra.
  assert (HX2 : X <= 2 * (X - Y)) by lra.
  assert (HXa : X * ha <= (X - Y) * al) by nra.
  assert (Hdl : (X - Y) * (1 - al) <= x' - y') by lra.
  assert (Hdh : x' - y' <= (X - Y) * (1 + al)) by lra.
  assert (Hd0 : 0 < x' - y') by nra.
  destruct Hsub as [[H0 _] | [[_ (m & e & Heq & Hdig & HV)] | [Hneg _]]]; try lra.
  assert (Hmod : moderate (x' - y')).
  { unfold moderate. assert ((X - Y) * (1 # 2) <= (X - Y) * (1 - al)) by nra.
    assert ((X - Y) * (1 + al) <= (X - Y) * 2) by nra. split; lra. }
  rewrite Heq in *. rewrite to_Q_finite in HV. cbn [cond_Zopp] in HV.
  split.
  { cbn. split; [exact Hdig|]. exact (exponent_moderate _ _ _ Hdig Hmod HV). }
  split; [split; lra|].
  rewrite to_Q_finite. cbn [cond_Zopp].
  assert (Ek : (2 * a + 1) * eps == al + 0 + eps) by (unfold al; ring).
  rewrite Ek.
  pose proof (error_budget_upper al 0 (conj Hal0 Hal1) ltac:(split; lra)) as Hbu.
  pose proof (error_budget_lower al 0 (conj Hal0 Hal1) ltac:(split; lra)) as Hbl.
  assert (Hu : 0 < ulp52 < 1) by (unfold ulp52; split; reflexivity).
  set (r := inject_Z (Zpos m) * 2 ^ e) in *.
  set (P := X - Y) in *. set (D := x' - y') in *.
  clearbody r P D.
  split.
  - assert (P * (1 - (al + 0 + eps)) <= P * ((1 - al) * (1 - 0) * (1 - ulp52))) by nra.
    assert ((P * (1 - al)) * (1 - ulp52) <= D * (1 - ulp52)) by nra.
    lra.
  - assert (P * ((1 + al) * (1 + 0) * (1 + ulp52)) <= P * (1 + (al + 0 + eps))) by nra.
    assert (D * (1 + ulp52) <= (P * (1 + al)) * (1 + ulp52)) by nra.
    lra.
Qed.


Ltac qclosed := vm_compute; first [reflexivity | discriminate].

Ltac track_with lem t1 t2 :=
  eapply tracks_weaken;
  [ eapply lem; [ t1 | t2 | qclosed .. ] | qclosed .. ].

Section Tracking.
Variable s : Session spec_float.
Hypothesis Hv : valid64 s.

Lemma performance_ratio_tracks :
  tracks 1 (3 # 4) (9 # 10) (Exact.performance_ratio (exact_of s))
         (Generic.performance_ratio s).
Proof.
  destruct Hv as [_ _ [? ? ? ? ? ? ?]]. cbn in *.
  unfold Exact.performance_ratio, Generic.performance_ratio.
  track_with tracks_div
    ltac:(apply (tracks_of_Z (100 - system_losses s) 75 90); lia)
    ltac:(apply (tracks_of_Z 100 100 100); lia).
Qed.

Lemma irradiance_tracks :
  tracks 0 3 7 (B64.to_Q (irradiance s)) (irradiance s).
Proof.
  destruct Hv as [Hi _ [_ Hr _ _ _ _ _]]. cbn in Hr.
  apply tracks_input; [exact Hi|qclosed|qclosed|exact Hr].
Qed.

Lemma tariff_tracks :
  tracks 0 3 15 (B64.to_Q (tariff s)) (tariff s).
Proof.
  destruct Hv as [_ Ht [_ _ Hr _ _ _ _]]. cbn in Hr.
  apply tracks_input; [exact Ht|qclosed|qclosed|exact Hr].
Qed.

Lemma annual_output_tracks :
  tracks 6 (49275 # 8) 2874375 (Exact.annual_output (exact_of s))
         (Generic.annual_output s).
Proof.
  pose proof performance_ratio_tracks as Hpr.
  pose proof irradiance_tracks as Hirr.
  destruct Hv as [_ _ [? ? ? ? ? ? ?]]. cbn in *.
  unfold Exact.annual_output, Generic.annual_output.
  track_with tracks_mul
    ltac:(eapply tracks_mul;
          [ eapply tracks_mul;
            [ eapply tracks_mul;
              [ apply (tracks_of_Z (area s) 10 1000); lia
              | exact Hirr | qclosed .. ]
            | apply (tracks_of_Z 365 365 365); lia | qclosed .. ]
          | exact Hpr | qclosed .. ])
    ltac:(eapply tracks_div;
          [ apply (tracks_of_Z (panel_efficiency s) 15 25); lia
          | apply (tracks_of_Z 20 20 20); lia | qclosed .. ]).
Qed.

Lemma annual_savings_tracks :
  tracks 7 (147825 # 8) 43115625 (Exact.annual_savings (exact_of s))
         (Generic.annual_savings s).
Proof.
  pose proof annual_output_tracks as Hao. pose proof tariff_tracks as Ht.
  unfold Exact.annual_savings, Generic.annual_savings.
  track_with tracks_mul ltac:(exact Hao) ltac:(exact Ht).
Qed.

Lemma total_system_cost_tracks :
  tracks 8 246375 229950000 (Exact.total_system_cost (exact_of s))
         (Generic.total_system_cost s).
Proof.
  pose proof annual_output_tracks as Hao.
  destruct Hv as [_ _ [? ? ? ? ? ? ?]]. cbn in *.
  unfold Exact.total_system_cost, Generic.total_system_cost.
  track_with tracks_mul
    ltac:(eapply tracks_div;
          [ exact Hao | apply (tracks_of_Z 1000 1000 1000); lia | qclosed .. ])
    ltac:(apply (tracks_of_Z (installation_cost s) 40000 80000); lia).
Qed.

Lemma net_annual_savings_tracks :
  tracks 15 (83825 # 8) 43113625 (Exact.net_annual_savings (exact_of s))
         (Generic.net_annual_savings s).
Proof.
  pose proof annual_savings_tracks as Hsv.
  destruct Hv as [_ _ [? ? ? ? ? ? ?]]. cbn in *.
  unfold Exact.net_annual_savings, Generic.net_annual_savings.
  track_with tracks_sub
    ltac:(exact Hsv)
    ltac:(apply (tracks_of_Z (maintenance_cost s) 2000 8000); lia).
Qed.

Lemma payback_quotient_tracks :
  tracks 39 (1 # 1000) 100000
         (Exact.total_system_cost (exact_of s) / Exact.net_annual_savings (exact_of s))
         (SFdiv 53 1024 (Generic.total_system_cost s) (Generic.net_annual_savings s)).
Proof.
  pose proof total_system_cost_tracks as Hc.
  pose proof net_annual_savings_tracks as Hn.
  track_with tracks_div ltac:(exact Hc) ltac:(exact Hn).
Qed.

End Tracking.

Section PaybackMargin.
Import Exact.
Variable s : Session Q.
Hypothesis Hvalid : valid s.

Lemma payback_upper_margin : total_system_cost s / net_annual_savings s <= 95 # 2.
Proof.
  apply Qle_shift_div_r; [apply net_annual_savings_pos, Hvalid|].
  unfold net_annual_savings, annual_savings, total_system_cost.
  pose proof (annual_output_lower s Hvalid) as Ho.
  destruct Hvalid as [_ _ [Ht _] _ _ [_ Hc]%inject_Z_range [_ Hm]%inject_Z_range].
  set (o := annual_output s) in *. set (m := inject_Z (maintenance_cost s)) in *.
  set (t := tariff s) in *. set (c := inject_Z (installation_cost s)) in *.
  clearbody o m t c. qconst.
  assert (o * 3 <= o * t) by nra.
  assert (o * c <= o * 80000) by nra.
  lra.
Qed.

End PaybackMargin.

Section Binary64Run.
Variable s : Session spec_float.
Hypothesis Hv : valid64 s.


Lemma payback64_eq : Generic.payback s = VFloat (payback64 s).
Proof.
  unfold Generic.payback.
  destruct (net_annual_savings_tracks s Hv) as [Hn _].
  change (fltb (of_int 0) (Generic.net_annual_savings s))
    with (SFltb (B64.of_Z 0) (Generic.net_annual_savings s)).
  rewrite (ltb_zero_positive _ Hn). reflexivity.
Qed.

Lemma payback64_range :
  positive_normal (payback64 s) /\ (8 # 3) * (1 - 39 * eps) <= B64.to_Q (payback64 s)
  /\ B64.to_Q (payback64 s) <= (95 # 2) * (1 + 39 * eps).
Proof.
  destruct (payback_quotient_tracks s Hv) as (Hn & _ & Hlo & Hhi).
  fold (payback64 s) in Hn, Hlo, Hhi.
  destruct Hv as [_ _ Hq].
  pose proof (payback_lower _ Hq) as Hl.
  pose proof (payback_upper_margin _ Hq) as Hu.
  set (P := (Exact.total_system_cost (exact_of s) / Exact.net_annual_savings (exact_of s))%Q) in *.
  clearbody P. split; [exact Hn|].
  revert Hl. qconst. intros Hl. unfold eps in *. split; nra.
Qed.

Lemma int_payback64 :
  Generic.int_payback s = Ok (Qfloor (B64.to_Q (payback64 s))) /\
  (2 <= Qfloor (B64.to_Q (payback64 s)) <= 47)%Z.
Proof.
  destruct payback64_range as (Hn & Hlo & Hhi).
  unfold Generic.int_payback. rewrite payback64_eq.
  change (ftrunc (payback64 s)) with (B64.trunc (payback64 s)).
  rewrite (trunc_floor _ Hn). split; [reflexivity|].
  set (p := B64.to_Q (payback64 s)) in *. clearbody p. unfold eps in *.
  split.
  - change 2%Z with (Qfloor 2). apply Qfloor_resp_le. lra.
  - assert (Hf := Qfloor_le p).
    assert (Hlt : inject_Z (Qfloor p) < inject_Z 48).
    { change (inject_Z 48) with 48. lra. }
    rewrite <- Zlt_Qlt in Hlt. lia.
Qed.

Lemma run_binary64 :
  button s = true ->
  run s = Ok (Generic.final s (Qfloor (B64.to_Q (payback64 s))) ∅).
Proof.
  intros Hb. unfold run. rewrite (generic_script_run s ∅ Hb).
  unfold Generic.outcome.
  destruct int_payback64 as [-> _].
  destruct Hv as [_ _ [Ha _ _ _ _ _ _]]. cbn in Ha.
  destruct (area s =? 0)%Z eqn:E; [apply Z.eqb_eq in E; lia|reflexivity].
Qed.

End Binary64Run.

(** ** The estimator's properties, for the binary64 run *)

Local Open Scope Z_scope.

Ltac session64_in_range :=
  constructor; [vm_compute; reflexivity | vm_compute; reflexivity | session_in_range].

Section Binary64Results.
Variable s : Session spec_float.
Hypothesis Hv : valid64 s.
Hypothesis Hb : button s = true.

Lemma final_net (n : Z) :
  float_var "net_annual_savings" (Ok (Generic.final s n ∅))
  = Some (Generic.net_annual_savings s).
Proof. reflexivity. Qed.

Lemma final_cost (n : Z) :
  float_var "total_system_cost" (Ok (Generic.final s n ∅))
  = Some (Generic.total_system_cost s).
Proof. reflexivity. Qed.

Lemma final_payback (n : Z) :
  float_var "payback" (Ok (Generic.final s n ∅)) = Some (payback64 s).
Proof.
  change (float_var "payback" (Ok (Generic.final s n ∅)))
    with (as_float (Generic.payback s)).
  rewrite (payback64_eq s Hv). reflexivity.
Qed.

Lemma final_years (n : Z) :
  ints_var "years" (Ok (Generic.final s n ∅)) = Some (Generic.years n).
Proof. apply mapM_as_int. Qed.

Lemma final_cumulative_savings (n : Z) :
  floats_var "cumulative_savings" (Ok (Generic.final s n ∅))
  = Some (Generic.cumulative_savings s n).
Proof. apply mapM_as_float. Qed.

End Binary64Results.

(** C5.  For every valid input, in the binary64 run: [payback] is a
    positive float [p], [int(p)] is its floor, [years] is
    [1, 2, ..., floor(p) + 4], [cumulative_savings] has exactly
    [floor(p) + 4] entries, and the entry of [year] is
    [year * net_annual_savings - total_system_cost] as the program's
    float operations compute it. *)
Theorem cumulative_savings_series_binary64 (s : Session spec_float) :
  valid64 s -> button s = true ->
  exists p net cost ys cs,
    float_var "payback" (run s) = Some p /\
    float_var "net_annual_savings" (run s) = Some net /\
    float_var "total_system_cost" (run s) = Some cost /\
    ints_var "years" (run s) = Some ys /\
    floats_var "cumulative_savings" (run s) = Some cs /\
    (0 < B64.to_Q p)%Q /\
    py_int (VFloat p) = Ok (VInt (Qfloor (B64.to_Q p))) /\
    ys = seqZ 1 (Qfloor (B64.to_Q p) + 4) /\
    length cs = Z.to_nat (Qfloor (B64.to_Q p) + 4) /\
    forall year : Z,
      1 <= year <= Qfloor (B64.to_Q p) + 4 ->
      cs !! Z.to_nat (year - 1)
      = Some (SFsub 53 1024 (SFmul 53 1024 (B64.of_Z year) net) cost).
Proof.
  intros Hv Hb.
  set (n := Qfloor (B64.to_Q (payback64 s))).
  exists (payback64 s), (Generic.net_annual_savings s), (Generic.total_system_cost s),
    (Generic.years n), (Generic.cumulative_savings s n).
  rewrite (run_binary64 s Hv Hb). fold n.
  split; [apply final_payback, Hv|].
  split; [reflexivity|]. split; [reflexivity|].
  split; [apply mapM_as_int|]. split; [apply mapM_as_float|].
  destruct (payback64_range s Hv) as (Hn & _ & _).
  split; [apply positive_normal_pos, Hn|].
  split.
  { unfold py_int. change (ftrunc (payback64 s)) with (B64.trunc (payback64 s)).
    rewrite (trunc_floor _ Hn). reflexivity. }
  assert (Hys : Generic.years n = seqZ 1 (n + 4)) by (unfold Generic.years; f_equal; lia).
  split; [exact Hys|].
  unfold Generic.cumulative_savings. rewrite Hys. split.
  - rewrite length_fmap, length_seqZ. reflexivity.
  - intros year Hyear. rewrite list_lookup_fmap, lookup_seqZ_lt by lia.
    replace (1 + Z.of_nat (Z.to_nat (year - 1))) with year by lia.
    reflexivity.
Qed.

Lemma cumulative_savings_series_binary64_witness :
  valid64 scenario1 /\ button (scenario1 (F:=spec_float)) = true /\
  exists cs : list spec_float,
    floats_var "cumulative_savings" (run scenario1) = Some cs /\
    length cs = 14%nat.
Proof.
  assert (Hv : valid64 scenario1) by session64_in_range.
  split; [exact Hv|]. split; [reflexivity|].
  destruct (cumulative_savings_series_binary64 scenario1 Hv eq_refl)
    as (p & net & cost & ys & cs & Hp & _ & _ & _ & Hcs & _ & _ & _ & Hlen & _).
  exists cs. split; [exact Hcs|].
  rewrite Hlen. vm_compute in Hp. injection Hp as <-. reflexivity.
Defined.

Local Open Scope Q_scope.

(** A tracked float, taken as an exact value of its own. *)
Lemma tracks_self (k lo hi X : Q) (r : spec_float) :
  tracks k lo hi X r -> 0 < lo -> 0 <= k <= 1000 ->
  tracks 0 (lo * (1 # 2)) (hi * 2) (B64.to_Q r) r.
Proof.
  intros (Hn & [Hl Hh] & [Hlo Hhi]) Hpos Hk.
  destruct (eps_budget k Hk) as [Hk0 Hk1]. set (ke := k * eps) in *. clearbody ke.
  split; [exact Hn|]. split.
  - assert (X * (1 # 2) <= X * (1 - ke)) by nra.
    assert (X * (1 + ke) <= X * 2) by nra. split; lra.
  - split; ring_simplify; apply Qle_refl.
Qed.

Section Entries.
Variable s : Session spec_float.
Hypothesis Hv : valid64 s.

Lemma year_savings_tracks (year : Z) :
  (1 <= year <= 51)%Z ->
  tracks 1 (83825 # 16) 4398000000
    (inject_Z year * B64.to_Q (Generic.net_annual_savings s))
    (SFmul 53 1024 (B64.of_Z year) (Generic.net_annual_savings s)).
Proof.
  intros Hy.
  pose proof (tracks_self _ _ _ _ _ (net_annual_savings_tracks s Hv)
                ltac:(qclosed) ltac:(split; qclosed)) as Hn.
  track_with tracks_mul
    ltac:(apply (tracks_of_Z year 1 51); lia)
    ltac:(exact Hn).
Qed.

Lemma entry_negative (year : Z) :
  (1 <= year <= 51)%Z ->
  inject_Z year * B64.to_Q (Generic.net_annual_savings s) * (1 + eps)
    < B64.to_Q (Generic.total_system_cost s) ->
  SFltb (entry s year) (B64.of_Z 0) = true /\ B64.to_Q (entry s year) < 0.
Proof.
  intros Hy Hlt.
  destruct (year_savings_tracks year Hy) as (Hna & _ & _ & Hhi).
  destruct (total_system_cost_tracks s Hv) as (Hnc & _ & _).
  pose proof (fsub_spec _ _ Hna Hnc) as Hsub. cbv zeta in Hsub.
  fold (entry s year) in Hsub.
  assert (E1 : 1 + 1 * eps == 1 + eps) by ring. rewrite E1 in Hhi.
  destruct Hsub as [[H0 _] | [[Hpos _] | [Hneg (m & e & Heq & _ & _ & HV)]]]; try lra.
  rewrite Heq in *. split; [reflexivity|].
  pose proof (positive_normal_pos _ Hna). pose proof (positive_normal_pos _ Hnc).
  unfold ulp52 in HV.
  set (X := B64.to_Q (SFmul 53 1024 (B64.of_Z year) (Generic.net_annual_savings s))
            - B64.to_Q (Generic.total_system_cost s)) in *.
  clearbody X. lra.
Qed.

Lemma entry_positive (year : Z) :
  (1 <= year <= 51)%Z ->
  B64.to_Q (Generic.total_system_cost s)
    < inject_Z year * B64.to_Q (Generic.net_annual_savings s) * (1 - eps) ->
  SFltb (B64.of_Z 0) (entry s year) = true /\ 0 < B64.to_Q (entry s year).
Proof.
  intros Hy Hlt.
  destruct (year_savings_tracks year Hy) as (Hna & _ & Hlo & _).
  destruct (total_system_cost_tracks s Hv) as (Hnc & _ & _).
  pose proof (fsub_spec _ _ Hna Hnc) as Hsub. cbv zeta in Hsub.
  fold (entry s year) in Hsub.
  assert (E1 : 1 - 1 * eps == 1 - eps) by ring. rewrite E1 in Hlo.
  destruct Hsub as [[H0 _] | [[Hpos (m & e & Heq & _ & HV & _)] | [Hneg _]]]; try lra.
  rewrite Heq in *. split; [reflexivity|].
  unfold ulp52 in HV.
  set (X := B64.to_Q (SFmul 53 1024 (B64.of_Z year) (Generic.net_annual_savings s))
            - B64.to_Q (Generic.total_system_cost s)) in *.
  clearbody X. lra.
Qed.

End Entries.

Section BreakEven.
Variable s : Session spec_float.
Hypothesis Hv : valid64 s.

(** [payback] is the rounded quotient of the two floats it is computed
    from. *)
Lemma payback64_quotient :
  exists R : Q,
    R * B64.to_Q (Generic.net_annual_savings s)
      == B64.to_Q (Generic.total_system_cost s) /\
    R * (1 - eps) <= B64.to_Q (payback64 s) <= R * (1 + eps).
Proof.
  pose proof (tracks_self _ _ _ _ _ (net_annual_savings_tracks s Hv)
                ltac:(qclosed) ltac:(split; qclosed)) as Hn.
  pose proof (tracks_self _ _ _ _ _ (total_system_cost_tracks s Hv)
                ltac:(qclosed) ltac:(split; qclosed)) as Hc.
  assert (Ht : tracks 1 (1 # 1000) 100000
                 (B64.to_Q (Generic.total_system_cost s)
                  / B64.to_Q (Generic.net_annual_savings s)) (payback64 s))
    by (track_with tracks_div ltac:(exact Hc) ltac:(exact Hn)).
  destruct Ht as (_ & _ & Hlo & Hhi).
  destruct Hn as (Hnn & _ & _). apply positive_normal_pos in Hnn.
  eexists. split; [|split; [rewrite <- (Qmult_1_l eps) at 1; exact Hlo
                            |rewrite <- (Qmult_1_l eps) at 1; exact Hhi]].
  field. lra.
Qed.

Lemma first_entry_negative :
  SFltb (entry s 1) (B64.of_Z 0) = true /\ B64.to_Q (entry s 1) < 0.
Proof.
  apply entry_negative; [exact Hv|lia|].
  destruct payback64_quotient as (R & HR & HPlo & HPhi).
  destruct (payback64_range s Hv) as (_ & Hlo & Hhi).
  destruct (net_annual_savings_tracks s Hv) as (Hnn & _ & _).
  apply positive_normal_pos in Hnn.
  rewrite <- HR. unfold eps in *.
  set (N := B64.to_Q (Generic.net_annual_savings s)) in *.
  set (P := B64.to_Q (payback64 s)) in *. clearbody N P.
  assert (HR2 : 2 <= R) by lra.
  change (inject_Z 1) with 1.
  assert (N * 2 <= N * R) by nra. lra.
Qed.

Lemma last_entry_positive :
  let n := Qfloor (B64.to_Q (payback64 s)) in
  SFltb (B64.of_Z 0) (entry s (n + 4)) = true /\ 0 < B64.to_Q (entry s (n + 4)).
Proof.
  intros n.
  destruct (int_payback64 s Hv) as [_ Hn]. fold n in Hn.
  apply entry_positive; [exact Hv|lia|].
  destruct payback64_quotient as (R & HR & HPlo & HPhi).
  destruct (payback64_range s Hv) as (_ & Hlo & Hhi).
  destruct (net_annual_savings_tracks s Hv) as (Hnn & _ & _).
  apply positive_normal_pos in Hnn.
  pose proof (Qlt_floor (B64.to_Q (payback64 s))) as Hfl. fold n in Hfl.
  rewrite <- HR. rewrite inject_Z_plus in *.
  change (inject_Z 4) with 4. change (inject_Z 1) with 1 in Hfl.
  unfold eps in *.
  set (N := B64.to_Q (Generic.net_annual_savings s)) in *.
  set (P := B64.to_Q (payback64 s)) in *.
  set (y := inject_Z n) in *. clearbody N P y.
  assert (HR50 : R <= 50) by lra.
  assert (Hlt : R < (y + 4) * (1 - (1 # 2251799813685248))) by lra.
  nra.
Qed.

End BreakEven.

Local Open Scope Z_scope.

Lemma head_seqZ_fmap {A} (f : Z -> A) (m n : Z) :
  0 < n -> head (f <$> seqZ m n) = Some (f m).
Proof. intros Hn. rewrite seqZ_cons by lia. reflexivity. Qed.

Lemma last_seqZ_fmap {A} (f : Z -> A) (m n : Z) :
  0 < n -> last (f <$> seqZ m n) = Some (f (m + n - 1)).
Proof.
  intros Hn.
  replace n with (Z.of_nat (S (Z.to_nat (n - 1)))) at 1 by lia.
  rewrite seqZ_S, fmap_app. change (f <$> [?a]) with [f a]. rewrite last_snoc.
  do 2 f_equal. lia.
Qed.


(** Outside the declared ranges: in scenario 2 of the specification
    [net_annual_savings > 0] fails, [payback] is the int [0] and the
    years are 1 to 4. *)
Example no_payback_years :
  value_var "payback" (run no_payback64) = Some (VInt 0) /\
  ints_var "years" (run no_payback64) = Some [1; 2; 3; 4].
Proof. split; vm_compute; reflexivity. Qed.


(** C10.  For every valid input, in the binary64 run,
    [net_annual_savings] is greater than zero, the first entry of
    [cumulative_savings] is below zero and the last entry is above zero:
    the series crosses break-even within the generated years. *)
Theorem cumulative_savings_crosses_zero (s : Session spec_float) :
  valid64 s -> button s = true ->
  exists net cs first final,
    float_var "net_annual_savings" (run s) = Some net /\
    floats_var "cumulative_savings" (run s) = Some cs /\
    SFltb (B64.of_Z 0) net = true /\
    head cs = Some first /\
    last cs = Some final /\
    SFltb first (B64.of_Z 0) = true /\
    SFltb (B64.of_Z 0) final = true /\
    (B64.to_Q first < 0 < B64.to_Q final)%Q.
Proof.
  intros Hv Hb. rewrite (run_binary64 s Hv Hb).
  destruct (int_payback64 s Hv) as [_ Hn].
  set (n := Qfloor (B64.to_Q (payback64 s))) in *.
  destruct (first_entry_negative s Hv) as [Hf1 Hf2].
  destruct (last_entry_positive s Hv) as [Hl1 Hl2]. fold n in Hl1, Hl2.
  destruct (net_annual_savings_tracks s Hv) as (Hnn & _).
  exists (Generic.net_annual_savings s), (Generic.cumulative_savings s n),
    (entry s 1), (entry s (n + 4)).
  split; [reflexivity|]. split; [apply mapM_as_float|].
  split; [apply ltb_zero_positive, Hnn|].
  unfold Generic.cumulative_savings, Generic.years.
  split; [apply (head_seqZ_fmap (entry s)); lia|].
  split.
  { rewrite (last_seqZ_fmap (entry s)) by lia. do 2 f_equal. lia. }
  split; [exact Hf1|]. split; [exact Hl1|]. split; [exact Hf2|exact Hl2].
Qed.

Lemma cumulative_savings_crosses_zero_witness :
  valid64 scenario1 /\ button (scenario1 (F:=spec_float)) = true /\
  exists (cs : list spec_float) (first final : spec_float),
    floats_var "cumulative_savings" (run scenario1) = Some cs /\
    head cs = Some first /\ last cs = Some final /\
    SFltb first (B64.of_Z 0) = true /\ SFltb (B64.of_Z 0) final = true.
Proof.
  assert (Hv : valid64 scenario1) by session64_in_range.
  split; [exact Hv|]. split; [reflexivity|].
  destruct (cumulative_savings_crosses_zero scenario1 Hv eq_refl)
    as (net & cs & first & final & _ & Hcs & _ & Hh & Hl & Hf & Hp & _).
  exists cs, first, final. auto.
Defined.


Local Open Scope Q_scope.

Lemma ltb_positive_normal (x y : spec_float) :
  positive_normal x -> positive_normal y -> B64.to_Q x < B64.to_Q y ->
  SFltb x y = true.
Proof.
  intros (mx & ex & -> & Hdx & _)%positive_normal_inv
         (my & ey & -> & Hdy & _)%positive_normal_inv.
  rewrite !to_Q_finite. cbn [cond_Zopp]. intros Hlt.
  apply digits53_bounds in Hdx, Hdy.
  unfold SFltb, SFcompare.
  destruct (Z.compare_spec ex ey) as [E|E|E].
  - subst ey. pose proof (pow2_pos ex) as Hw.
    assert (Hm : inject_Z (Zpos mx) < inject_Z (Zpos my)) by nra.
    rewrite <- Zlt_Qlt in Hm.
    change (Pos.compare_cont Eq mx my) with (Pos.compare mx my).
    rewrite (proj2 (Pos.compare_lt_iff mx my)); [reflexivity|lia].
  - reflexivity.
  - exfalso.
    assert (Hp : 2 ^ 1 * 2 ^ ey <= 2 ^ ex).
    { rewrite <- pow2_add. apply Qpower_le_compat_l; [lia|lra]. }
    change (2 ^ 1) with 2 in Hp.
    pose proof (pow2_pos ey) as Hw.
    assert (H1 : 4503599627370496 <= inject_Z (Zpos mx)).
    { change 4503599627370496 with (inject_Z (2 ^ 52)). rewrite <- Zle_Qle. lia. }
    assert (H2 : inject_Z (Zpos my) <= 9007199254740992).
    { change 9007199254740992 with (inject_Z (2 ^ 53)). rewrite <- Zle_Qle. lia. }
    set (a := inject_Z (Zpos mx)) in *. set (b := inject_Z (Zpos my)) in *.
    set (u := 2 ^ ex) in *. set (v := 2 ^ ey) in *. clearbody a b u v.
    assert (b * v <= 9007199254740992 * v) by nra.
    assert (4503599627370496 * u <= a * u) by nra.
    lra.
Qed.

(** C6, the sentence as stated fails for irradiance: the two floats that
    follow 3.0, both valid, yield the same [annual_output]. *)
Lemma adjacent_irradiances_same_output : ~ irradiance_strictly_increases_output.
Proof.
  intros Hmono.
  assert (Hv : valid64 irradiance_above_3) by session64_in_range.
  assert (Hv' : valid64 (set_irradiance next_irradiance irradiance_above_3))
    by session64_in_range.
  destruct (Hmono irradiance_above_3 next_irradiance Hv Hv' eq_refl)
    as (o & o' & Ho & Ho' & Hlt).
  vm_compute in Ho. injection Ho as <-.
  vm_compute in Ho'. injection Ho' as <-.
  vm_compute in Hlt. discriminate Hlt.
Qed.

Section OutputGap.
Import Exact.

Lemma annual_output_scaled (s : Session Q) :
  annual_output s ==
  inject_Z (area s) * irradiance s * (100 - inject_Z (system_losses s))
  * inject_Z (panel_efficiency s) * (73 # 400).
Proof.
  unfold annual_output, performance_ratio. rewrite inject_Z_sub. qconst.
  change (inject_Z 100) with 100. change (inject_Z 365) with 365.
  change (inject_Z 20) with 20. field.
Qed.

(** One more square metre, one more point of efficiency or a hundredth
    more irradiance is worth more than one kWh a year. *)
Lemma annual_output_gap (s s' : Session Q) :
  valid s -> valid s' ->
  system_losses s' = system_losses s ->
  (area s <= area s')%Z -> irradiance s <= irradiance s' ->
  (panel_efficiency s <= panel_efficiency s')%Z ->
  (area s + 1 <= area s')%Z \/ irradiance s + (1 # 100) <= irradiance s' \/
  (panel_efficiency s + 1 <= panel_efficiency s')%Z ->
  annual_output s + 1 <= annual_output s'.
Proof.
  intros [[Ha _]%inject_Z_range [Hi _] _ [He _]%inject_Z_range
            [_ Hl]%inject_Z_range _ _] _ El Hal Hil Hel Hgap.
  rewrite !annual_output_scaled, El.
  rewrite Zle_Qle in Hal, Hel.
  assert (Hgap' : inject_Z (area s) + 1 <= inject_Z (area s') \/
                  irradiance s + (1 # 100) <= irradiance s' \/
                  inject_Z (panel_efficiency s) + 1 <= inject_Z (panel_efficiency s')).
  { destruct Hgap as [H|[H|H]]; [left|right; left; exact H|right; right];
      rewrite Zle_Qle, inject_Z_plus in H; exact H. }
  clear Hgap.
  change (inject_Z 10) with 10 in Ha. change (inject_Z 15) with 15 in He.
  change (inject_Z 25) with 25 in Hl.
  set (a := inject_Z (area s)) in *. set (a' := inject_Z (area s')) in *.
  set (i := irradiance s) in *. set (i' := irradiance s') in *.
  set (e := inject_Z (panel_efficiency s)) in *.
  set (e' := inject_Z (panel_efficiency s')) in *.
  set (l := 100 - inject_Z (system_losses s)) in *.
  assert (Hl' : 75 <= l) by (unfold l; lra).
  clearbody a a' i i' e e' l.
  assert (H1 : a * i <= a' * i') by (apply Qmult_le_both; lra).
  assert (H2 : 30 <= a * i) by nra.
  assert (H3 : a * i * l <= a' * i' * l) by nra.
  assert (H4 : 2250 <= a * i * l) by nra.
  assert (H5 : a * i * l * e <= a' * i' * l * e')
    by (apply Qmult_le_both; try lra; nra).
  destruct Hgap' as [H|[H|H]].
  - assert (a * i + i <= a' * i') by nra.
    assert ((a * i + 3) * l <= a' * i' * l) by nra.
    assert ((a * i * l + 225) * e <= a' * i' * l * e')
      by (apply Qmult_le_both; try lra; nra).
    assert (225 * 15 <= 225 * e) by lra.
    lra.
  - assert (a * i + a * (1 # 100) <= a' * i') by nra.
    assert ((a * i + (1 # 10)) * l <= a' * i' * l) by nra.
    assert ((a * i * l + (15 # 2)) * e <= a' * i' * l * e')
      by (apply Qmult_le_both; try lra; nra).
    assert ((15 # 2) * 15 <= (15 # 2) * e) by lra.
    lra.
  - assert (a * i * l * (e + 1) <= a' * i' * l * e')
      by (apply Qmult_le_both; try lra; nra).
    lra.
Qed.

End OutputGap.

Lemma output_increases64_intro (s s' : Session spec_float) :
  valid64 s -> valid64 s' ->
  Exact.annual_output (exact_of s) + 1 <= Exact.annual_output (exact_of s') ->
  output_increases64 s s'.
Proof.
  intros Hv Hv' Hgap.
  exists (Generic.annual_output s), (Generic.annual_output s').
  rewrite !generic_estimate_run.
  split; [reflexivity|]. split; [reflexivity|].
  destruct (annual_output_tracks s Hv) as (Hn & [_ Hh] & _ & Hhi).
  destruct (annual_output_tracks s' Hv') as (Hn' & [_ Hh'] & Hlo' & _).
  apply ltb_positive_normal; [exact Hn|exact Hn'|].
  unfold eps in *.
  set (A := Exact.annual_output (exact_of s)) in *.
  set (A' := Exact.annual_output (exact_of s')) in *.
  clearbody A A'. lra.
Qed.

(** C6, amended.  From a valid input, in binary64 arithmetic, a larger
    [area], a larger [panel_efficiency], or an [irradiance] larger by at
    least 0.01 (a slider step is 0.1) strictly raises [annual_output]. *)
Theorem annual_output_monotone_binary64 (s : Session spec_float) :
  valid64 s ->
  (forall a, (area s < a <= 1000)%Z -> output_increases64 s (set_area a s)) /\
  (forall e, (panel_efficiency s < e <= 25)%Z ->
             output_increases64 s (set_panel_efficiency e s)) /\
  (forall i, valid_binary 53 1024 i = true ->
             B64.to_Q (irradiance s) + (1 # 100) <= B64.to_Q i <= 7 ->
             output_increases64 s (set_irradiance i s)).
Proof.
  intros Hv. pose proof Hv as [Hi Ht [Ha Hir Htr He Hl Hc Hm]]. cbn in *.
  repeat split.
  - intros a' Ha'.
    assert (Hv' : valid64 (set_area a' s)).
    { constructor; [exact Hi|exact Ht|]. constructor; cbn; try assumption. lia. }
    apply output_increases64_intro; [exact Hv|exact Hv'|].
    destruct Hv as [_ _ Hq]. destruct Hv' as [_ _ Hq'].
    apply annual_output_gap; cbn; try assumption; try reflexivity; try lia.
    apply Qle_refl.
  - intros e' He'.
    assert (Hv' : valid64 (set_panel_efficiency e' s)).
    { constructor; [exact Hi|exact Ht|]. constructor; cbn; try assumption. lia. }
    apply output_increases64_intro; [exact Hv|exact Hv'|].
    destruct Hv as [_ _ Hq]. destruct Hv' as [_ _ Hq'].
    apply annual_output_gap; cbn; try assumption; try reflexivity; try lia.
    apply Qle_refl.
  - intros i' Hi' Hr.
    assert (Hv' : valid64 (set_irradiance i' s)).
    { constructor; [exact Hi'|exact Ht|]. constructor; cbn; try assumption.
      split; lra. }
    apply output_increases64_intro; [exact Hv|exact Hv'|].
    destruct Hv as [_ _ Hq]. destruct Hv' as [_ _ Hq'].
    apply annual_output_gap; cbn; try assumption; try reflexivity; try lia.
    + lra.
    + right. left. lra.
Qed.

Lemma annual_output_monotone_binary64_witness :
  valid64 scenario1 /\
  output_increases64 scenario1 (set_area 101 scenario1) /\
  output_increases64 scenario1 (set_panel_efficiency 21 scenario1) /\
  output_increases64 scenario1 (set_irradiance (decimal 56 1) scenario1).
Proof.
  assert (Hv : valid64 scenario1) by session64_in_range.
  split; [exact Hv|].
  destruct (annual_output_monotone_binary64 scenario1 Hv) as (Ha & He & Hi).
  split; [apply Ha; cbn; lia|]. split; [apply He; cbn; lia|].
  apply Hi; [reflexivity|]. split; vm_compute; congruence.
Defined.


(** C7, the equality as stated fails in binary64: in scenario 1 the sum of
    the twelve floats exceeds [annual_output * 12.1 / 12] by
    [5 / 1649267441664]. *)
Lemma monthly_sum_differs_binary64 : ~ monthly_sum_exactly_proportional scenario1.
Proof.
  intros (ao & ms & Hao & Hms & Hsum).
  vm_compute in Hao. injection Hao as <-.
  vm_compute in Hms. injection Hms as <-.
  vm_compute in Hsum. discriminate Hsum.
Qed.

Section Monthly.
Variable s : Session spec_float.
Hypothesis Hv : valid64 s.

Lemma decimal_tracks (k : Z) :
  (7 <= k <= 13)%Z ->
  tracks 1 (7 # 10) (13 # 10) (inject_Z k / 10) (decimal k 1).
Proof.
  intros Hk. unfold decimal.
  change (10 ^ Z.of_nat 1)%Z with 10%Z.
  track_with tracks_div
    ltac:(apply (tracks_of_Z k 7 13); lia)
    ltac:(apply (tracks_of_Z 10 10 10); lia).
Qed.

Lemma month_tracks (k : Z) :
  (7 <= k <= 13)%Z ->
  tracks 3 1 1000000
    (B64.to_Q (Generic.annual_output s) / 12 * (inject_Z k / 10))
    (SFmul 53 1024 (SFdiv 53 1024 (Generic.annual_output s) (B64.of_Z 12))
           (decimal k 1)).
Proof.
  intros Hk.
  pose proof (tracks_self _ _ _ _ _ (annual_output_tracks s Hv)
                ltac:(qclosed) ltac:(split; qclosed)) as Hao.
  pose proof (decimal_tracks k Hk) as Hd.
  track_with tracks_mul
    ltac:(eapply tracks_div;
          [ exact Hao | apply (tracks_of_Z 12 12 12); lia | qclosed .. ])
    ltac:(exact Hd).
Qed.

End Monthly.


(** C7, amended.  For every valid input, in the binary64 run,
    [seasonal_variation] is the table of the specification (each entry
    the nearest float), [monthly_output] has 12 entries, entry [i] is
    [annual_output / 12] times the [i]-th multiplier in float arithmetic,
    their exact sum is within a relative [3 * 2^-51] of [annual_output]
    times [sum(seasonal_factor) / 12], and it exceeds [annual_output]. *)
Theorem monthly_output_series_binary64 (s : Session spec_float) :
  valid64 s -> button s = true ->
  exists ao sv ms,
    float_var "annual_output" (run s) = Some ao /\
    floats_var "seasonal_variation" (run s) = Some sv /\
    sv = [decimal 8 1; decimal 9 1; decimal 11 1; decimal 12 1; decimal 13 1;
          decimal 12 1; decimal 11 1; decimal 11 1; decimal 10 1; decimal 9 1;
          decimal 8 1; decimal 7 1] /\
    Forall2 rounded_to seasonal_factor sv /\
    floats_var "monthly_output" (run s) = Some ms /\
    length ms = 12%nat /\
    ms = (fun f => SFmul 53 1024 (SFdiv 53 1024 ao (B64.of_Z 12)) f) <$> sv /\
    (let total := B64.to_Q ao * (Qsum seasonal_factor / 12) in
     total * (1 - 3 * eps) <= Qsum (B64.to_Q <$> ms) <= total * (1 + 3 * eps)) /\
    B64.to_Q ao < Qsum (B64.to_Q <$> ms).
Proof.
  intros Hv Hb.
  exists (Generic.annual_output s), Generic.seasonal_variation, (Generic.monthly_output s).
  rewrite (run_binary64 s Hv Hb).
  split; [reflexivity|]. split; [apply mapM_as_float|]. split; [reflexivity|].
  split.
  { unfold seasonal_factor, Generic.seasonal_variation.
    repeat (apply List.Forall2_cons; [vm_compute; split; discriminate|]).
    apply List.Forall2_nil. }
  split; [apply mapM_as_float|]. split; [reflexivity|]. split; [reflexivity|].
  destruct (month_tracks s Hv 7 ltac:(lia)) as (_ & _ & L7 & U7).
  destruct (month_tracks s Hv 8 ltac:(lia)) as (_ & _ & L8 & U8).
  destruct (month_tracks s Hv 9 ltac:(lia)) as (_ & _ & L9 & U9).
  destruct (month_tracks s Hv 10 ltac:(lia)) as (_ & _ & L10 & U10).
  destruct (month_tracks s Hv 11 ltac:(lia)) as (_ & _ & L11 & U11).
  destruct (month_tracks s Hv 12 ltac:(lia)) as (_ & _ & L12 & U12).
  destruct (month_tracks s Hv 13 ltac:(lia)) as (_ & _ & L13 & U13).
  destruct (annual_output_tracks s Hv) as (Hn & _ & _).
  apply positive_normal_pos in Hn.
  unfold Generic.monthly_output, Generic.seasonal_variation.
  cbn [fmap list_fmap Qsum foldr].
  change (fmul (fdiv (Generic.annual_output s) (of_int 12)) ?f)
    with (SFmul 53 1024 (SFdiv 53 1024 (Generic.annual_output s) (B64.of_Z 12)) f).
  assert (ET : Qsum seasonal_factor / 12 == 121 # 120) by reflexivity.
  cbv zeta. rewrite ET. clear ET.
  revert L7 U7 L8 U8 L9 U9 L10 U10 L11 U11 L12 U12 L13 U13. qconst.
  change (inject_Z 7) with 7. change (inject_Z 8) with 8. change (inject_Z 9) with 9.
  change (inject_Z 10) with 10. change (inject_Z 11) with 11.
  change (inject_Z 12) with 12. change (inject_Z 13) with 13.
  unfold eps.
  set (A := B64.to_Q (Generic.annual_output s)) in *.
  set (c := SFdiv 53 1024 (Generic.annual_output s) (B64.of_Z 12)).
  set (m7 := B64.to_Q (SFmul 53 1024 c (decimal 7 1))).
  set (m8 := B64.to_Q (SFmul 53 1024 c (decimal 8 1))).
  set (m9 := B64.to_Q (SFmul 53 1024 c (decimal 9 1))).
  set (m10 := B64.to_Q (SFmul 53 1024 c (decimal 10 1))).
  set (m11 := B64.to_Q (SFmul 53 1024 c (decimal 11 1))).
  set (m12 := B64.to_Q (SFmul 53 1024 c (decimal 12 1))).
  set (m13 := B64.to_Q (SFmul 53 1024 c (decimal 13 1))).
  clearbody A m7 m8 m9 m10 m11 m12 m13.
  intros. split; [split|]; lra.
Qed.

Lemma monthly_output_series_binary64_witness :
  valid64 scenario1 /\ button (scenario1 (F:=spec_float)) = true /\
  exists ms : list spec_float,
    floats_var "monthly_output" (run scenario1) = Some ms /\
    length ms = 12%nat.
Proof.
  assert (Hv : valid64 scenario1) by session64_in_range.
  split; [exact Hv|]. split; [reflexivity|].
  destruct (monthly_output_series_binary64 scenario1 Hv eq_refl)
    as (ao & sv & ms & _ & _ & _ & _ & Hms & Hlen & _).
  exists ms. split; [exact Hms|exact Hlen].
Defined.

Local Open Scope Z_scope.

(** ** Further properties of the script *)

(** X1.  Without the button pressed, a run ends without an exception,
    the seven widget variables hold the values of the widgets and none of
    the result variables is bound: the guard of line 237 keeps the second
    tab from reading results that do not exist.  This holds for any
    [float] carrier. *)
Theorem idle_run_binds_no_result {F : Type} `{PyFloat F} (s : Session F) :
  button s = false ->
  exists ns,
    run s = Ok ns /\
    ns !! "area" = Some (VInt (area s)) /\
    ns !! "irradiance" = Some (VFloat (irradiance s)) /\
    ns !! "tariff" = Some (VFloat (tariff s)) /\
    ns !! "panel_efficiency" = Some (VInt (panel_efficiency s)) /\
    ns !! "system_losses" = Some (VInt (system_losses s)) /\
    ns !! "installation_cost" = Some (VInt (installation_cost s)) /\
    ns !! "maintenance_cost" = Some (VInt (maintenance_cost s)) /\
    forall x, x ∈ result_vars -> ns !! x = None.
Proof.
  intros Hb. exists (Generic.idle s).
  split; [apply generic_idle_run, Hb|].
  repeat (split; [reflexivity|]).
  intros x Hx. unfold result_vars in Hx.
  repeat (apply elem_of_union in Hx as [Hx|Hx]);
    apply elem_of_singleton in Hx; subst x; reflexivity.
Qed.

Lemma idle_run_binds_no_result_witness :
  button (F:=spec_float) idle_scenario1 = false /\
  exists ns : gmap string (pyval spec_float),
    run idle_scenario1 = Ok ns /\ ns !! "annual_output" = None.
Proof.
  split; [reflexivity|].
  destruct (idle_run_binds_no_result (F:=spec_float) idle_scenario1 eq_refl)
    as (ns & Hrun & _ & _ & _ & _ & _ & _ & _ & Hnone).
  exists ns. split; [exact Hrun|]. apply Hnone.
  unfold result_vars. rewrite !elem_of_union, !elem_of_singleton. tauto.
Defined.

(** X2.  On every valid input a binary64 run ends without an exception,
    whether or not the button is pressed: the divisors of lines 137-142
    and 189 are not zero, [payback] is a finite float, so [int(payback)]
    succeeds, and every name the second tab reads is bound.  With the
    button pressed every result variable is bound and the figures of
    lines 163 and 281 are floats. *)
Theorem valid_run_ends_normally (s : Session spec_float) :
  valid64 s ->
  exists ns,
    run s = Ok ns /\
    (button s = true ->
     (forall x, x ∈ result_vars -> is_Some (ns !! x)) /\
     (exists d, displayed monthly_savings_delta (run s) = Some (VFloat d)) /\
     (exists v, displayed total_25_year_savings (run s) = Some (VFloat v))).
Proof.
  intros Hv. destruct (button s) eqn:Hb.
  - rewrite (run_binary64 s Hv Hb).
    eexists. split; [reflexivity|]. intros _. split; [|split].
    + intros x Hx. unfold result_vars in Hx.
      repeat (apply elem_of_union in Hx as [Hx|Hx]);
        apply elem_of_singleton in Hx; subst x; eexists; reflexivity.
    + eexists. reflexivity.
    + eexists. reflexivity.
  - exists (Generic.idle s). split; [apply generic_idle_run, Hb|].
    intros Hc. discriminate Hc.
Qed.

Lemma valid_run_ends_normally_witness :
  valid64 scenario1 /\
  exists ns : gmap string (pyval spec_float), run scenario1 = Ok ns.
Proof.
  assert (Hv : valid64 scenario1) by session64_in_range.
  split; [exact Hv|].
  destruct (valid_run_ends_normally scenario1 Hv) as (ns & Hrun & _).
  exists ns. exact Hrun.
Defined.

(** Outside the declared ranges the conversion [int(payback)] of line 213
    can fail: on a NaN and on an infinity. *)
Example huge_irradiance_raises : run huge_irradiance = Raise ValueError.
Proof. vm_compute. reflexivity. Qed.

Example infinite_payback_raises : run infinite_payback = Raise OverflowError.
Proof. vm_compute. reflexivity. Qed.

(** ** Ranges of the results on valid inputs *)

Section MoreBounds.
Import Exact.
Local Open Scope Q_scope.

Lemma yield_upper (i l e : Q) :
  3 <= i <= 7 -> 10 <= l <= 25 -> 15 <= e <= 25 -> yield i l e <= 22995 / 8.
Proof.
  intros [Hi Hi'] [Hl Hl'] [He He']. unfold yield.
  assert (i * (100 - l) <= 630) by nra.
  assert (0 <= i * (100 - l)) by nra.
  assert (i * (100 - l) * e <= 15750) by nra.
  assert (i * 365 * ((100 - l) / 100) * (e / 20)
          == i * (100 - l) * e * (73 / 400)) as -> by field.
  set (p := i * (100 - l) * e) in *. clearbody p. qconst. lra.
Qed.

Variable s : Session Q.
Hypothesis Hvalid : valid s.

Lemma annual_output_upper : annual_output s <= 2874375.
Proof.
  rewrite annual_output_eq.
  pose proof (yield_valid s Hvalid) as Hy.
  assert (Hy' : yield (irradiance s) (inject_Z (system_losses s))
                      (inject_Z (panel_efficiency s)) <= 22995 / 8).
  { destruct Hvalid as [_ Hi _ He%inject_Z_range Hl%inject_Z_range _ _].
    apply yield_upper; assumption. }
  destruct Hvalid as [[_ Ha]%inject_Z_range _ _ _ _ _ _].
  set (a := inject_Z (area s)) in *. set (y := yield _ _ _) in *.
  clearbody a y. qconst. nra.
Qed.

Lemma total_system_cost_range :
  246375 <= total_system_cost s <= 229950000.
Proof.
  unfold total_system_cost.
  pose proof (annual_output_lower s Hvalid) as Ho.
  pose proof annual_output_upper as Ho'.
  destruct Hvalid as [_ _ _ _ _ [Hc Hc']%inject_Z_range _].
  set (o := annual_output s) in *. set (c := inject_Z (installation_cost s)) in *.
  clearbody o c. qconst. split; nra.
Qed.

End MoreBounds.

Section MoreClaims.
Import Exact.
Local Open Scope Q_scope.

(** X5.  On every valid input the energy and money figures of lines
    137-143 lie in fixed ranges: the annual output between 6,159.375 and
    2,874,375 kWh, the system cost between 246,375 and 229,950,000, and
    the net annual savings at least 10,478.125, so the branch of line 142
    that yields the sentinel is never taken. *)
Theorem result_ranges (s : Session Q) :
  valid s ->
  exists ao cost net p : Q,
    float_var "annual_output" (estimate s) = Some ao /\
    float_var "total_system_cost" (estimate s) = Some cost /\
    float_var "net_annual_savings" (estimate s) = Some net /\
    value_var "payback" (estimate s) = Some (VFloat p) /\
    6159.375 <= ao <= 2874375 /\
    246375 <= cost <= 229950000 /\
    10478.125 <= net.
Proof.
  intros Hv.
  exists (annual_output s), (total_system_cost s), (net_annual_savings s),
    (total_system_cost s / net_annual_savings s).
  rewrite estimate_run.
  split; [reflexivity|]. split; [reflexivity|]. split; [reflexivity|].
  split.
  { change (value_var "payback" (Ok _)) with (Some (payback s)).
    rewrite (payback_valid s Hv). reflexivity. }
  pose proof (annual_output_lower s Hv). pose proof (annual_output_upper s Hv).
  pose proof (total_system_cost_range s Hv).
  pose proof (net_annual_savings_lower s Hv).
  qconst. repeat split; lra.
Qed.

Lemma result_ranges_witness :
  valid scenario1 /\
  exists net : Q,
    float_var "net_annual_savings" (estimate scenario1) = Some net /\
    10478.125 <= net.
Proof.
  assert (Hv : valid scenario1) by session_in_range.
  split; [exact Hv|].
  destruct (result_ranges scenario1 Hv)
    as (ao & cost & net & p & _ & _ & Hnet & _ & _ & _ & Hlow).
  exists net. split; [exact Hnet|exact Hlow].
Defined.

(** X11.  From a valid input, raising [system_losses] alone, by any
    amount, strictly lowers [annual_output]. *)
Theorem annual_output_falls_with_losses (s : Session Q) :
  valid s ->
  forall l, (system_losses s < l)%Z ->
            output_increases (with_system_losses l s) s.
Proof.
  intros Hv l' Hlt. rewrite Zlt_Qlt in Hlt.
  destruct Hv as [[Ha _]%inject_Z_range [Hi _] _ [He _]%inject_Z_range _ _ _].
  apply output_increases_intro. rewrite !annual_output_eq.
  cbn [with_system_losses area irradiance system_losses panel_efficiency].
  unfold yield.
  set (a := inject_Z (area s)) in *. set (i := irradiance s) in *.
  set (l := inject_Z (system_losses s)) in *.
  set (e := inject_Z (panel_efficiency s)) in *. set (d := inject_Z l') in *.
  clearbody a i l e d. qconst.
  assert (0 < a * i) by nra.
  assert (0 < a * i * e) by nra.
  set (k := a * i * e) in *.
  assert (a * (i * 365 * ((100 - d) * (1 # 100)) * (e * (1 # 20)))
          == k * (73 # 400) * (100 - d)) as -> by (unfold k; ring).
  assert (a * (i * 365 * ((100 - l) * (1 # 100)) * (e * (1 # 20)))
          == k * (73 # 400) * (100 - l)) as -> by (unfold k; ring).
  clearbody k. nra.
Qed.

Lemma annual_output_falls_with_losses_witness :
  valid scenario1 /\
  output_increases (with_system_losses 16 scenario1) scenario1.
Proof.
  assert (Hv : valid scenario1) by session_in_range.
  split; [exact Hv|].
  apply (annual_output_falls_with_losses scenario1 Hv). reflexivity.
Defined.

End MoreClaims.

(** ** Further properties of the binary64 run *)

(** X6.  On every valid input the float [payback] of the binary64 run is
    between 2.66 and 47.6 years, so the return-on-investment chart of
    lines 213-214 has between 6 and 51 points. *)
Theorem payback_range_binary64 (s : Session spec_float) :
  valid64 s -> button s = true ->
  exists (p : spec_float) (ys : list Z),
    float_var "payback" (run s) = Some p /\
    ints_var "years" (run s) = Some ys /\
    (2.66 <= B64.to_Q p <= 47.6)%Q /\
    (6 <= length ys <= 51)%nat.
Proof.
  intros Hv Hb. exists (payback64 s), (Generic.years (Qfloor (B64.to_Q (payback64 s)))).
  rewrite (run_binary64 s Hv Hb).
  split; [apply final_payback, Hv|]. split; [apply mapM_as_int|].
  destruct (payback64_range s Hv) as (_ & Hlo & Hhi).
  destruct (int_payback64 s Hv) as [_ Hn].
  split.
  - unfold eps in *. split; lra.
  - unfold Generic.years. rewrite length_seqZ. lia.
Qed.

Lemma payback_range_binary64_witness :
  valid64 scenario1 /\ button (scenario1 (F:=spec_float)) = true /\
  exists ys : list Z,
    ints_var (F:=spec_float) "years" (run scenario1) = Some ys /\
    (6 <= length ys <= 51)%nat.
Proof.
  assert (Hv : valid64 scenario1) by session64_in_range.
  split; [exact Hv|]. split; [reflexivity|].
  destruct (payback_range_binary64 scenario1 Hv eq_refl) as (p & ys & _ & Hys & _ & Hlen).
  exists ys. split; [exact Hys|exact Hlen].
Defined.


Lemma tracks_accurate (k lo hi X : Q) (r : spec_float) :
  tracks k lo hi X r -> accurate_to k X r.
Proof. intros (_ & _ & H). exact H. Qed.

(** X12.  On every valid input the floats of lines 138-142 are the
    values of the specification's formulas, taken exactly at the exact
    values of the inputs, to within a relative [k * 2^-51]: [k] is 6 for
    [annual_output], 7 for [annual_savings], 8 for [total_system_cost],
    15 for [net_annual_savings] and 39 for [payback]. *)
Theorem binary64_results_accurate (s : Session spec_float) :
  valid64 s ->
  exists ao sv cost net p : spec_float,
    float_var "annual_output" (estimate s) = Some ao /\
    float_var "annual_savings" (estimate s) = Some sv /\
    float_var "total_system_cost" (estimate s) = Some cost /\
    float_var "net_annual_savings" (estimate s) = Some net /\
    float_var "payback" (estimate s) = Some p /\
    accurate_to 6 (Exact.annual_output (exact_of s)) ao /\
    accurate_to 7 (Exact.annual_savings (exact_of s)) sv /\
    accurate_to 8 (Exact.total_system_cost (exact_of s)) cost /\
    accurate_to 15 (Exact.net_annual_savings (exact_of s)) net /\
    accurate_to 39 (Exact.total_system_cost (exact_of s)
                    / Exact.net_annual_savings (exact_of s))%Q p.
Proof.
  intros Hv.
  exists (Generic.annual_output s), (Generic.annual_savings s),
    (Generic.total_system_cost s), (Generic.net_annual_savings s), (payback64 s).
  rewrite generic_estimate_run.
  split; [reflexivity|]. split; [reflexivity|]. split; [reflexivity|].
  split; [reflexivity|].
  split.
  { change (float_var "payback" (Ok (Generic.calculated s ∅)))
      with (as_float (Generic.payback s)).
    rewrite (payback64_eq s Hv). reflexivity. }
  split; [exact (tracks_accurate _ _ _ _ _ (annual_output_tracks s Hv))|].
  split; [exact (tracks_accurate _ _ _ _ _ (annual_savings_tracks s Hv))|].
  split; [exact (tracks_accurate _ _ _ _ _ (total_system_cost_tracks s Hv))|].
  split; [exact (tracks_accurate _ _ _ _ _ (net_annual_savings_tracks s Hv))|].
  exact (tracks_accurate _ _ _ _ _ (payback_quotient_tracks s Hv)).
Qed.

Lemma binary64_results_accurate_witness :
  valid64 scenario1 /\
  exists ao : spec_float,
    float_var "annual_output" (estimate scenario1) = Some ao /\
    accurate_to 6 (Exact.annual_output (exact_of scenario1)) ao.
Proof.
  assert (Hv : valid64 scenario1) by session64_in_range.
  split; [exact Hv|].
  destruct (binary64_results_accurate scenario1 Hv)
    as (ao & sv & cost & net & p & Hao & _ & _ & _ & _ & Hacc & _).
  exists ao. split; [exact Hao|exact Hacc].
Defined.

Lemma SFmul_comm (x y : spec_float) : SFmul 53 1024 x y = SFmul 53 1024 y x.
Proof.
  destruct x as [sx|sx| |sx mx ex], y as [sy|sy| |sy my ey]; cbn;
    rewrite ?(xorb_comm sx sy), ?(Pos.mul_comm mx my), ?(Z.add_comm ex ey);
    reflexivity.
Qed.

(** X7.  On every valid input, in the binary64 run, the "25-Year Total
    Savings" of line 281 is [net_annual_savings * 25 - total_system_cost]
    in float arithmetic; it is above zero when the float [payback] is at
    most 24.99 years and below zero when it is at least 25.01 years, and
    it is the 25th point of the cumulative-savings chart whenever the
    chart reaches that year. *)
Theorem total_25_year_savings_sign_binary64 (s : Session spec_float) :
  valid64 s -> button s = true ->
  exists (v p net cost : spec_float) (cs : list spec_float),
    displayed total_25_year_savings (run s) = Some (VFloat v) /\
    float_var "payback" (run s) = Some p /\
    float_var "net_annual_savings" (run s) = Some net /\
    float_var "total_system_cost" (run s) = Some cost /\
    floats_var "cumulative_savings" (run s) = Some cs /\
    v = SFsub 53 1024 (SFmul 53 1024 net (B64.of_Z 25)) cost /\
    ((B64.to_Q p <= 24.99)%Q -> SFltb (B64.of_Z 0) v = true) /\
    ((25.01 <= B64.to_Q p)%Q -> SFltb v (B64.of_Z 0) = true) /\
    (forall c, cs !! 24%nat = Some c -> c = v).
Proof.
  intros Hv Hb.
  set (n := Qfloor (B64.to_Q (payback64 s))).
  exists (entry s 25), (payback64 s), (Generic.net_annual_savings s),
    (Generic.total_system_cost s), (Generic.cumulative_savings s n).
  rewrite (run_binary64 s Hv Hb). fold n.
  split.
  { unfold entry. rewrite SFmul_comm. reflexivity. }
  split; [apply final_payback, Hv|].
  split; [reflexivity|]. split; [reflexivity|]. split; [apply mapM_as_float|].
  split; [unfold entry; rewrite SFmul_comm; reflexivity|].
  destruct (payback64_quotient s Hv) as (R & HR & HPlo & HPhi).
  destruct (net_annual_savings_tracks s Hv) as (Hnn & _ & _).
  apply positive_normal_pos in Hnn.
  split; [|split].
  - intros Hp. apply (entry_positive s Hv 25); [lia|].
    rewrite <- HR. change (inject_Z 25) with 25%Q. unfold eps in *.
    set (N := B64.to_Q (Generic.net_annual_savings s)) in *.
    set (P := B64.to_Q (payback64 s)) in *. clearbody N P.
    assert (R < 25 * (1 - (1 # 2251799813685248)))%Q by lra.
    nra.
  - intros Hp. apply (entry_negative s Hv 25); [lia|].
    rewrite <- HR. change (inject_Z 25) with 25%Q. unfold eps in *.
    set (N := B64.to_Q (Generic.net_annual_savings s)) in *.
    set (P := B64.to_Q (payback64 s)) in *. clearbody N P.
    assert (25 * (1 + (1 # 2251799813685248)) < R)%Q by lra.
    nra.
  - intros c Hc. unfold Generic.cumulative_savings, Generic.years in Hc.
    rewrite list_lookup_fmap in Hc.
    destruct (seqZ 1 (n + 5 - 1) !! 24%nat) as [y|] eqn:Hy; [|discriminate Hc].
    apply lookup_seqZ in Hy as [-> _]. cbn in Hc. injection Hc as <-. reflexivity.
Qed.

Lemma total_25_year_savings_sign_binary64_witness :
  valid64 scenario1 /\ button (scenario1 (F:=spec_float)) = true /\
  exists v : spec_float,
    displayed total_25_year_savings (run scenario1) = Some (VFloat v) /\
    SFltb (B64.of_Z 0) v = true.
Proof.
  assert (Hv : valid64 scenario1) by session64_in_range.
  split; [exact Hv|]. split; [reflexivity|].
  destruct (total_25_year_savings_sign_binary64 scenario1 Hv eq_refl)
    as (v & p & net & cost & cs & Hdisp & Hp & _ & _ & _ & _ & Hpos & _).
  exists v. split; [exact Hdisp|]. apply Hpos.
  vm_compute in Hp. injection Hp as <-. vm_compute. discriminate.
Defined.

Local Open Scope Q_scope.

Section Shape.
Variable s : Session spec_float.
Hypothesis Hv : valid64 s.

(** The value of an entry: the rounded product less the cost, with an
    error of at most [102 * ulp52] times the net annual savings. *)
Lemma entry_value (year : Z) :
  (1 <= year <= 51)%Z ->
  let N := B64.to_Q (Generic.net_annual_savings s) in
  let C := B64.to_Q (Generic.total_system_cost s) in
  exists a,
    inject_Z year * N * (1 - eps) <= a <= inject_Z year * N * (1 + eps) /\
    a - C - 102 * ulp52 * N <= B64.to_Q (entry s year) <= a - C + 102 * ulp52 * N.
Proof.
  intros Hy N C.
  destruct (year_savings_tracks s Hv year Hy) as (Hna & _ & Hlo & Hhi).
  destruct (total_system_cost_tracks s Hv) as (Hnc & _ & _).
  destruct (net_annual_savings_tracks s Hv) as (Hnn & _ & _).
  apply positive_normal_pos in Hnn. fold N in Hnn, Hlo, Hhi.
  destruct (payback64_quotient s Hv) as (R & HR & HPlo & HPhi).
  destruct (payback64_range s Hv) as (_ & HPl & HPh).
  fold N C in HR.
  pose proof (fsub_spec _ _ Hna Hnc) as Hsub. cbv zeta in Hsub.
  fold (entry s year) in Hsub. fold C in Hsub.
  set (a := B64.to_Q (SFmul 53 1024 (B64.of_Z year) (Generic.net_annual_savings s))) in *.
  exists a.
  assert (E1 : 1 - 1 * eps == 1 - eps) by ring.
  assert (E2 : 1 + 1 * eps == 1 + eps) by ring.
  rewrite E1 in Hlo. rewrite E2 in Hhi.
  split; [split; assumption|].
  assert (Hyr : 1 <= inject_Z year <= 51).
  { change 1 with (inject_Z 1). change 51 with (inject_Z 51).
    rewrite <- !Zle_Qle. exact Hy. }
  assert (HR50 : R <= 50) by (unfold eps in *; lra).
  assert (HR0 : 0 <= R) by (unfold eps in *; lra).
  assert (HC : C <= 50 * N) by (rewrite <- HR; nra).
  assert (HC0 : 0 <= C) by (rewrite <- HR; nra).
  assert (Ha : 0 <= a <= 52 * N).
  { unfold eps in *. set (y := inject_Z year) in *. clearbody y a.
    assert (y * N <= 51 * N) by nra. assert (0 <= y * N) by nra.
    split; lra. }
  unfold ulp52 in *.
  destruct Hsub as [[H0 Hz] | [[Hpos (m & e & Heq & _ & HV)] | [Hneg (m & e & Heq & _ & HV)]]].
  - rewrite Hz. cbn [B64.to_Q]. clearbody a N C. split; lra.
  - set (r := B64.to_Q (entry s year)) in *. clearbody a r N C. split; nra.
  - set (r := B64.to_Q (entry s year)) in *. clearbody a r N C. split; nra.
Qed.

End Shape.

(** X9.  On every valid input, in the binary64 run, the
    cumulative-savings series of line 214 increases strictly from each
    year to the next, by [net_annual_savings] to within a relative
    [2^-43]. *)
Theorem cumulative_savings_shape_binary64 (s : Session spec_float) :
  valid64 s -> button s = true ->
  exists (net : spec_float) (cs : list spec_float),
    float_var "net_annual_savings" (run s) = Some net /\
    floats_var "cumulative_savings" (run s) = Some cs /\
    forall (i : nat) (c c' : spec_float),
      cs !! i = Some c -> cs !! S i = Some c' ->
      B64.to_Q c < B64.to_Q c' /\
      B64.to_Q net * (1 - (1 # 8796093022208))
        <= B64.to_Q c' - B64.to_Q c
        <= B64.to_Q net * (1 + (1 # 8796093022208)).
Proof.
  intros Hv Hb.
  set (n := Qfloor (B64.to_Q (payback64 s))).
  exists (Generic.net_annual_savings s), (Generic.cumulative_savings s n).
  rewrite (run_binary64 s Hv Hb). fold n.
  split; [reflexivity|]. split; [apply mapM_as_float|].
  destruct (int_payback64 s Hv) as [_ Hn]. fold n in Hn.
  intros i c c' Hc Hc'.
  unfold Generic.cumulative_savings, Generic.years in Hc, Hc'.
  rewrite list_lookup_fmap in Hc, Hc'.
  destruct (seqZ 1 (n + 5 - 1) !! i) as [y|] eqn:Hy; [|discriminate Hc].
  destruct (seqZ 1 (n + 5 - 1) !! S i) as [y'|] eqn:Hy'; [|discriminate Hc'].
  apply lookup_seqZ in Hy as [-> Hi]. apply lookup_seqZ in Hy' as [-> Hi'].
  assert (Ec : c = entry s (1 + Z.of_nat i))
    by (cbn [fmap option_fmap option_map] in Hc; injection Hc as <-; reflexivity).
  assert (Ec' : c' = entry s (1 + Z.of_nat (S i)))
    by (cbn [fmap option_fmap option_map] in Hc'; injection Hc' as <-; reflexivity).
  subst c c'. clear Hc Hc'.
  destruct (entry_value s Hv (1 + Z.of_nat i) ltac:(lia)) as (a & [Hal Hah] & [Hrl Hrh]).
  destruct (entry_value s Hv (1 + Z.of_nat (S i)) ltac:(lia)) as (a' & [Hal' Hah'] & [Hrl' Hrh']).
  destruct (net_annual_savings_tracks s Hv) as (Hnn & _ & _).
  apply positive_normal_pos in Hnn.
  replace (1 + Z.of_nat (S i))%Z with ((1 + Z.of_nat i) + 1)%Z in * by lia.
  rewrite inject_Z_plus in Hal', Hah'. change (inject_Z 1) with 1 in Hal', Hah'.
  assert (Hk : 1 <= inject_Z (1 + Z.of_nat i) <= 51).
  { change 1 with (inject_Z 1) at 1. change 51 with (inject_Z 51).
    rewrite <- !Zle_Qle. lia. }
  unfold eps, ulp52 in *.
  set (k := inject_Z (1 + Z.of_nat i)) in *.
  set (N := B64.to_Q (Generic.net_annual_savings s)) in *.
  set (C := B64.to_Q (Generic.total_system_cost s)) in *.
  set (r := B64.to_Q (entry s (1 + Z.of_nat i))) in *.
  set (r' := B64.to_Q (entry s (1 + Z.of_nat i + 1))) in *.
  clearbody k N C r r'.
  assert (HkN : N <= k * N <= 51 * N) by (split; nra).
  assert (E : (k + 1) * N == k * N + N) by ring.
  rewrite E in Hal', Hah'. clear E.
  set (kN := k * N) in *. clearbody kN.
  split; [|split]; lra.
Qed.

Lemma cumulative_savings_shape_binary64_witness :
  valid64 scenario1 /\ button (scenario1 (F:=spec_float)) = true /\
  exists (cs : list spec_float) (c c' : spec_float),
    floats_var "cumulative_savings" (run scenario1) = Some cs /\
    cs !! 0%nat = Some c /\ cs !! 1%nat = Some c' /\
    B64.to_Q c < B64.to_Q c'.
Proof.
  assert (Hv : valid64 scenario1) by session64_in_range.
  split; [exact Hv|]. split; [reflexivity|].
  destruct (cumulative_savings_shape_binary64 scenario1 Hv eq_refl)
    as (net & cs & _ & Hcs & Hstep).
  pose proof Hcs as Hcs'. vm_compute in Hcs'. injection Hcs' as Hcs'.
  eexists cs, _, _. split; [exact Hcs|].
  split; [rewrite <- Hcs'; reflexivity|].
  split; [rewrite <- Hcs'; reflexivity|].
  refine (proj1 (Hstep 0%nat _ _ _ _)); rewrite <- Hcs'; reflexivity.
Defined.

Section MonthlySavings.
Variable s : Session spec_float.
Hypothesis Hv : valid64 s.

Lemma month_savings_tracks (k : Z) :
  (7 <= k <= 13)%Z ->
  tracks 4 1 100000000
    (B64.to_Q (Generic.annual_output s) / 12 * (inject_Z k / 10)
     * B64.to_Q (tariff s))
    (SFmul 53 1024
       (SFmul 53 1024 (SFdiv 53 1024 (Generic.annual_output s) (B64.of_Z 12))
              (decimal k 1))
       (tariff s)).
Proof.
  intros Hk.
  pose proof (month_tracks s Hv k Hk) as Hm.
  pose proof (tariff_tracks s Hv) as Ht.
  track_with tracks_mul ltac:(exact Hm) ltac:(exact Ht).
Qed.

Lemma annual_savings_self_tracks :
  tracks 1 1 100000000
    (B64.to_Q (Generic.annual_output s) * B64.to_Q (tariff s))
    (Generic.annual_savings s).
Proof.
  pose proof (tracks_self _ _ _ _ _ (annual_output_tracks s Hv)
                ltac:(qclosed) ltac:(split; qclosed)) as Hao.
  pose proof (tariff_tracks s Hv) as Ht.
  unfold Generic.annual_savings.
  track_with tracks_mul ltac:(exact Hao) ltac:(exact Ht).
Qed.

End MonthlySavings.

(** X8.  On every valid input, in the binary64 run, each entry of
    [monthly_savings] (line 243) is the month's output times the tariff,
    and the exact sum of the twelve entries is 121/120 of
    [annual_savings] to within a relative [6 * 2^-51]: the monthly figures
    of the second tab total strictly more than the annual savings of the
    first tab. *)
Theorem monthly_savings_total_binary64 (s : Session spec_float) :
  valid64 s -> button s = true ->
  exists (sv : spec_float) (mo ms : list spec_float),
    float_var "annual_savings" (run s) = Some sv /\
    floats_var "monthly_output" (run s) = Some mo /\
    floats_var "monthly_savings" (run s) = Some ms /\
    ms = (fun o => SFmul 53 1024 o (tariff s)) <$> mo /\
    length ms = 12%nat /\
    (let total := B64.to_Q sv * (121 # 120) in
     total * (1 - 6 * eps) <= Qsum (B64.to_Q <$> ms) <= total * (1 + 6 * eps)) /\
    B64.to_Q sv < Qsum (B64.to_Q <$> ms).
Proof.
  intros Hv Hb.
  exists (Generic.annual_savings s), (Generic.monthly_output s),
    (Generic.monthly_savings s).
  rewrite (run_binary64 s Hv Hb).
  split; [reflexivity|]. split; [apply mapM_as_float|].
  split; [apply mapM_as_float|]. split; [reflexivity|]. split; [reflexivity|].
  destruct (month_savings_tracks s Hv 7 ltac:(lia)) as (_ & _ & L7 & U7).
  destruct (month_savings_tracks s Hv 8 ltac:(lia)) as (_ & _ & L8 & U8).
  destruct (month_savings_tracks s Hv 9 ltac:(lia)) as (_ & _ & L9 & U9).
  destruct (month_savings_tracks s Hv 10 ltac:(lia)) as (_ & _ & L10 & U10).
  destruct (month_savings_tracks s Hv 11 ltac:(lia)) as (_ & _ & L11 & U11).
  destruct (month_savings_tracks s Hv 12 ltac:(lia)) as (_ & _ & L12 & U12).
  destruct (month_savings_tracks s Hv 13 ltac:(lia)) as (_ & _ & L13 & U13).
  destruct (annual_savings_self_tracks s Hv) as (Hn & _ & Ls & Us).
  apply positive_normal_pos in Hn.
  unfold Generic.monthly_savings, Generic.monthly_output, Generic.seasonal_variation.
  cbn [fmap list_fmap Qsum foldr].
  change (fmul (fmul (fdiv (Generic.annual_output s) (of_int 12)) ?f) (tariff s))
    with (SFmul 53 1024
            (SFmul 53 1024 (SFdiv 53 1024 (Generic.annual_output s) (B64.of_Z 12)) f)
            (tariff s)).
  cbv zeta.
  revert L7 U7 L8 U8 L9 U9 L10 U10 L11 U11 L12 U12 L13 U13 Ls Us. qconst.
  change (inject_Z 7) with 7. change (inject_Z 8) with 8. change (inject_Z 9) with 9.
  change (inject_Z 10) with 10. change (inject_Z 11) with 11.
  change (inject_Z 12) with 12. change (inject_Z 13) with 13.
  unfold eps.
  set (A := B64.to_Q (Generic.annual_output s)) in *.
  set (T := B64.to_Q (tariff s)) in *.
  set (c := SFdiv 53 1024 (Generic.annual_output s) (B64.of_Z 12)).
  set (m7 := B64.to_Q (SFmul 53 1024 (SFmul 53 1024 c (decimal 7 1)) (tariff s))).
  set (m8 := B64.to_Q (SFmul 53 1024 (SFmul 53 1024 c (decimal 8 1)) (tariff s))).
  set (m9 := B64.to_Q (SFmul 53 1024 (SFmul 53 1024 c (decimal 9 1)) (tariff s))).
  set (m10 := B64.to_Q (SFmul 53 1024 (SFmul 53 1024 c (decimal 10 1)) (tariff s))).
  set (m11 := B64.to_Q (SFmul 53 1024 (SFmul 53 1024 c (decimal 11 1)) (tariff s))).
  set (m12 := B64.to_Q (SFmul 53 1024 (SFmul 53 1024 c (decimal 12 1)) (tariff s))).
  set (m13 := B64.to_Q (SFmul 53 1024 (SFmul 53 1024 c (decimal 13 1)) (tariff s))).
  set (sv := B64.to_Q (Generic.annual_savings s)) in *.
  clearbody A T m7 m8 m9 m10 m11 m12 m13 sv.
  intros.
  assert (E7 : A * (1 # 12) * (7 * (1 # 10)) * T == (A * T) * (7 # 120)) by ring.
  assert (E8 : A * (1 # 12) * (8 * (1 # 10)) * T == (A * T) * (8 # 120)) by ring.
  assert (E9 : A * (1 # 12) * (9 * (1 # 10)) * T == (A * T) * (9 # 120)) by ring.
  assert (E10 : A * (1 # 12) * (10 * (1 # 10)) * T == (A * T) * (10 # 120)) by ring.
  assert (E11 : A * (1 # 12) * (11 * (1 # 10)) * T == (A * T) * (11 # 120)) by ring.
  assert (E12 : A * (1 # 12) * (12 * (1 # 10)) * T == (A * T) * (12 # 120)) by ring.
  assert (E13 : A * (1 # 12) * (13 * (1 # 10)) * T == (A * T) * (13 # 120)) by ring.
  rewrite E7 in *. rewrite E8 in *. rewrite E9 in *. rewrite E10 in *.
  rewrite E11 in *. rewrite E12 in *. rewrite E13 in *.
  set (z := A * T) in *. clearbody z.
  split; [split|]; lra.
Qed.

Lemma monthly_savings_total_binary64_witness :
  valid64 scenario1 /\ button (scenario1 (F:=spec_float)) = true /\
  exists (sv : spec_float) (ms : list spec_float),
    float_var "annual_savings" (run scenario1) = Some sv /\
    floats_var "monthly_savings" (run scenario1) = Some ms /\
    B64.to_Q sv < Qsum (B64.to_Q <$> ms).
Proof.
  assert (Hv : valid64 scenario1) by session64_in_range.
  split; [exact Hv|]. split; [reflexivity|].
  destruct (monthly_savings_total_binary64 scenario1 Hv eq_refl)
    as (sv & mo & ms & Hsv & _ & Hms & _ & _ & _ & Hlt).
  exists sv, ms. auto.
Defined.


Section PaybackGap.
Import Exact.


Lemma exact_payback_gap_intro (s s' : Session Q) :
  valid s -> valid s' ->
  total_system_cost s' * net_annual_savings s * (1 + (1 # 1000000000))
    <= total_system_cost s * net_annual_savings s' ->
  exact_payback s' * (1 + (1 # 1000000000)) <= exact_payback s.
Proof.
  intros Hv Hv' Hle. unfold exact_payback.
  pose proof (net_annual_savings_pos s Hv) as Hn.
  pose proof (net_annual_savings_pos s' Hv') as Hn'.
  set (C := total_system_cost s) in *. set (C' := total_system_cost s') in *.
  set (N := net_annual_savings s) in *. set (N' := net_annual_savings s') in *.
  clearbody C C' N N'.
  assert (E : C' / N' * (1 + (1 # 1000000000))
              == (C' * N * (1 + (1 # 1000000000))) / (N * N')) by (field; lra).
  assert (E' : C / N == (C * N') / (N * N')) by (field; lra).
  rewrite E, E'. unfold Qdiv. apply Qmult_le_compat_r; [exact Hle|].
  apply Qlt_le_weak, Qinv_lt_0_compat. nra.
Qed.

End PaybackGap.

Section PaybackGapCases.
Import Exact.
Variable s : Session Q.
Hypothesis Hv : valid s.

Lemma net_annual_savings_upper : net_annual_savings s <= 43115625.
Proof.
  unfold net_annual_savings, annual_savings.
  pose proof (annual_output_upper s Hv) as Ho.
  pose proof (annual_output_lower s Hv) as Ho'.
  destruct Hv as [_ _ [Ht' Ht] _ _ _ [Hm _]%inject_Z_range].
  set (o := annual_output s) in *. set (m := inject_Z (maintenance_cost s)) in *.
  set (t := tariff s) in *. clearbody o m t. revert Ho'. qconst. intros Ho'.
  assert (o * t <= 2874375 * 15) by (apply Qmult_le_both; lra).
  lra.
Qed.

Lemma installation_cost_gap (c' : Z) :
  (40000 <= c' < installation_cost s)%Z ->
  exact_payback (set_installation_cost c' s) * (1 + (1 # 1000000000))
    <= exact_payback s.
Proof.
  intros Hc.
  assert (Hv' : valid (set_installation_cost c' s)).
  { destruct Hv. constructor; cbn; try assumption. lia. }
  apply exact_payback_gap_intro; [exact Hv|exact Hv'|].
  pose proof (net_annual_savings_pos s Hv) as Hn.
  pose proof (annual_output_lower s Hv) as Ho.
  change (net_annual_savings (set_installation_cost c' s)) with (net_annual_savings s).
  unfold total_system_cost.
  change (annual_output (set_installation_cost c' s)) with (annual_output s).
  cbn [installation_cost set_installation_cost].
  assert (Hcq : inject_Z c' + 1 <= inject_Z (installation_cost s)).
  { change 1 with (inject_Z 1). rewrite <- inject_Z_plus, <- Zle_Qle. lia. }
  assert (Hcu : inject_Z c' <= 80000).
  { destruct Hv as [_ _ _ _ _ [_ Hu] _]. change 80000 with (inject_Z 80000).
    rewrite <- Zle_Qle. lia. }
  set (o := annual_output s) in *. set (N := net_annual_savings s) in *.
  set (c := inject_Z (installation_cost s)) in *. set (d := inject_Z c') in *.
  clearbody o N c d. revert Ho. qconst. intros Ho.
  assert (HW : 0 <= o * N) by nra.
  assert (E1 : o * (1 # 1000) * d * N * (1 + (1 # 1000000000))
               == (o * N) * ((1 # 1000) * (d * (1 + (1 # 1000000000))))) by ring.
  assert (E2 : o * (1 # 1000) * c * N == (o * N) * ((1 # 1000) * c)) by ring.
  rewrite E1, E2. set (W := o * N) in *. clearbody W.
  nra.
Qed.

Lemma maintenance_cost_gap (m' : Z) :
  (2000 <= m' < maintenance_cost s)%Z ->
  exact_payback (set_maintenance_cost m' s) * (1 + (1 # 1000000000))
    <= exact_payback s.
Proof.
  intros Hm.
  assert (Hv' : valid (set_maintenance_cost m' s)).
  { destruct Hv. constructor; cbn; try assumption. lia. }
  apply exact_payback_gap_intro; [exact Hv|exact Hv'|].
  pose proof (net_annual_savings_pos s Hv) as Hn.
  pose proof net_annual_savings_upper as Hnu.
  pose proof (total_system_cost_range s Hv) as [Hc _].
  change (total_system_cost (set_maintenance_cost m' s)) with (total_system_cost s).
  unfold net_annual_savings in *.
  change (annual_savings (set_maintenance_cost m' s)) with (annual_savings s).
  cbn [maintenance_cost set_maintenance_cost].
  assert (Hmq : inject_Z m' + 1 <= inject_Z (maintenance_cost s)).
  { change 1 with (inject_Z 1). rewrite <- inject_Z_plus, <- Zle_Qle. lia. }
  set (C := total_system_cost s) in *. set (S := annual_savings s) in *.
  set (m := inject_Z (maintenance_cost s)) in *. set (d := inject_Z m') in *.
  clearbody C S m d.
  assert (HN : (S - m) * (1 + (1 # 1000000000)) <= S - d) by lra.
  assert (E : C * (S - m) * (1 + (1 # 1000000000))
              == C * ((S - m) * (1 + (1 # 1000000000)))) by ring.
  rewrite E. nra.
Qed.

Lemma tariff_gap (t' : Q) :
  tariff s + (1 # 100) <= t' <= 15 ->
  exact_payback (set_tariff t' s) * (1 + (1 # 1000000000)) <= exact_payback s.
Proof.
  intros Ht.
  assert (Hv' : valid (set_tariff t' s)).
  { destruct Hv as [? ? [? ?] ? ? ? ?]. constructor; cbn; try assumption.
    split; lra. }
  apply exact_payback_gap_intro; [exact Hv|exact Hv'|].
  pose proof (net_annual_savings_pos s Hv) as Hn.
  pose proof net_annual_savings_upper as Hnu.
  pose proof (total_system_cost_range s Hv) as [Hc _].
  pose proof (annual_output_lower s Hv) as Ho.
  change (total_system_cost (set_tariff t' s)) with (total_system_cost s).
  unfold net_annual_savings, annual_savings in *.
  change (annual_output (set_tariff t' s)) with (annual_output s).
  cbn [tariff maintenance_cost set_tariff].
  set (C := total_system_cost s) in *. set (o := annual_output s) in *.
  set (m := inject_Z (maintenance_cost s)) in *. set (t := tariff s) in *.
  clearbody C o m t. revert Ho. qconst. intros Ho.
  assert (Hot : o * t + o * (1 # 100) <= o * t') by nra.
  set (ot := o * t) in *. set (ot' := o * t') in *. clearbody ot ot'.
  assert (HN : (ot - m) * (1 + (1 # 1000000000)) <= ot' - m) by lra.
  assert (E : C * (ot - m) * (1 + (1 # 1000000000))
              == C * ((ot - m) * (1 + (1 # 1000000000)))) by ring.
  rewrite E. nra.
Qed.

Lemma area_gap (a' : Z) :
  (area s < a' <= 1000)%Z ->
  exact_payback (set_area a' s) * (1 + (1 # 1000000000)) <= exact_payback s.
Proof.
  intros Ha.
  assert (Hv' : valid (set_area a' s)).
  { destruct Hv as [[? ?] ? ? ? ? ? ?]. constructor; cbn; try assumption. lia. }
  apply exact_payback_gap_intro; [exact Hv|exact Hv'|].
  pose proof (annual_output_lower s Hv) as Ho.
  pose proof (annual_output_upper _ Hv') as Ho'.
  assert (Hgap : annual_output s + 600 <= annual_output (set_area a' s)).
  { rewrite !annual_output_eq. cbn [area irradiance system_losses panel_efficiency set_area].
    pose proof (yield_valid s Hv) as Hy.
    assert (Haq : inject_Z (area s) + 1 <= inject_Z a').
    { change 1 with (inject_Z 1). rewrite <- inject_Z_plus, <- Zle_Qle. lia. }
    set (y := yield _ _ _) in *. set (a := inject_Z (area s)) in *.
    set (b := inject_Z a') in *. clearbody y a b. revert Hy. qconst. intros Hy.
    nra. }
  unfold total_system_cost, net_annual_savings, annual_savings.
  cbn [tariff maintenance_cost installation_cost set_area].
  destruct Hv as [_ _ [Ht Ht'] _ _ [Hc _]%inject_Z_range [Hm Hm']%inject_Z_range].
  change (inject_Z 40000) with 40000 in Hc.
  change (inject_Z 2000) with 2000 in Hm. change (inject_Z 8000) with 8000 in Hm'.
  set (o := annual_output s) in *. set (o' := annual_output (set_area a' s)) in *.
  set (t := tariff s) in *. set (m := inject_Z (maintenance_cost s)) in *.
  set (c := inject_Z (installation_cost s)) in *.
  clearbody o o' t m c. revert Ho. qconst. intros Ho.
  assert (H1 : o * o' <= 2874375 * 2874375) by (apply Qmult_le_both; lra).
  assert (H0 : 0 <= o * o') by nra.
  assert (H2 : o * o' * t <= 2874375 * 2874375 * 15)
    by (apply Qmult_le_both; lra).
  assert (H3 : 600 * 2000 <= (o' - o) * m) by (apply Qmult_le_both; lra).
  assert (Hcore : o' * (o * t - m) * (1 + (1 # 1000000000)) <= o * (o' * t - m)).
  { assert (E1 : o' * (o * t - m) * (1 + (1 # 1000000000))
                 == o * o' * t * (1 + (1 # 1000000000))
                    - o' * m * (1 + (1 # 1000000000))) by ring.
    assert (E2 : o * (o' * t - m) == o * o' * t - o * m) by ring.
    assert (E3 : (o' - o) * m == o' * m - o * m) by ring.
    rewrite E1, E2. rewrite E3 in H3.
    assert (H4 : 0 <= o' * m) by nra.
    set (W := o * o' * t) in *. set (om := o * m) in *. set (om' := o' * m) in *.
    clearbody W om om'. lra. }
  assert (E4 : o' * (1 # 1000) * c * (o * t - m) * (1 + (1 # 1000000000))
               == ((1 # 1000) * c) * (o' * (o * t - m) * (1 + (1 # 1000000000))))
    by ring.
  assert (E5 : o * (1 # 1000) * c * (o' * t - m)
               == ((1 # 1000) * c) * (o * (o' * t - m))) by ring.
  rewrite E4, E5.
  set (L := o' * (o * t - m) * (1 + (1 # 1000000000))) in *.
  set (R := o * (o' * t - m)) in *. clearbody L R. nra.
Qed.

End PaybackGapCases.

Lemma payback_shortens64_intro (s s' : Session spec_float) :
  valid64 s -> valid64 s' ->
  exact_payback (exact_of s') * (1 + (1 # 1000000000)) <= exact_payback (exact_of s) ->
  payback_shortens64 s s'.
Proof.
  intros Hv Hv' Hgap.
  exists (payback64 s), (payback64 s').
  rewrite !generic_estimate_run.
  split.
  { change (float_var "payback" (Ok (Generic.calculated s ∅)))
      with (as_float (Generic.payback s)).
    rewrite (payback64_eq s Hv). reflexivity. }
  split.
  { change (float_var "payback" (Ok (Generic.calculated s' ∅)))
      with (as_float (Generic.payback s')).
    rewrite (payback64_eq s' Hv'). reflexivity. }
  destruct (payback_quotient_tracks s Hv) as (Hn & [Hl _] & Hlo & _).
  destruct (payback_quotient_tracks s' Hv') as (Hn' & [Hl' _] & _ & Hhi').
  apply ltb_positive_normal; [exact Hn'|exact Hn|].
  fold (payback64 s) in Hlo. fold (payback64 s') in Hhi'.
  unfold exact_payback in Hgap. unfold eps in *.
  set (P := Exact.total_system_cost (exact_of s) / Exact.net_annual_savings (exact_of s)) in *.
  set (P' := Exact.total_system_cost (exact_of s') / Exact.net_annual_savings (exact_of s')) in *.
  set (p := B64.to_Q (payback64 s)) in *. set (p' := B64.to_Q (payback64 s')) in *.
  clearbody P P' p p'. lra.
Qed.

(** X10.  From a valid input, in binary64 arithmetic, a lower
    installation cost, a lower maintenance cost, a tariff higher by at
    least 0.01 or a larger roof, each changed alone within its range,
    strictly shortens the float [payback]. *)
Theorem payback_monotone_binary64 (s : Session spec_float) :
  valid64 s ->
  (forall c, (40000 <= c < installation_cost s)%Z ->
             payback_shortens64 s (set_installation_cost c s)) /\
  (forall m, (2000 <= m < maintenance_cost s)%Z ->
             payback_shortens64 s (set_maintenance_cost m s)) /\
  (forall t, valid_binary 53 1024 t = true ->
             B64.to_Q (tariff s) + (1 # 100) <= B64.to_Q t <= 15 ->
             payback_shortens64 s (set_tariff t s)) /\
  (forall a, (area s < a <= 1000)%Z -> payback_shortens64 s (set_area a s)).
Proof.
  intros Hv. pose proof Hv as [Hi Ht [Ha Hir Htr He Hl Hc Hm]]. cbn in *.
  destruct Hv as [_ _ Hq]. repeat split.
  - intros c' Hc'.
    apply payback_shortens64_intro.
    + constructor; [exact Hi|exact Ht|exact Hq].
    + constructor; [exact Hi|exact Ht|]. constructor; cbn; try assumption. lia.
    + apply (installation_cost_gap (exact_of s) Hq c' Hc').
  - intros m' Hm'.
    apply payback_shortens64_intro.
    + constructor; [exact Hi|exact Ht|exact Hq].
    + constructor; [exact Hi|exact Ht|]. constructor; cbn; try assumption. lia.
    + apply (maintenance_cost_gap (exact_of s) Hq m' Hm').
  - intros t' Ht' Hr.
    apply payback_shortens64_intro.
    + constructor; [exact Hi|exact Ht|exact Hq].
    + constructor; [exact Hi|exact Ht'|]. constructor; cbn; try assumption.
      split; lra.
    + apply (tariff_gap (exact_of s) Hq (B64.to_Q t') Hr).
  - intros a' Ha'.
    apply payback_shortens64_intro.
    + constructor; [exact Hi|exact Ht|exact Hq].
    + constructor; [exact Hi|exact Ht|]. constructor; cbn; try assumption. lia.
    + apply (area_gap (exact_of s) Hq a' Ha').
Qed.

Lemma payback_monotone_binary64_witness :
  valid64 scenario1 /\
  payback_shortens64 scenario1 (set_installation_cost 64999 scenario1) /\
  payback_shortens64 scenario1 (set_maintenance_cost 3999 scenario1) /\
  payback_shortens64 scenario1 (set_tariff (decimal 66 1) scenario1) /\
  payback_shortens64 scenario1 (set_area 101 scenario1).
Proof.
  assert (Hv : valid64 scenario1) by session64_in_range.
  split; [exact Hv|].
  destruct (payback_monotone_binary64 scenario1 Hv) as (Hc & Hm & Ht & Ha).
  split; [apply Hc; cbn; lia|]. split; [apply Hm; cbn; lia|].
  split; [|apply Ha; cbn; lia].
  apply Ht; [reflexivity|]. split; vm_compute; congruence.
Defined.

Lemma ltb_positive_normal_inv (x y : spec_float) :
  positive_normal x -> positive_normal y -> SFltb x y = true ->
  B64.to_Q x < B64.to_Q y.
Proof.
  intros (mx & ex & -> & Hdx & _)%positive_normal_inv
         (my & ey & -> & Hdy & _)%positive_normal_inv.
  rewrite !to_Q_finite. cbn [cond_Zopp].
  apply digits53_bounds in Hdx, Hdy.
  unfold SFltb, SFcompare.
  assert (H1 : inject_Z (Zpos mx) < 9007199254740992).
  { change 9007199254740992 with (inject_Z (2 ^ 53)). rewrite <- Zlt_Qlt. lia. }
  assert (H2 : 4503599627370496 <= inject_Z (Zpos my)).
  { change 4503599627370496 with (inject_Z (2 ^ 52)). rewrite <- Zle_Qle. lia. }
  destruct (Z.compare_spec ex ey) as [E|E|E].
  - subst ey. pose proof (pow2_pos ex) as Hw.
    change (Pos.compare_cont Eq mx my) with (Pos.compare mx my).
    destruct (Pos.compare_spec mx my) as [Em|Em|Em]; try discriminate.
    intros _.
    assert (Hm : inject_Z (Zpos mx) < inject_Z (Zpos my)) by (rewrite <- Zlt_Qlt; lia).
    nra.
  - intros _.
    assert (Hp : 2 ^ 1 * 2 ^ ex <= 2 ^ ey).
    { rewrite <- pow2_add. apply Qpower_le_compat_l; [lia|lra]. }
    change (2 ^ 1) with 2 in Hp.
    pose proof (pow2_pos ex) as Hw.
    set (a := inject_Z (Zpos mx)) in *. set (b := inject_Z (Zpos my)) in *.
    set (u := 2 ^ ex) in *. set (v := 2 ^ ey) in *. clearbody a b u v.
    assert (a * u < 9007199254740992 * u) by nra.
    assert (4503599627370496 * v <= b * v) by nra.
    lra.
  - discriminate.
Qed.

Section Gauge.
Variable s : Session spec_float.
Hypothesis Hv : valid64 s.


Lemma score64_tracks :
  tracks 8 1 10000000
    (Exact.annual_output (exact_of s) / inject_Z (area s) * 10) (score64 s).
Proof.
  pose proof (annual_output_tracks s Hv) as Hao.
  destruct Hv as [_ _ [? ? ? ? ? ? ?]]. cbn in *.
  unfold score64.
  track_with tracks_mul
    ltac:(eapply tracks_div;
          [ exact Hao | apply (tracks_of_Z (area s) 10 1000); lia | qclosed .. ])
    ltac:(apply (tracks_of_Z 10 10 10); lia).
Qed.

Lemma fig_gauge64 : Generic.fig_gauge s = VInt 100.
Proof.
  unfold Generic.fig_gauge. cbv zeta.
  change (fmul (fdiv (Generic.annual_output s) (of_int (area s))) (of_int 10))
    with (score64 s).
  change (fltb (score64 s) (of_int 100)) with (SFltb (score64 s) (B64.of_Z 100)).
  destruct (SFltb (score64 s) (B64.of_Z 100)) eqn:Hlt; [exfalso|reflexivity].
  destruct score64_tracks as (Hn & _ & Hlo & _).
  destruct (of_Z_exact 100 ltac:(lia)) as [Hn100 H100].
  apply (ltb_positive_normal_inv _ _ Hn Hn100) in Hlt.
  rewrite H100 in Hlt. change (inject_Z 100) with 100 in Hlt.
  destruct Hv as [_ _ Hq].
  pose proof (yield_valid _ Hq) as Hy.
  pose proof (annual_output_eq (exact_of s)) as Eo.
  assert (Ha : 10 <= inject_Z (area s)).
  { destruct Hq as [[Ha _] _ _ _ _ _ _]. cbn in Ha.
    change 10 with (inject_Z 10). rewrite <- Zle_Qle. exact Ha. }
  cbn [area irradiance system_losses panel_efficiency exact_of] in Hy, Eo.
  set (y := yield _ _ _) in *.
  assert (Es : Exact.annual_output (exact_of s) / inject_Z (area s) * 10 == y * 10).
  { rewrite Eo. field. lra. }
  rewrite Es in Hlo. unfold eps in *.
  set (v := B64.to_Q (score64 s)) in *. clearbody y v. revert Hy. qconst. intros Hy.
  lra.
Qed.

End Gauge.

(** X13.  On every valid input, in the binary64 run, the value of the
    gauge of line 189 is the int [100]: the float score
    [(annual_output / area) * 10] is at least 6159, so the comparison of
    [min] never selects it. *)
Theorem potential_score_saturates_binary64 (s : Session spec_float) :
  valid64 s -> button s = true ->
  value_var "fig_gauge" (run s) = Some (VInt 100).
Proof.
  intros Hv Hb. rewrite (run_binary64 s Hv Hb).
  change (value_var "fig_gauge" (Ok (Generic.final s _ ∅)))
    with (Some (Generic.fig_gauge s)).
  rewrite (fig_gauge64 s Hv). reflexivity.
Qed.

Lemma potential_score_saturates_binary64_witness :
  valid64 scenario1 /\ button (scenario1 (F:=spec_float)) = true /\
  value_var (F:=spec_float) "fig_gauge" (run scenario1) = Some (VInt 100).
Proof.
  assert (Hv : valid64 scenario1) by session64_in_range.
  split; [exact Hv|]. split; [reflexivity|].
  exact (potential_score_saturates_binary64 scenario1 Hv eq_refl).
Defined.

Lemma co2_factor_tracks :
  tracks 1 (82 # 100) (82 # 100) (82 # 100) (decimal 82 2).
Proof.
  unfold decimal. change (10 ^ Z.of_nat 2)%Z with 100%Z.
  eapply tracks_comp; [|
    track_with tracks_div
      ltac:(apply (tracks_of_Z 82 82 82); lia)
      ltac:(apply (tracks_of_Z 100 100 100); lia)].
  reflexivity.
Qed.

(** X14.  On every valid input the float [co2_reduction] of line 143 is
    0.82 times the float [annual_output] to within a relative [2^-50],
    and lies between 5,050 and 2,357,000 kg. *)
Theorem co2_reduction_binary64 (s : Session spec_float) :
  valid64 s ->
  exists ao co2 : spec_float,
    float_var "annual_output" (estimate s) = Some ao /\
    float_var "co2_reduction" (estimate s) = Some co2 /\
    accurate_to 2 (B64.to_Q ao * (82 # 100)) co2 /\
    5050 <= B64.to_Q co2 <= 2357000.
Proof.
  intros Hv.
  exists (Generic.annual_output s), (Generic.co2_reduction s).
  rewrite generic_estimate_run.
  split; [reflexivity|]. split; [reflexivity|].
  pose proof (annual_output_tracks s Hv) as Hao.
  pose proof (tracks_self _ _ _ _ _ Hao ltac:(qclosed) ltac:(split; qclosed)) as Hself.
  pose proof co2_factor_tracks as Hf.
  assert (Hco2 : tracks 2 1 10000000 (B64.to_Q (Generic.annual_output s) * (82 # 100))
                   (Generic.co2_reduction s)).
  { unfold Generic.co2_reduction.
    track_with tracks_mul ltac:(exact Hself) ltac:(exact Hf). }
  destruct Hco2 as (_ & _ & Hlo & Hhi).
  split; [split; assumption|].
  destruct Hao as (_ & [Hl Hh] & Hal & Hah).
  unfold eps in *.
  set (A := Exact.annual_output (exact_of s)) in *.
  set (a := B64.to_Q (Generic.annual_output s)) in *.
  set (c := B64.to_Q (Generic.co2_reduction s)) in *.
  clearbody A a c. split; lra.
Qed.

Lemma co2_reduction_binary64_witness :
  valid64 scenario1 /\
  exists co2 : spec_float,
    float_var "co2_reduction" (estimate scenario1) = Some co2 /\
    5050 <= B64.to_Q co2 <= 2357000.
Proof.
  assert (Hv : valid64 scenario1) by session64_in_range.
  split; [exact Hv|].
  destruct (co2_reduction_binary64 scenario1 Hv) as (ao & co2 & _ & Hco2 & _ & Hr).
  exists co2. split; [exact Hco2|exact Hr].
Defined.
